(** * Asset Factory: a shallow embedding of the decision core

    The TypeScript sources under [src/core] and [src/config] are embedded as
    Rocq functions: [TextAnalyzer], [LayerManager], [ThemeEngine],
    [AuditEngine] and [FeedbackSystem].  JavaScript strings are sequences of
    UTF-16 code units, JavaScript numbers are binary64 floats (the kernel's
    primitive floats), arrays are lists, and in-place mutation of the node
    tree is written as a function from the tree before to the tree after. *)

From Stdlib Require Import ZArith NArith List Bool String Ascii Floats Lia.
From Stdlib Require Import Permutation Sorted.
Import ListNotations.

#[local] Set Warnings "-inexact-float,-register-all".
#[local] Open Scope string_scope.
#[local] Open Scope list_scope.
#[local] Open Scope Z_scope.

(* ================================================================= *)
(** ** The JavaScript runtime the sources rely on *)

Module JS.

(** A string value: its UTF-16 code units. *)
Definition jsstring := list N.

(** A source literal (Basic Latin only) as a string value. *)
Fixpoint lit (s : string) : jsstring :=
  match s with
  | EmptyString => []
  | String c r => N_of_ascii c :: lit r
  end.

(** [a === b] on strings. *)
Fixpoint eqb (a b : jsstring) : bool :=
  match a, b with
  | [], [] => true
  | x :: a', y :: b' => N.eqb x y && eqb a' b'
  | _, _ => false
  end.

Definition is_ascii (c : N) : bool := N.ltb c 128.

Definition upper_ascii (c : N) : N :=
  if N.leb 97 c && N.leb c 122 then N.sub c 32 else c.

Definition lower_ascii (c : N) : N :=
  if N.leb 65 c && N.leb c 90 then N.add c 32 else c.

(** [String.prototype.toUpperCase] and [toLowerCase] follow the Unicode
    case tables of the host.  They are kept abstract; what is used of them
    is their action on strings of Basic Latin code units, where they map
    letters one by one and leave every other unit alone. *)
Class UnicodeCase := {
  toUpperCase : jsstring -> jsstring;
  toLowerCase : jsstring -> jsstring;
  toUpperCase_ascii : forall s,
    forallb is_ascii s = true -> toUpperCase s = map upper_ascii s;
  toLowerCase_ascii : forall s,
    forallb is_ascii s = true -> toLowerCase s = map lower_ascii s
}.

(** The case mapping that touches Basic Latin letters only. *)
#[export] Instance BasicLatin : UnicodeCase := {|
  toUpperCase := map upper_ascii;
  toLowerCase := map lower_ascii;
  toUpperCase_ascii := fun s _ => eq_refl;
  toLowerCase_ascii := fun s _ => eq_refl
|}.

(** WhiteSpace and LineTerminator code units: what [trim] strips and what
    [\s] matches. *)
Definition is_whitespace (c : N) : bool :=
  (N.leb 9 c && N.leb c 13) || N.eqb c 32 || N.eqb c 160 || N.eqb c 5760
  || (N.leb 8192 c && N.leb c 8202) || N.eqb c 8232 || N.eqb c 8233
  || N.eqb c 8239 || N.eqb c 8287 || N.eqb c 12288 || N.eqb c 65279.

Fixpoint trimStart (s : jsstring) : jsstring :=
  match s with
  | [] => []
  | c :: r => if is_whitespace c then trimStart r else s
  end.

Definition trim (s : jsstring) : jsstring :=
  rev (trimStart (rev (trimStart s))).

(** [s.split(/\s+/)]: the pieces between maximal runs of white space; a
    leading or trailing run leaves an empty piece, and the empty string
    splits into one empty piece. *)
Fixpoint split_ws_from (s : jsstring) (piece : jsstring) (in_run : bool)
  : list jsstring :=
  match s with
  | [] => [rev piece]
  | c :: r =>
      if is_whitespace c then
        if in_run then split_ws_from r piece true
        else rev piece :: split_ws_from r [] true
      else split_ws_from r (c :: piece) false
  end.

Definition split_ws (s : jsstring) : list jsstring := split_ws_from s [] false.

Fixpoint startsWith (s sub : jsstring) : bool :=
  match sub, s with
  | [], _ => true
  | _ :: _, [] => false
  | y :: sub', x :: s' => N.eqb x y && startsWith s' sub'
  end.

(** [s.includes(sub)]. *)
Fixpoint includes (s sub : jsstring) : bool :=
  startsWith s sub
  || match s with
     | [] => false
     | _ :: r => includes r sub
     end.

(** *** Regular expressions

    The patterns of the sources use literals, classes, alternation,
    optional parts, [+], and the anchors [^] and [$] at the two ends.  A
    pattern is a regular expression for the anchored part together with
    the two anchors and the [i] flag; matching is by derivatives. *)
Inductive regex : Type :=
| Eps
| Chr (c : N)
| Cls (p : N -> bool)
| Alt (r s : regex)
| Cat (r s : regex)
| Star (r : regex)
| Void.

Fixpoint nullable (r : regex) : bool :=
  match r with
  | Eps => true
  | Chr _ => false
  | Cls _ => false
  | Alt r s => nullable r || nullable s
  | Cat r s => nullable r && nullable s
  | Star _ => true
  | Void => false
  end.

(** Canonicalize of a pattern without the [u] flag, as far as it can meet
    a Basic Latin pattern character: a unit outside Basic Latin never
    canonicalizes into Basic Latin. *)
Definition canonicalize (c : N) : N := upper_ascii c.

Fixpoint deriv (ignoreCase : bool) (a : N) (r : regex) : regex :=
  match r with
  | Eps => Void
  | Chr c =>
      if (if ignoreCase then N.eqb (canonicalize a) (canonicalize c)
          else N.eqb a c)
      then Eps else Void
  | Cls p => if p a then Eps else Void
  | Alt r s => Alt (deriv ignoreCase a r) (deriv ignoreCase a s)
  | Cat r s =>
      if nullable r
      then Alt (Cat (deriv ignoreCase a r) s) (deriv ignoreCase a s)
      else Cat (deriv ignoreCase a r) s
  | Star r => Cat (deriv ignoreCase a r) (Star r)
  | Void => Void
  end.

Record RegExp := {
  source : regex;
  anchoredStart : bool;
  anchoredEnd : bool;
  ignoreCase : bool
}.

Definition anything : regex := Star (Cls (fun _ => true)).

(** [pattern.test(s)]. *)
Definition test (pattern : RegExp) (s : jsstring) : bool :=
  let body := source pattern in
  let r1 := if anchoredStart pattern then body else Cat anything body in
  let r2 := if anchoredEnd pattern then r1 else Cat r1 anything in
  nullable (fold_left (fun r a => deriv (ignoreCase pattern) a r) s r2).

Definition word (w : string) : regex :=
  fold_right (fun c r => Cat (Chr c) r) Eps (lit w).

Definition words (ws : list string) : regex :=
  fold_right (fun w r => Alt (word w) r) Void ws.

Definition optional (r : regex) : regex := Alt r Eps.
Definition plus (r : regex) : regex := Cat r (Star r).

(** [\d] and [\w]. *)
Definition digit (c : N) : bool := N.leb 48 c && N.leb c 57.
Definition wordchar (c : N) : bool :=
  digit c || (N.leb 65 c && N.leb c 90) || (N.leb 97 c && N.leb c 122)
  || N.eqb c 95.

(** [Array.prototype.sort(compare)]: a stable sort; an element moves in
    front of the first element it does not compare greater than. *)
Section Sort.
Context {A : Type} (compare : A -> A -> Z).

Fixpoint insert (x : A) (l : list A) : list A :=
  match l with
  | [] => [x]
  | y :: t => if compare x y <=? 0 then x :: y :: t else y :: insert x t
  end.

Definition sort (l : list A) : list A := fold_right insert [] l.

End Sort.

(** [array.indexOf(x)], [-1] when absent. *)
Fixpoint indexOf_from {A : Type} (same : A -> A -> bool) (x : A)
  (l : list A) (i : Z) : Z :=
  match l with
  | [] => -1
  | y :: t => if same y x then i else indexOf_from same x t (i + 1)
  end.

Definition indexOf {A : Type} (same : A -> A -> bool) (l : list A) (x : A) : Z :=
  indexOf_from same x l 0.

(** *** Numbers *)

Definition number := float.

(** An integer as a number (exact below 2^53). *)
Definition of_Z (z : Z) : number :=
  match z with
  | Z0 => 0%float
  | Zpos _ => PrimFloat.of_uint63 (Uint63.of_Z z)
  | Zneg _ => PrimFloat.opp (PrimFloat.of_uint63 (Uint63.of_Z (- z)))
  end.

Definition of_nat (n : nat) : number := of_Z (Z.of_nat n).

(** [Math.round]: the nearest integer, ties towards plus infinity; a
    number that is not finite, or is an integer already, is returned as
    it is, and a negative number rounding to zero gives minus zero. *)
Definition Math_round (x : number) : number :=
  match Prim2SF x with
  | S754_finite s m e =>
      if 0 <=? e then x
      else
        let k := - e in
        let twice := if s then - (2 * Z.pos m) else 2 * Z.pos m in
        let z := Z.shiftr (twice + Z.shiftl 1 k) (k + 1) in
        if (z =? 0) && s then (-0)%float else of_Z z
  | _ => x
  end.

Definition is_negative_zero (x : number) : bool :=
  match Prim2SF x with S754_zero true => true | _ => false end.

(** [Math.min] and [Math.max] of two numbers. *)
Definition Math_min (a b : number) : number :=
  if PrimFloat.is_nan a || PrimFloat.is_nan b then PrimFloat.nan
  else if PrimFloat.ltb a b then a
  else if PrimFloat.ltb b a then b
  else if is_negative_zero a then a else b.

Definition Math_max (a b : number) : number :=
  if PrimFloat.is_nan a || PrimFloat.is_nan b then PrimFloat.nan
  else if PrimFloat.ltb a b then b
  else if PrimFloat.ltb b a then a
  else if is_negative_zero a then b else a.

End JS.

Import JS.


(* ================================================================= *)
(** ** src/core/text-analyzer.ts *)

Module TextAnalyzer.

Inductive Role : Type := headline | subhead | body | cta | tag.

Definition Role_eqb (a b : Role) : bool :=
  match a, b with
  | headline, headline | subhead, subhead | body, body
  | cta, cta | tag, tag => true
  | _, _ => false
  end.

Module TextInput.
Record t : Type := { text : jsstring; type : option Role }.
End TextInput.

Record AnalyzedText : Type := {
  text : jsstring;
  type : Role;
  wordCount : nat;
  charCount : nat;
  hasAction : bool;
  isPunctated : bool;
  confidence : number
}.

Definition CTA_WORDS : list jsstring :=
  map lit
    [ "learn"; "get"; "join"; "start"; "try"; "discover"; "explore";
      "sign up"; "subscribe"; "download"; "buy"; "shop"; "order";
      "contact"; "call"; "book"; "register"; "apply"; "claim";
      "read"; "watch"; "listen"; "view"; "see"; "check";
      "click"; "tap"; "swipe"; "scroll" ].

Definition anchored (i : bool) (r : regex) : RegExp :=
  {| source := r; anchoredStart := true; anchoredEnd := true; ignoreCase := i |}.

Definition TAG_PATTERNS : list RegExp :=
  [ anchored true
      (words ["new"; "hot"; "sale"; "trending"; "featured"; "exclusive"; "limited"]);
    anchored true (words ["update"; "news"; "blog"; "post"; "article"]);
    anchored true
      (Alt (word "tip")
        (Alt (word "guide")
          (Alt (Cat (word "how") (Cat (optional (Chr 45%N)) (word "to")))
               (word "tutorial"))));
    anchored false (Cat (Chr 35%N) (plus (Cls wordchar)));
    anchored false
      (Cat (Cat (Cls digit) (optional (Cls digit)))
        (Cat (Chr 47%N) (Cat (Cls digit) (optional (Cls digit))))) ].

(** [/[→➜➡►▶]/] *)
Definition ARROWS : RegExp :=
  {| source :=
       Cls (fun c => N.eqb c 8594 || N.eqb c 10140 || N.eqb c 10145
                     || N.eqb c 9658 || N.eqb c 9654);
     anchoredStart := false; anchoredEnd := false; ignoreCase := false |}.

(** [/[.!?]$/] *)
Definition TERMINAL : RegExp :=
  {| source := Cls (fun c => N.eqb c 46 || N.eqb c 33 || N.eqb c 63);
     anchoredStart := false; anchoredEnd := true; ignoreCase := false |}.

Section Analyzer.
Context {U : UnicodeCase}.

Definition countWords (text : jsstring) : nat :=
  List.length (filter (fun word => Nat.ltb 0 (List.length word)) (split_ws (trim text))).

Definition hasPunctuation (text : jsstring) : bool :=
  test TERMINAL (trim text).

Definition hasActionWord (text : jsstring) : bool :=
  let lower := toLowerCase text in
  if existsb (fun word => includes lower word) CTA_WORDS then true
  else test ARROWS text.

Definition isTag (text : jsstring) : bool :=
  let trimmed := trim text in
  if Nat.ltb 3 (countWords trimmed) then false
  else if existsb (fun pattern => test pattern trimmed) TAG_PATTERNS then true
  else if eqb trimmed (toUpperCase trimmed) && Nat.leb (List.length trimmed) 15 then true
  else false.

Definition detectType (text : jsstring) : AnalyzedText :=
  let wordCount := countWords text in
  let charCount := List.length text in
  let hasAction := hasActionWord text in
  let isPunctated := hasPunctuation text in
  let '(type, confidence) :=
    if isTag text then (tag, 0.9%float)
    else if hasAction && Nat.leb wordCount 5 then (cta, 0.85%float)
    else if Nat.leb wordCount 10 && negb isPunctated then (headline, 0.8%float)
    else if Nat.leb wordCount 30 then (subhead, 0.75%float)
    else (body, 0.7%float) in
  {| text := text; type := type; wordCount := wordCount;
     charCount := charCount; hasAction := hasAction;
     isPunctated := isPunctated; confidence := confidence |}.

(** The body of the loop of [analyze]: one result per input. *)
Definition analyzeInput (input : TextInput.t) : AnalyzedText :=
  match TextInput.type input with
  | Some explicit =>
      {| text := TextInput.text input;
         type := explicit;
         wordCount := countWords (TextInput.text input);
         charCount := List.length (TextInput.text input);
         hasAction := hasActionWord (TextInput.text input);
         isPunctated := hasPunctuation (TextInput.text input);
         confidence := 1.0%float |}
  | None => detectType (TextInput.text input)
  end.

End Analyzer.

(** [result.type = t; result.confidence *= factor] *)
Definition retype (t : Role) (factor : number) (result : AnalyzedText)
  : AnalyzedText :=
  {| text := text result; type := t; wordCount := wordCount result;
     charCount := charCount result; hasAction := hasAction result;
     isPunctated := isPunctated result;
     confidence := PrimFloat.mul (confidence result) factor |}.

Definition isHeadline (r : AnalyzedText) : bool := Role_eqb (type r) headline.

(** The loop run when there are several headlines: every headline after the
    first becomes a subhead. *)
Fixpoint demoteLater (foundFirst : bool) (adjusted : list AnalyzedText)
  : list AnalyzedText :=
  match adjusted with
  | [] => []
  | result :: rest =>
      if isHeadline result then
        (if foundFirst then retype subhead 0.8%float result else result)
          :: demoteLater true rest
      else result :: demoteLater foundFirst rest
  end.

Definition isCandidate (r : AnalyzedText) : bool :=
  Nat.leb (wordCount r) 15
  && negb (Role_eqb (type r) cta) && negb (Role_eqb (type r) tag).

(** [adjusted.find(...)] and the update of what it found. *)
Fixpoint promoteFirst (adjusted : list AnalyzedText) : list AnalyzedText :=
  match adjusted with
  | [] => []
  | r :: rest =>
      if isCandidate r then retype headline 0.7%float r :: rest
      else r :: promoteFirst rest
  end.

(** [ensureHierarchy] up to its final sort: the array [adjusted], item [i]
    still the result of input [i]. *)
Definition adjust (results : list AnalyzedText) : list AnalyzedText :=
  let adjusted := results in
  let headlines := filter isHeadline adjusted in
  let adjusted :=
    if Nat.ltb 1 (List.length headlines) then demoteLater false adjusted
    else adjusted in
  if Nat.eqb (List.length headlines) 0 && Nat.ltb 0 (List.length adjusted)
  then promoteFirst adjusted
  else adjusted.

Definition typeOrder : list Role := [tag; headline; subhead; body; cta].

Definition byTypeOrder (a b : AnalyzedText) : Z :=
  indexOf Role_eqb typeOrder (type a) - indexOf Role_eqb typeOrder (type b).

Definition ensureHierarchy (results : list AnalyzedText) : list AnalyzedText :=
  sort byTypeOrder (adjust results).

Definition analyze {U : UnicodeCase} (inputs : list TextInput.t)
  : list AnalyzedText :=
  ensureHierarchy (map analyzeInput inputs).

End TextAnalyzer.


(* ================================================================= *)
(** ** Plain objects used as lookup tables *)

Module Obj.

(** The members every plain object inherits from [Object.prototype]; each
    of them is a function or an object, hence truthy. *)
Definition prototype_members : list jsstring :=
  map lit
    [ "constructor"; "__defineGetter__"; "__defineSetter__"; "hasOwnProperty";
      "__lookupGetter__"; "__lookupSetter__"; "isPrototypeOf";
      "propertyIsEnumerable"; "toString"; "valueOf"; "__proto__";
      "toLocaleString" ].

(** What [table[key]] evaluates to on an object literal [table]. *)
Inductive lookup (A : Type) : Type :=
| Own (value : A)
| Inherited (member : jsstring)
| Undefined.
Arguments Own {A} value.
Arguments Inherited {A} member.
Arguments Undefined {A}.

Fixpoint own {A : Type} (table : list (jsstring * A)) (key : jsstring)
  : option A :=
  match table with
  | [] => None
  | (k, v) :: rest => if eqb k key then Some v else own rest key
  end.

Definition get {A : Type} (table : list (jsstring * A)) (key : jsstring)
  : lookup A :=
  match own table key with
  | Some v => Own v
  | None =>
      if existsb (fun m => eqb m key) prototype_members
      then Inherited key else Undefined
  end.

End Obj.


(* ================================================================= *)
(** ** The document tree of the host *)

Module Figma.

Inductive NodeType : Type :=
| FRAME | GROUP | TEXT | ELLIPSE | RECTANGLE | VECTOR | COMPONENT | INSTANCE.

Definition NodeType_eqb (a b : NodeType) : bool :=
  match a, b with
  | FRAME, FRAME | GROUP, GROUP | TEXT, TEXT | ELLIPSE, ELLIPSE
  | RECTANGLE, RECTANGLE | VECTOR, VECTOR | COMPONENT, COMPONENT
  | INSTANCE, INSTANCE => true
  | _, _ => false
  end.

Record RGB : Type := { r : number; g : number; b : number }.

(** A gradient stop: [{ position, color: { ...rgb, a } }]. *)
Record ColorStop : Type := { position : number; color : RGB; a : number }.

Inductive Paint : Type :=
| SOLID (color : RGB)
| GRADIENT_LINEAR (gradientTransform : list (list number))
                  (gradientStops : list ColorStop).

(** [text.fontName]: one font, or [figma.mixed]. *)
Inductive FontValue : Type :=
| mixed
| FontName (family style : jsstring).

(** The properties of a node the sources read or write. *)
Record Props : Type := {
  id : jsstring;
  name : jsstring;
  type : NodeType;
  visible : bool;
  fills : list Paint;
  fontName : FontValue;
  width : number;
  height : number
}.

(** A node; [children] is [Some] exactly when ['children' in node]. *)
Inductive Node : Type :=
| mkNode (props : Props) (children : option (list Node)).

Definition props (n : Node) : Props := let '(mkNode p _) := n in p.
Definition children (n : Node) : option (list Node) :=
  let '(mkNode _ cs) := n in cs.

Definition set_name (s : jsstring) (p : Props) : Props :=
  {| id := id p; name := s; type := type p; visible := visible p;
     fills := fills p; fontName := fontName p; width := width p;
     height := height p |}.

Definition set_fills (f : list Paint) (p : Props) : Props :=
  {| id := id p; name := name p; type := type p; visible := visible p;
     fills := f; fontName := fontName p; width := width p;
     height := height p |}.

Definition set_visible (v : bool) (p : Props) : Props :=
  {| id := id p; name := name p; type := type p; visible := v;
     fills := fills p; fontName := fontName p; width := width p;
     height := height p |}.

Definition with_props (f : Props -> Props) (n : Node) : Node :=
  let '(mkNode p cs) := n in mkNode (f p) cs.

End Figma.


(* ================================================================= *)
(** ** src/config/defaults.ts *)

Module LAYER_NAMES.
Definition root : jsstring := lit "Asset Frame".
Definition content : jsstring := lit "content".
Definition headline : jsstring := lit "headline".
Definition subhead : jsstring := lit "subhead".
Definition body : jsstring := lit "body".
Definition cta : jsstring := lit "cta".
Definition tag : jsstring := lit "tag".
Definition branding : jsstring := lit "branding".
Definition logo : jsstring := lit "logo".
Definition tagline : jsstring := lit "tagline".
Definition decorative : jsstring := lit "decorative".
Definition glow : jsstring := lit "glow".
Definition accentShape : jsstring := lit "accent-shape".
Definition pattern : jsstring := lit "pattern".
Definition background : jsstring := lit "background".
End LAYER_NAMES.

Module Defaults.

(** A theme field is read off whatever [THEMES[themeName]] gave; on a value
    that is not a theme record the field is [undefined]. *)
Record ThemeDefinition : Type := {
  name : jsstring;
  description : jsstring;
  background : jsstring;
  text : jsstring;
  accent : jsstring;
  useGlow : bool
}.

Definition theme (n d bg t a : string) (glow : bool) : ThemeDefinition :=
  {| name := lit n; description := lit d; background := lit bg;
     text := lit t; accent := lit a; useGlow := glow |}.

Definition THEMES : list (jsstring * ThemeDefinition) :=
  [ (lit "dark",
     theme "Dark Mode" "Professional, sleek" "background_dark" "text_light"
           "primary" true);
    (lit "light",
     theme "Light Mode" "Clean, accessible" "background_light" "text_dark"
           "primary" false);
    (lit "bold",
     theme "Bold" "High impact" "primary" "text_light" "secondary" false);
    (lit "minimal",
     theme "Minimal" "Simple, elegant" "background_light" "primary"
           "accent" false);
    (lit "gradient",
     theme "Gradient" "Dynamic, modern" "gradient" "text_light" "accent"
           true) ].

Definition DEFAULT_COLORS : list (jsstring * jsstring) :=
  [ (lit "primary", lit "#3B82F6");
    (lit "secondary", lit "#1E293B");
    (lit "accent", lit "#10B981");
    (lit "background_light", lit "#F8FAFC");
    (lit "background_dark", lit "#0F172A");
    (lit "text_light", lit "#F8FAFC");
    (lit "text_dark", lit "#0F172A") ].

(** [SAFE_ZONE] *)
Definition SAFE_ZONE_margin : number := 0.05%float.
Definition SAFE_ZONE_minPixels : number := 20%float.

End Defaults.

(** ** src/config/brand-schema.ts: the parts of [BrandConfig] that are read *)

Module Brand.

Record TypographyConfig : Type := {
  headline_font : jsstring;
  body_font : jsstring
}.

Record BrandConfig : Type := {
  colors : option (list (jsstring * jsstring));
  typography : option TypographyConfig
}.

End Brand.


(* ================================================================= *)
(** ** src/core/layer-manager.ts *)

Module LayerManager.
Import Figma.

Record ValidationResult : Type := {
  valid : bool;
  errors : list jsstring;
  warnings : list jsstring;
  suggestions : list jsstring
}.

Section Naming.
Context {U : UnicodeCase}.

Definition getNormalizedName (node : Props) : option jsstring :=
  let currentName := toLowerCase (name node) in
  let has (s : string) := includes currentName (lit s) in
  let isText := NodeType_eqb (type node) TEXT in
  let inText : option jsstring :=
    if isText then
      if has "head" && negb (has "sub") then Some LAYER_NAMES.headline
      else if has "sub" then Some LAYER_NAMES.subhead
      else if has "body" || has "description" then Some LAYER_NAMES.body
      else if has "cta" || has "button" then Some LAYER_NAMES.cta
      else if has "tag" || has "label" then Some LAYER_NAMES.tag
      else None
    else None in
  match inText with
  | Some n => Some n
  | None =>
      let inFrame : option jsstring :=
        if NodeType_eqb (type node) FRAME || NodeType_eqb (type node) GROUP then
          if has "content" || has "text" then Some LAYER_NAMES.content
          else if has "brand" || has "logo" then Some LAYER_NAMES.branding
          else if has "decor" || has "effect" then Some LAYER_NAMES.decorative
          else if has "background" || has "bg" then Some LAYER_NAMES.background
          else None
        else None in
      match inFrame with
      | Some n => Some n
      | None =>
          if has "logo" && negb isText then Some LAYER_NAMES.logo
          else if NodeType_eqb (type node) ELLIPSE && (has "glow" || has "blur")
          then Some LAYER_NAMES.glow
          else None
      end
  end.

(** [if (normalizedName) child.name = normalizedName] *)
Definition rename (child : Props) : Props :=
  match getNormalizedName child with
  | Some normalizedName => set_name normalizedName child
  | None => child
  end.

(** Every child is renamed and, when it has children, entered; the node
    the walk starts from keeps its name. *)
Fixpoint normalizeLayerNames (node : Node) : Node :=
  match node with
  | mkNode p None => node
  | mkNode p (Some cs) =>
      mkNode p
        (Some (map (fun child =>
                      let '(mkNode pc ccs) := normalizeLayerNames child in
                      mkNode (rename pc) ccs) cs))
  end.

End Naming.

Definition layerOrder : list jsstring :=
  [ LAYER_NAMES.background; LAYER_NAMES.decorative; LAYER_NAMES.branding;
    LAYER_NAMES.content ].

(** A child of the frame together with its identity: two entries are the
    same object exactly when they carry the same number. *)
Abbreviation Child := (nat * Node)%type.

Definition same (x y : Child) : bool := Nat.eqb (fst x) (fst y).

(** [frame.insertChild(0, child)] on a child the frame already has: the
    child leaves its place and becomes the first one. *)
Definition insertChild0 (child : Child) (children : list Child) : list Child :=
  child :: filter (fun c => negb (same c child)) children.

(** The children of the frame after [organizeLayerOrder], from the children
    before it. *)
Definition organize (children : list Node) : list Node :=
  let frame_children : list Child :=
    combine (seq 0 (List.length children)) children in
  let orderedChildren : list Child :=
    flat_map
      (fun layer =>
         match find (fun c => eqb (name (props (snd c))) layer) frame_children with
         | Some child => [child]
         | None => []
         end)
      layerOrder in
  let otherChildren : list Child :=
    filter (fun child => negb (existsb (same child) orderedChildren))
           frame_children in
  let allChildren := orderedChildren ++ otherChildren in
  map snd
    (fold_left (fun cs child => insertChild0 child cs)
               (rev allChildren) frame_children).

Definition organizeLayerOrder (frame : Node) : Node :=
  match frame with
  | mkNode p None => frame
  | mkNode p (Some []) => frame
  | mkNode p (Some cs) => mkNode p (Some (organize cs))
  end.

Definition applyNaming {U : UnicodeCase} (node : Node) : Node :=
  organizeLayerOrder (normalizeLayerNames node).

(** The keys of the table in [getLayerKey]; every one maps to itself. *)
Definition layerKeys : list (jsstring * jsstring) :=
  map (fun k => (k, k))
    [ LAYER_NAMES.content; LAYER_NAMES.branding; LAYER_NAMES.decorative;
      LAYER_NAMES.background; LAYER_NAMES.headline; LAYER_NAMES.subhead;
      LAYER_NAMES.body; LAYER_NAMES.cta; LAYER_NAMES.tag; LAYER_NAMES.logo ].

(** [lookup[name] || null]: a key of the table, the member of
    [Object.prototype] that the name reaches, or nothing. *)
Definition getLayerKey (name : jsstring) : Obj.lookup jsstring :=
  Obj.get layerKeys name.

Definition truthy {A : Type} (v : Obj.lookup A) : bool :=
  match v with
  | Obj.Undefined => false
  | _ => true
  end.

(** [mapChildren]: the keys set on the record it returns. *)
Definition mapChildren (children : list Node) : list (Obj.lookup jsstring) :=
  filter truthy (map (fun child => getLayerKey (name (props child))) children).

(** [mapStructure]: the keys set on [structure], each with the keys of its
    own children when it has children.  A key that came from
    [Object.prototype] is a function or an object and is stored under its
    text, which is no layer name. *)
Definition mapStructure (children : list Node)
  : list (Obj.lookup jsstring * option (list (Obj.lookup jsstring))) :=
  flat_map (fun child =>
              let key := getLayerKey (name (props child)) in
              if truthy key
              then [(key, option_map mapChildren (Figma.children child))]
              else []) children.

(** [structure.content] and the like. *)
Definition present
  (structure : list (Obj.lookup jsstring * option (list (Obj.lookup jsstring))))
  (key : jsstring) : bool :=
  existsb (fun entry =>
             match fst entry with
             | Obj.Own k => eqb k key
             | _ => false
             end) structure.

Definition validate (node : Node) : ValidationResult :=
  if negb (NodeType_eqb (type (props node)) FRAME) then
    {| valid := false; errors := [lit "Root node must be a FRAME"];
       warnings := []; suggestions := [] |}
  else
    let structure :=
      mapStructure (match children node with Some cs => cs | None => [] end) in
    let errors :=
      if present structure (lit "content") then []
      else [lit "Missing required layer: " ++ LAYER_NAMES.content] in
    let warnings :=
      if present structure (lit "branding") then []
      else [lit "Missing layer: " ++ LAYER_NAMES.branding] in
    let suggestions :=
      if present structure (lit "decorative") then []
      else [lit "Consider adding a decorative group"] in
    {| valid := Nat.eqb (List.length errors) 0; errors := errors;
       warnings := warnings; suggestions := suggestions |}.

(** [findLayer]: the first node, in pre-order, with that name. *)
Fixpoint findLayer (node : Node) (layerName : jsstring) : option Node :=
  match node with
  | mkNode p cs =>
      if eqb (name p) layerName then Some node
      else
        match cs with
        | None => None
        | Some l =>
            (fix each (l : list Node) : option Node :=
               match l with
               | [] => None
               | child :: rest =>
                   match findLayer child layerName with
                   | Some found => Some found
                   | None => each rest
                   end
               end) l
        end
  end.

(** [getTextLayers]: the TEXT nodes in pre-order. *)
Fixpoint getTextLayers (node : Node) : list Node :=
  match node with
  | mkNode p cs =>
      (if NodeType_eqb (type p) TEXT then [node] else [])
      ++ match cs with
         | None => []
         | Some l => flat_map getTextLayers l
         end
  end.

End LayerManager.


(* ================================================================= *)
(** ** src/core/theme-engine.ts *)

Module ThemeEngine.
Import Figma.

(** What [THEMES[themeName]] gave: a theme, or a member of
    [Object.prototype], whose theme fields are all [undefined]. *)
Definition Theme : Type := Obj.lookup Defaults.ThemeDefinition.

Definition field {A : Type} (f : Defaults.ThemeDefinition -> A) (theme : Theme)
  : option A :=
  match theme with
  | Obj.Own t => Some (f t)
  | _ => None
  end.

(** A value used as a property key: [undefined] reads as its text. *)
Definition propertyKey (key : option jsstring) : jsstring :=
  match key with
  | Some k => k
  | None => lit "undefined"
  end.

Definition hexDigit (c : N) : bool :=
  digit c || (N.leb 65 c && N.leb c 70) || (N.leb 97 c && N.leb c 102).

(** [/^#?([a-f\d]{2})([a-f\d]{2})([a-f\d]{2})$/i] *)
Definition HEX : RegExp :=
  let pair := Cat (Cls hexDigit) (Cls hexDigit) in
  {| source := Cat (optional (Chr 35%N)) (Cat pair (Cat pair pair));
     anchoredStart := true; anchoredEnd := true; ignoreCase := true |}.

Definition hexValue (c : N) : Z :=
  if digit c then Z.of_N c - 48
  else if N.leb 97 c then Z.of_N c - 87
  else Z.of_N c - 55.

(** [parseInt(pair, 16) / 255] *)
Definition channel (hi lo : N) : number :=
  PrimFloat.div (of_Z (16 * hexValue hi + hexValue lo)) 255%float.

Definition black : RGB := {| r := 0%float; g := 0%float; b := 0%float |}.

Definition hexToRgb (hex : jsstring) : RGB :=
  if test HEX hex then
    match (match hex with 35%N :: digits => digits | _ => hex end) with
    | [r1; r2; g1; g2; b1; b2] =>
        {| r := channel r1 r2; g := channel g1 g2; b := channel b1 b2 |}
    | _ => black
    end
  else black.

(** [table[key]] as an operand of [||]: the text found when it is not
    empty; a member of [Object.prototype] is truthy but no text. *)
Inductive operand : Type :=
| Text (s : jsstring)
| NotText
| Falsy.

Definition read (table : list (jsstring * jsstring)) (key : jsstring) : operand :=
  match Obj.get table key with
  | Obj.Own s => if eqb s [] then Falsy else Text s
  | Obj.Inherited _ => NotText
  | Obj.Undefined => Falsy
  end.

Section Engine.
Variable brandConfig : option Brand.BrandConfig.

Definition getColor (key : option jsstring) : RGB :=
  let colors :=
    match brandConfig with
    | Some config =>
        match Brand.colors config with
        | Some palette => palette
        | None => Defaults.DEFAULT_COLORS
        end
    | None => Defaults.DEFAULT_COLORS
    end in
  match read colors (propertyKey key) with
  | Text hex => hexToRgb hex
  | NotText => black
  | Falsy =>
      match read Defaults.DEFAULT_COLORS (propertyKey key) with
      | Text hex => hexToRgb hex
      | NotText => black
      | Falsy => hexToRgb (lit "#000000")
      end
  end.

Definition applyGradientBackground (frame : Node) : Node :=
  let primaryColor := getColor (Some (lit "primary")) in
  let secondaryColor := getColor (Some (lit "secondary")) in
  with_props
    (set_fills
       [ GRADIENT_LINEAR
           [ [0.7071%float; 0.7071%float; 0%float];
             [(-0.7071)%float; 0.7071%float; 0.5%float] ]
           [ {| position := 0%float; color := primaryColor; a := 1%float |};
             {| position := 1%float; color := secondaryColor; a := 1%float |} ] ])
    frame.

Definition applyBackgroundColor (frame : Node) (theme : Theme) : Node :=
  let colorKey := field Defaults.background theme in
  match colorKey with
  | Some key =>
      if eqb key (lit "gradient") then applyGradientBackground frame
      else with_props (set_fills [SOLID (getColor colorKey)]) frame
  | None => with_props (set_fills [SOLID (getColor colorKey)]) frame
  end.

(** [findTextLayers] and the loop over it: every TEXT node below (and
    including) the frame, unless named [cta], gets the text colour. *)
Fixpoint paintText (textColor : RGB) (n : Node) : Node :=
  match n with
  | mkNode p cs =>
      mkNode
        (if NodeType_eqb (type p) TEXT && negb (eqb (name p) LAYER_NAMES.cta)
         then set_fills [SOLID textColor] p else p)
        (option_map (map (paintText textColor)) cs)
  end.

Definition applyTextColors (frame : Node) (theme : Theme) : Node :=
  paintText (getColor (field Defaults.text theme)) frame.

(** [findLayerByName]: the first node, in pre-order, with that name. *)
Fixpoint findLayerByName (node : Node) (layerName : jsstring) : option Node :=
  match node with
  | mkNode p cs =>
      if eqb (name p) layerName then Some node
      else
        match cs with
        | None => None
        | Some l =>
            (fix each (l : list Node) : option Node :=
               match l with
               | [] => None
               | child :: rest =>
                   match findLayerByName child layerName with
                   | Some found => Some found
                   | None => each rest
                   end
               end) l
        end
  end.

(** The tree after the node that [findLayerByName] returns was changed in
    place by [change]; [None] when there is no such node. *)
Fixpoint changeLayerByName (change : Node -> Node) (layerName : jsstring)
  (node : Node) : option Node :=
  match node with
  | mkNode p cs =>
      if eqb (name p) layerName then Some (change node)
      else
        match cs with
        | None => None
        | Some l =>
            option_map (fun l' => mkNode p (Some l'))
              ((fix each (l : list Node) : option (list Node) :=
                  match l with
                  | [] => None
                  | child :: rest =>
                      match changeLayerByName change layerName child with
                      | Some child' => Some (child' :: rest)
                      | None => option_map (cons child) (each rest)
                      end
                  end) l)
        end
  end.

Definition orElse {A : Type} (o : option A) (d : A) : A :=
  match o with
  | Some x => x
  | None => d
  end.

Definition applyAccentColors (frame : Node) (theme : Theme) : Node :=
  let accentColor := getColor (field Defaults.accent theme) in
  orElse
    (changeLayerByName
       (fun ctaNode =>
          if NodeType_eqb (type (props ctaNode)) TEXT
          then with_props (set_fills [SOLID accentColor]) ctaNode
          else ctaNode)
       LAYER_NAMES.cta frame)
    frame.

Definition applyGlowEffect (frame : Node) (theme : Theme) : Node :=
  let useGlow := orElse (field Defaults.useGlow theme) false in
  orElse
    (changeLayerByName
       (fun decorativeGroup =>
          match children decorativeGroup with
          | None => decorativeGroup
          | Some _ =>
              orElse
                (changeLayerByName (with_props (set_visible useGlow))
                   LAYER_NAMES.glow decorativeGroup)
                decorativeGroup
          end)
       LAYER_NAMES.decorative frame)
    frame.

(** [apply]: the frame after the call. *)
Definition apply (frame : Node) (themeName : jsstring) : Node :=
  let theme := Obj.get Defaults.THEMES themeName in
  match theme with
  | Obj.Undefined => frame
  | _ =>
      let frame := applyBackgroundColor frame theme in
      let frame := applyTextColors frame theme in
      let frame := applyAccentColors frame theme in
      applyGlowEffect frame theme
  end.

End Engine.

End ThemeEngine.


(* ================================================================= *)
(** ** src/core/audit-engine.ts *)

Module AuditEngine.
Import Figma.

Inductive Severity : Type := error | warning | info.

Definition Severity_eqb (a b : Severity) : bool :=
  match a, b with
  | error, error | warning, warning | info, info => true
  | _, _ => false
  end.

(** A message: the pieces of a template literal, a number standing for
    its decimal text. *)
Inductive piece : Type :=
| Str (s : jsstring)
| Num (x : number).

Definition Message : Type := list piece.

(** A message is truthy when its text is not empty. *)
Definition nonEmpty (m : Message) : bool :=
  existsb (fun p => match p with
                    | Str s => negb (eqb s [])
                    | Num _ => true
                    end) m.

Module AuditCheck.
Record t : Type := {
  name : jsstring;
  passed : bool;
  message : option Message;
  severity : Severity
}.
End AuditCheck.

Module AuditResult.
Record t : Type := {
  nodeId : jsstring;
  nodeName : jsstring;
  passed : bool;
  score : number;
  checks : list AuditCheck.t;
  warnings : list Message;
  timestamp : Z
}.
End AuditResult.

Definition check (n : string) (ok : bool) (m : Message) (s : Severity)
  : AuditCheck.t :=
  {| AuditCheck.name := lit n; AuditCheck.passed := ok;
     AuditCheck.message := Some m; AuditCheck.severity := s |}.

Section Engine.
Variable brandConfig : option Brand.BrandConfig.

Definition checkColorCompliance (frame : Node) : AuditCheck.t :=
  check "Color Compliance" true [Str (lit "All colors match brand palette")] error.

(** [configured || 'Inter'] *)
Definition fontOr (configured : option jsstring) : jsstring :=
  match configured with
  | Some f => if eqb f [] then lit "Inter" else f
  | None => lit "Inter"
  end.

Definition allowedFonts : list jsstring :=
  let typography :=
    match brandConfig with
    | Some config => Brand.typography config
    | None => None
    end in
  [ fontOr (option_map Brand.headline_font typography);
    fontOr (option_map Brand.body_font typography) ].

Definition checkTypography (frame : Node) : AuditCheck.t :=
  let textLayers := LayerManager.getTextLayers frame in
  let offending :=
    find (fun text =>
            match fontName (props text) with
            | mixed => false
            | FontName family _ =>
                negb (existsb (fun f => eqb f family) allowedFonts)
            end) textLayers in
  match option_map (fun text => fontName (props text)) offending with
  | Some (FontName family _) =>
      check "Typography" false [Str (lit "Non-brand font: "); Str family] error
  | _ => check "Typography" true [Str (lit "All text uses approved fonts")] error
  end.

Definition checkLogoPlacement (frame : Node) : AuditCheck.t :=
  match LayerManager.findLayer frame LAYER_NAMES.logo with
  | None => check "Logo Placement" false [Str (lit "Logo layer not found")] warning
  | Some _ => check "Logo Placement" true [Str (lit "Logo correctly placed")] warning
  end.

Definition checkLayerStructure (frame : Node) : AuditCheck.t :=
  let validation := LayerManager.validate frame in
  {| AuditCheck.name := lit "Layer Structure";
     AuditCheck.passed := LayerManager.valid validation;
     AuditCheck.message :=
       if LayerManager.valid validation
       then Some [Str (lit "Layer structure follows convention")]
       else option_map (fun e => [Str e])
                       (hd_error (LayerManager.errors validation));
     AuditCheck.severity :=
       if Nat.ltb 0 (List.length (LayerManager.errors validation))
       then error else warning |}.

Definition checkSafeZones (frame : Node) : AuditCheck.t :=
  let minMargin :=
    Math_max
      (PrimFloat.mul (Math_min (width (props frame)) (height (props frame)))
                     Defaults.SAFE_ZONE_margin)
      Defaults.SAFE_ZONE_minPixels in
  check "Safe Zones" true
    [Str (lit "All text within "); Num (Math_round minMargin);
     Str (lit "px margin")] warning.

Definition checkContrastRatio (frame : Node) : AuditCheck.t :=
  check "Contrast Ratio" true
    [Str (lit "Contrast ratio: 4.5:1+ (WCAG AA compliant)")] error.

Definition checkExportQuality (frame : Node) : AuditCheck.t :=
  let minWidth := 600%float in
  let minHeight := 200%float in
  if PrimFloat.ltb (width (props frame)) minWidth
     || PrimFloat.ltb (height (props frame)) minHeight
  then check "Export Quality" false [Str (lit "Resolution below minimum")] error
  else check "Export Quality" true
         [Str (lit "Resolution: "); Num (width (props frame)); Str (lit "x");
          Num (height (props frame)); Str (lit "px")] warning.

(** [check.message || check.name] *)
Definition messageOrName (c : AuditCheck.t) : Message :=
  match AuditCheck.message c with
  | Some m => if nonEmpty m then m else [Str (AuditCheck.name c)]
  | None => [Str (AuditCheck.name c)]
  end.

(** [audit]; [now] is the reading of the clock at [new Date()]. *)
Definition audit (now : Z) (frame : Node) : AuditResult.t :=
  let checks :=
    [ checkColorCompliance frame; checkTypography frame;
      checkLogoPlacement frame; checkLayerStructure frame;
      checkSafeZones frame; checkContrastRatio frame;
      checkExportQuality frame ] in
  let passedChecks := List.length (filter AuditCheck.passed checks) in
  let score :=
    Math_round
      (PrimFloat.mul
         (PrimFloat.div (of_nat passedChecks) (of_nat (List.length checks)))
         100%float) in
  let warnings :=
    map messageOrName
      (filter (fun c => negb (AuditCheck.passed c)
                        && Severity_eqb (AuditCheck.severity c) warning)
              checks) in
  let passed :=
    Nat.eqb
      (List.length
         (filter (fun c => Severity_eqb (AuditCheck.severity c) error
                           && negb (AuditCheck.passed c)) checks))
      0 in
  {| AuditResult.nodeId := id (props frame);
     AuditResult.nodeName := name (props frame);
     AuditResult.passed := passed;
     AuditResult.score := score;
     AuditResult.checks := checks;
     AuditResult.warnings := warnings;
     AuditResult.timestamp := now |}.

End Engine.

End AuditEngine.


(* ================================================================= *)
(** ** The feedback system (second part of src/core/audit-engine.ts) *)

Module FeedbackSystem.

(** A [Date]: its time value in milliseconds, or an invalid date. *)
Inductive Date : Type :=
| Valid (ms : Z)
| Invalid.

(** [a >= b] on dates: the comparison of their time values, false as soon
    as one of them is not a number. *)
Definition Date_ge (a b : Date) : bool :=
  match a, b with
  | Valid x, Valid y => y <=? x
  | _, _ => false
  end.

Module Outcome.
Inductive t : Type := approved | revised | rejected.
Definition eqb (a b : t) : bool :=
  match a, b with
  | approved, approved | revised, revised | rejected, rejected => true
  | _, _ => false
  end.
End Outcome.

Record FeedbackIssue : Type := {
  category : jsstring;
  severity : jsstring;
  description : jsstring
}.

Record Ratings : Type := {
  overall : number;
  brand_alignment : option number;
  visual_appeal : option number
}.

Record FeedbackEntry : Type := {
  assetId : jsstring;
  timestamp : Date;
  reviewer : jsstring;
  ratings : Ratings;
  issues : list FeedbackIssue;
  outcome : Outcome.t;
  notes : option jsstring
}.

Record FeedbackSummary : Type := {
  totalAssets : nat;
  approvedFirstTry : nat;
  neededRevision : nat;
  rejected : nat;
  averageRating : number;
  commonIssues : list (jsstring * nat);
  templateHealth : list (jsstring * number);
  periodStart : Date;
  periodEnd : Date
}.

(** [submit]: the log after the call. *)
Definition submit (feedbackLog : list FeedbackEntry) (entry : FeedbackEntry)
  : list FeedbackEntry :=
  feedbackLog ++ [entry].

(** [`${issue.category}: ${issue.description}`] *)
Definition issueKey (issue : FeedbackIssue) : jsstring :=
  category issue ++ lit ": " ++ description issue.

(** [issueCounter[key] = (issueCounter[key] || 0) + 1] on a record whose
    keys are kept in the order they were first set.  (A key always holds a
    colon and a space, so it is neither an array index nor a member of
    [Object.prototype].) *)
Fixpoint bump (key : jsstring) (issueCounter : list (jsstring * nat))
  : list (jsstring * nat) :=
  match issueCounter with
  | [] => [(key, 1%nat)]
  | (k, count) :: rest =>
      if eqb k key then (k, S count) :: rest
      else (k, count) :: bump key rest
  end.

Definition countIssues (recentFeedback : list FeedbackEntry)
  : list (jsstring * nat) :=
  fold_left
    (fun issueCounter feedback =>
       fold_left (fun counter issue => bump (issueKey issue) counter)
                 (issues feedback) issueCounter)
    recentFeedback [].

(** [(a, b) => b.count - a.count] *)
Definition byCountDescending (a b : jsstring * nat) : Z :=
  Z.of_nat (snd b) - Z.of_nat (snd a).

Definition msPerDay : Z := 86400000.

(** TimeClip: a time value out of the range of dates is no date. *)
Definition TimeClip (time : Z) : Date :=
  if 8640000000000000 <? Z.abs time then Invalid else Valid time.

Section Summary.
(** The clock and the time zone of the host: [now] is the time value of
    [new Date()] and [later] that of the second [new Date()];
    [LocalTZA_utc t] is the offset of local time at the time value [t],
    [LocalTZA_local t] the offset at the local time [t]. *)
Variables (now later : Z) (LocalTZA_utc LocalTZA_local : Z -> Z).
Variable feedbackLog : list FeedbackEntry.

(** [cutoff.setDate(cutoff.getDate() - days)] for a whole number of days:
    the day of the local date moves back by [days], the time within the
    day stays, and the result is read back as a time value. *)
Definition cutoff (days : Z) : Date :=
  let t := now + LocalTZA_utc now in
  let newDate := t - days * msPerDay in
  TimeClip (newDate - LocalTZA_local newDate).

Definition recent (days : Z) : list FeedbackEntry :=
  filter (fun f => Date_ge (timestamp f) (cutoff days)) feedbackLog.

Definition countOutcome (o : Outcome.t) (l : list FeedbackEntry) : nat :=
  List.length (filter (fun f => Outcome.eqb (outcome f) o) l).

Definition getSummary (days : Z) : FeedbackSummary :=
  let recentFeedback := recent days in
  let totalAssets := List.length recentFeedback in
  let averageRating :=
    if Nat.ltb 0 totalAssets
    then PrimFloat.div
           (fold_left (fun sum f => PrimFloat.add sum (overall (ratings f)))
                      recentFeedback 0%float)
           (of_nat totalAssets)
    else 0%float in
  let issueCounter := countIssues recentFeedback in
  let commonIssues := firstn 5 (sort byCountDescending issueCounter) in
  {| totalAssets := totalAssets;
     approvedFirstTry := countOutcome Outcome.approved recentFeedback;
     neededRevision := countOutcome Outcome.revised recentFeedback;
     rejected := countOutcome Outcome.rejected recentFeedback;
     averageRating :=
       PrimFloat.div (Math_round (PrimFloat.mul averageRating 10%float))
                     10%float;
     commonIssues := commonIssues;
     templateHealth := [];
     periodStart := cutoff days;
     periodEnd := Valid later |}.

End Summary.

End FeedbackSystem.


(* ================================================================= *)
(** ** src/config/brand-schema.ts: the loader *)

Module BrandConfigLoader.

(** A configuration as [yaml.parse] hands it over: any section, and any
    field that is read, may be missing. *)
Record BrandSection : Type := {
  name : option jsstring;
  tagline : option jsstring
}.

Record LogoConfig : Type := {
  primary : jsstring;
  placements : list jsstring
}.

Record Config : Type := {
  brand : option BrandSection;
  colors : option (list (jsstring * jsstring));
  typography : option Brand.TypographyConfig;
  logo : option LogoConfig
}.

Record ValidationResult : Type := {
  valid : bool;
  errors : list jsstring;
  warnings : list jsstring
}.

Definition hex (c : N) : bool := ThemeEngine.hexDigit c.

(** [/^#([A-Fa-f0-9]{6}|[A-Fa-f0-9]{3})$/] *)
Definition HEX_COLOR : RegExp :=
  let three := Cat (Cls hex) (Cat (Cls hex) (Cls hex)) in
  {| source := Cat (Chr 35%N) (Alt (Cat three three) three);
     anchoredStart := true; anchoredEnd := true; ignoreCase := false |}.

(** [/^rgba?\(\s*\d+\s*,\s*\d+\s*,\s*\d+(,\s*[\d.]+)?\s*\)$/] *)
Definition RGB_COLOR : RegExp :=
  let spaces := Star (Cls is_whitespace) in
  let digits := plus (Cls digit) in
  let comma := Chr 44%N in
  let number_ := Cat spaces (Cat digits spaces) in
  {| source :=
       Cat (word "rgb")
        (Cat (optional (Chr 97%N))
         (Cat (Chr 40%N)
          (Cat number_
           (Cat comma
            (Cat number_
             (Cat comma
              (Cat spaces
               (Cat digits
                (Cat (optional
                        (Cat comma
                          (Cat spaces
                               (plus (Cls (fun c => digit c || N.eqb c 46))))))
                 (Cat spaces (Chr 41%N)))))))))));
     anchoredStart := true; anchoredEnd := true; ignoreCase := false |}.

Definition isValidColor (color : jsstring) : bool :=
  test HEX_COLOR color || test RGB_COLOR color.

Definition colorFields : list jsstring :=
  map lit [ "primary"; "secondary"; "accent"; "background_light";
            "background_dark"; "text_light"; "text_dark" ].

(** A string value read as a condition: missing and empty are falsy. *)
Definition given (value : option jsstring) : bool :=
  match value with
  | Some s => negb (eqb s [])
  | None => false
  end.

(** The errors of one colour field.  (The seven field names are no
    members of [Object.prototype], so only own entries count.) *)
Definition colorErrors (palette : list (jsstring * jsstring))
  (field : jsstring) : list jsstring :=
  match Obj.own palette field with
  | Some color =>
      if eqb color [] then [lit "colors." ++ field ++ lit " is required"]
      else if negb (isValidColor color)
      then [lit "colors." ++ field ++ lit " has invalid format"]
      else []
  | None => [lit "colors." ++ field ++ lit " is required"]
  end.

Definition validate (config : Config) : ValidationResult :=
  let errors :=
    (if given (match brand config with
               | Some b => name b
               | None => None
               end)
     then [] else [lit "brand.name is required"])
    ++ match colors config with
       | None => [lit "colors section is required"]
       | Some palette => flat_map (colorErrors palette) colorFields
       end
    ++ (match typography config with
        | Some _ => []
        | None => [lit "typography section is required"]
        end) in
  let warnings :=
    match logo config with
    | Some _ => []
    | None => [lit "logo section is missing"]
    end in
  {| valid := Nat.eqb (List.length errors) 0;
     errors := errors; warnings := warnings |}.

(** [hexToRgb]: [None] stands for [null]. *)
Definition hexToRgb (hex : jsstring) : option Figma.RGB :=
  if test ThemeEngine.HEX hex then
    match (match hex with 35%N :: digits => digits | _ => hex end) with
    | [r1; r2; g1; g2; b1; b2] =>
        Some {| Figma.r := ThemeEngine.channel r1 r2;
                Figma.g := ThemeEngine.channel g1 g2;
                Figma.b := ThemeEngine.channel b1 b2 |}
    | _ => None
    end
  else None.

End BrandConfigLoader.


(* ================================================================= *)
(** * asset-engine.ts: the colours of a generated asset *)

Module AssetEngine.
Import Figma.

(** [hex.replace('#', '')]: the first hash sign, wherever it stands, is
    taken out. *)
Fixpoint removeHash (hex : jsstring) : jsstring :=
  match hex with
  | [] => []
  | c :: rest => if N.eqb c 35 then rest else c :: removeHash rest
  end.

(** [s.substring(start, finish)] for [start <= finish]. *)
Definition substring (s : jsstring) (start finish : nat) : jsstring :=
  firstn (finish - start) (skipn start s).

(** The value of the hexadecimal digits at the head of a string, on top
    of the digits read so far; [None] while no digit was read. *)
Fixpoint leadingDigits (s : jsstring) (sofar : option Z) : option Z :=
  match s with
  | c :: rest =>
      if ThemeEngine.hexDigit c
      then leadingDigits rest
             (Some (16 * match sofar with Some v => v | None => 0 end
                    + ThemeEngine.hexValue c))
      else sofar
  | [] => sofar
  end.

(** [parseInt(string, 16)]: white space at the head is skipped, then a
    sign, then the prefix [0x] or [0X]; the digits that follow are read,
    and the result is NaN when there is none.  ([hexToRgb] calls it on at
    most two code units, so the value is exact.) *)
Definition parseInt16 (string : jsstring) : number :=
  let S := trimStart string in
  let negative := match S with 45%N :: _ => true | _ => false end in
  let S := match S with
           | 43%N :: rest => rest
           | 45%N :: rest => rest
           | _ => S
           end in
  let S := match S with
           | 48%N :: x :: rest =>
               if N.eqb x 120 || N.eqb x 88 then rest else S
           | _ => S
           end in
  match leadingDigits S None with
  | None => PrimFloat.nan
  | Some mathInt =>
      if negative then PrimFloat.opp (of_Z mathInt) else of_Z mathInt
  end.

(** [isNaN(v) ? 0 : v / 255] *)
Definition overMax (v : number) : number :=
  if PrimFloat.is_nan v then 0%float else PrimFloat.div v 255%float.

Definition hexToRgb (hex : jsstring) : RGB :=
  let cleanHex := removeHash hex in
  let r := parseInt16 (substring cleanHex 0 2) in
  let g := parseInt16 (substring cleanHex 2 4) in
  let b := parseInt16 (substring cleanHex 4 6) in
  {| r := overMax r; g := overMax g; b := overMax b |}.

Record ThemeColors : Type := {
  background : jsstring;
  text : jsstring;
  primary : jsstring;
  secondary : jsstring;
  accent : jsstring
}.

(** [theme === name] for an optional argument. *)
Definition themeIs (theme : option jsstring) (name : string) : bool :=
  match theme with
  | Some t => eqb t (lit name)
  | None => false
  end.

Section Engine.
Variable brandConfig : option Brand.BrandConfig.

(** [this.brandConfig?.colors || {}] *)
Definition brandColors : list (jsstring * jsstring) :=
  match brandConfig with
  | Some config =>
      match Brand.colors config with
      | Some palette => palette
      | None => []
      end
  | None => []
  end.

(** [defaults.key], for a key of [DEFAULT_COLORS]. *)
Definition defaults (key : string) : jsstring :=
  match Obj.own Defaults.DEFAULT_COLORS (lit key) with
  | Some hex => hex
  | None => []
  end.

(** [brandColors.key || defaults.key] *)
Definition brandOrDefault (key : string) : jsstring :=
  match Obj.own brandColors (lit key) with
  | Some hex => if eqb hex [] then defaults key else hex
  | None => defaults key
  end.

Definition getThemeColors (theme : option jsstring) : ThemeColors :=
  let primary := brandOrDefault "primary" in
  let secondary := brandOrDefault "secondary" in
  let accent := brandOrDefault "accent" in
  if themeIs theme "light" || themeIs theme "minimal" then
    {| background := brandOrDefault "background_light";
       text := brandOrDefault "text_dark";
       primary := primary; secondary := secondary; accent := accent |}
  else if themeIs theme "bold" then
    {| background := brandOrDefault "primary";
       text := defaults "text_light";
       primary := primary; secondary := secondary; accent := accent |}
  else
    {| background := brandOrDefault "background_dark";
       text := brandOrDefault "text_light";
       primary := primary; secondary := secondary; accent := accent |}.

(** [createBackground]: the frame after the call. *)
Definition createBackground (frame : Node) (theme : option jsstring) : Node :=
  let colors := getThemeColors theme in
  if themeIs theme "gradient" then
    let primaryColor := hexToRgb (primary colors) in
    let secondaryColor := hexToRgb (secondary colors) in
    with_props
      (set_fills
         [ GRADIENT_LINEAR
             [ [0.7%float; 0.7%float; 0%float];
               [(-0.7)%float; 0.7%float; 0.3%float] ]
             [ {| position := 0%float; color := primaryColor; a := 1%float |};
               {| position := 1%float; color := secondaryColor;
                  a := 1%float |} ] ])
      frame
  else
    let bgColor := hexToRgb (background colors) in
    with_props (set_fills [SOLID bgColor]) frame.

End Engine.

End AssetEngine.


(* ================================================================= *)
(** * test-runner: running the suites *)

Module TestRunner.

(** What a test threw: an [Error] with its message, or any other value. *)
Inductive Thrown : Type :=
| ErrorObject (message : jsstring)
| OtherValue.

Module TestResult.
Record t : Type := {
  name : jsstring;
  passed : bool;
  duration : Z;
  error : option jsstring
}.
End TestResult.

Module TestSuiteResult.
Record t : Type := {
  name : jsstring;
  tests : list TestResult.t;
  passed : bool;
  passedCount : nat;
  totalCount : nat
}.
End TestSuiteResult.

Module TestRunResult.
Record t : Type := {
  passed : bool;
  passedCount : nat;
  totalCount : nat;
  duration : Z;
  suites : list TestSuiteResult.t;
  timestamp : Z
}.
End TestRunResult.

Section Runner.
(** The state of the host, and the clock: [Date_now] gives the reading of
    [Date.now()] (and of [new Date()]) and the state after it. *)
Variable World : Type.
Variable Date_now : World -> Z * World.

(** A test: it returns, or throws, and leaves a state. *)
Definition TestFunction : Type := World -> option Thrown * World.

(** A [Map] from names: its entries in the order of insertion. *)
Definition Tests : Type := list (jsstring * TestFunction).

Fixpoint Map_get {V : Type} (entries : list (jsstring * V)) (key : jsstring)
  : option V :=
  match entries with
  | [] => None
  | (k, v) :: rest => if eqb k key then Some v else Map_get rest key
  end.

Definition runTest (name : jsstring) (fn : TestFunction) (w : World)
  : TestResult.t * World :=
  let (startTime, w) := Date_now w in
  let (thrown, w) := fn w in
  let (finish, w) := Date_now w in
  match thrown with
  | None =>
      ({| TestResult.name := name; TestResult.passed := true;
          TestResult.duration := finish - startTime;
          TestResult.error := None |}, w)
  | Some error =>
      ({| TestResult.name := name; TestResult.passed := false;
          TestResult.duration := finish - startTime;
          TestResult.error :=
            Some match error with
                 | ErrorObject message => message
                 | OtherValue => lit "Unknown error"
                 end |}, w)
  end.

(** The loop of [runSuite] over the tests. *)
Fixpoint runTests (suiteTests : Tests) (w : World)
  : list TestResult.t * World :=
  match suiteTests with
  | [] => ([], w)
  | (testName, testFn) :: rest =>
      let (result, w) := runTest testName testFn w in
      let (results, w) := runTests rest w in
      (result :: results, w)
  end.

Definition runSuite (registered : list (jsstring * Tests))
  (suiteName : jsstring) (tests : option Tests) (w : World)
  : TestSuiteResult.t * World :=
  let suiteTests :=
    match tests with
    | Some given => Some given
    | None => Map_get registered suiteName
    end in
  match suiteTests with
  | None =>
      ({| TestSuiteResult.name := suiteName; TestSuiteResult.tests := [];
          TestSuiteResult.passed := false;
          TestSuiteResult.passedCount := 0;
          TestSuiteResult.totalCount := 0 |}, w)
  | Some suiteTests =>
      let (results, w) := runTests suiteTests w in
      let passedCount := List.length (filter TestResult.passed results) in
      ({| TestSuiteResult.name := suiteName;
          TestSuiteResult.tests := results;
          TestSuiteResult.passed :=
            Nat.eqb passedCount (List.length results);
          TestSuiteResult.passedCount := passedCount;
          TestSuiteResult.totalCount := List.length results |}, w)
  end.

(** The loop of [runAll] over the suites. *)
Fixpoint runSuites (registered remaining : list (jsstring * Tests))
  (w : World) : list TestSuiteResult.t * World :=
  match remaining with
  | [] => ([], w)
  | (suiteName, tests) :: rest =>
      let (suiteResult, w) := runSuite registered suiteName (Some tests) w in
      let (suiteResults, w) := runSuites registered rest w in
      (suiteResult :: suiteResults, w)
  end.

Definition runAll (registered : list (jsstring * Tests)) (w : World)
  : TestRunResult.t * World :=
  let (startTime, w) := Date_now w in
  let (suiteResults, w) := runSuites registered registered w in
  let passedCount :=
    fold_left (fun sum s => (sum + TestSuiteResult.passedCount s)%nat)
              suiteResults 0%nat in
  let totalCount :=
    fold_left (fun sum s => (sum + TestSuiteResult.totalCount s)%nat)
              suiteResults 0%nat in
  let (finish, w) := Date_now w in
  let (timestamp, w) := Date_now w in
  ({| TestRunResult.passed := Nat.eqb passedCount totalCount;
      TestRunResult.passedCount := passedCount;
      TestRunResult.totalCount := totalCount;
      TestRunResult.duration := finish - startTime;
      TestRunResult.suites := suiteResults;
      TestRunResult.timestamp := timestamp |}, w).

End Runner.

End TestRunner.


(* ================================================================= *)
(** * Notions used to state the properties *)

Section TextNotions.
Import TextAnalyzer.

(** The number of headlines of a batch. *)
Definition headlines (l : list AnalyzedText) : nat :=
  List.length (filter isHeadline l).

(** An input without a role, and an input with one. *)
Definition untyped (s : string) : TextInput.t :=
  {| TextInput.text := lit s; TextInput.type := None |}.

Definition typed (s : string) (role : Role) : TextInput.t :=
  {| TextInput.text := lit s; TextInput.type := Some role |}.

(** The batch of the end-to-end example. *)
Definition launch_batch : list TextInput.t :=
  [ untyped "Launch Day Is Here";
    untyped "Join thousands already using it.";
    untyped "Get Started Today";
    untyped "NEW" ].

End TextNotions.

Section ListNotions.
Context {A K : Type}.

(** The list without its first element that satisfies [p]. *)
Fixpoint removeFirst (p : A -> bool) (l : list A) : list A :=
  match l with
  | [] => []
  | x :: t => if p x then t else x :: removeFirst p t
  end.

(** The first element named [layer], when there is one. *)
Definition pick (named : K -> A -> bool) (layer : K) (l : list A) : list A :=
  match find (named layer) l with
  | Some c => [c]
  | None => []
  end.

(** The first element of each name of [order], in the order of [order]. *)
Definition firsts (named : K -> A -> bool) (order : list K) (l : list A)
  : list A :=
  flat_map (fun layer => pick named layer l) order.

(** What is left once these first elements are taken out. *)
Definition rest (named : K -> A -> bool) (order : list K) (l : list A)
  : list A :=
  fold_left (fun l layer => removeFirst (named layer) l) order l.

(** [a] stands somewhere before [b] in [l]. *)
Definition precedes (l : list A) (a b : A) : Prop :=
  exists l1 l2 l3, l = l1 ++ a :: l2 ++ b :: l3.

(** The order a stable sort of [l] produces: by rank, and by place in [l]
    among elements of equal rank. *)
Definition before (rank : A -> Z) (l : list A) (a b : A) : Prop :=
  rank a < rank b \/ (rank a = rank b /\ precedes l a b).

End ListNotions.

Section TreeNotions.
Import Figma LayerManager.

Definition namedNode (layer : jsstring) (n : Node) : bool :=
  eqb (name (props n)) layer.

Definition namedChild (layer : jsstring) (c : Child) : bool :=
  namedNode layer (snd c).

(** What the naming walk does to one child: its subtree is normalised and
    the child itself renamed. *)
Definition normalizeChild {U : UnicodeCase} (child : Node) : Node :=
  let '(mkNode pc ccs) := normalizeLayerNames child in mkNode (rename pc) ccs.

(** The children of a frame, none when it has no such property. *)
Definition childrenOf (frame : Node) : list Node :=
  match children frame with
  | Some cs => cs
  | None => []
  end.

(** The node bears one of the four names of [layerOrder]. *)
Definition inLayerOrder (n : Node) : bool :=
  existsb (fun layer => namedNode layer n) layerOrder.

(** A node with the given id, name and kind, nothing painted yet. *)
Definition plain (i n : string) (t : NodeType) : Props :=
  {| id := lit i; name := lit n; type := t; visible := true; fills := [];
     fontName := FontName (lit "Inter") (lit "Regular");
     width := 1200%float; height := 675%float |}.

(** A frame with one text layer. *)
Definition sample_frame : Node :=
  mkNode (plain "1:1" "Asset Frame" FRAME)
    (Some [ mkNode (plain "1:2" "headline" TEXT) None ]).

End TreeNotions.

Section AuditNotions.
Import AuditEngine.

(** The integer nearest to [a / b], a half going upwards. *)
Definition nearest (a b : Z) : Z := (2 * a + b) / (2 * b).

(** A check of severity [warning] that has not passed. *)
Definition failedWarning (c : AuditCheck.t) : bool :=
  negb (AuditCheck.passed c) && Severity_eqb (AuditCheck.severity c) warning.

End AuditNotions.

Section FeedbackNotions.
Import FeedbackSystem.

(** How often [key] occurs in [keys]. *)
Definition occurrences (key : jsstring) (keys : list jsstring) : nat :=
  List.length (filter (fun k => eqb k key) keys).

(** The place of the first occurrence of [key] in [keys]. *)
Fixpoint firstIndex (key : jsstring) (keys : list jsstring) : nat :=
  match keys with
  | [] => 0
  | k :: others => if eqb k key then 0 else S (firstIndex key others)
  end.

(** The keys of [keys] that are not in [seen], each once, in the order of
    their first occurrences. *)
Fixpoint distinct (seen keys : list jsstring) : list jsstring :=
  match keys with
  | [] => []
  | k :: others =>
      if existsb (fun s => eqb s k) seen then distinct seen others
      else k :: distinct (seen ++ [k]) others
  end.

(** The count stored under [key]. *)
Definition stored (key : jsstring) (counter : list (jsstring * nat)) : nat :=
  match find (fun e => eqb (fst e) key) counter with
  | Some e => snd e
  | None => 0
  end.

(** The issue keys of the entries, in the order the loops meet them. *)
Definition issueKeys (entries : list FeedbackEntry) : list jsstring :=
  flat_map (fun f => map issueKey (issues f)) entries.

(** The counter after the keys were counted one by one. *)
Definition tally (keys : list jsstring) (counter : list (jsstring * nat))
  : list (jsstring * nat) :=
  fold_left (fun c k => bump k c) keys counter.


(** A log of four reviews; the first one is older than the others by a
    hundred days. *)
Definition sample_issue (c d : string) : FeedbackIssue :=
  {| category := lit c; severity := lit "minor"; description := lit d |}.

Definition sample_entry (day : Z) (rating : number)
  (l : list FeedbackIssue) : FeedbackEntry :=
  {| assetId := lit "1:1"; timestamp := Valid (day * msPerDay);
     reviewer := lit "Anonymous";
     ratings := {| overall := rating; brand_alignment := None;
                   visual_appeal := None |};
     issues := l; outcome := Outcome.approved; notes := None |}.

Definition sample_log : list FeedbackEntry :=
  [ sample_entry 0 1%float [sample_issue "color" "dull"];
    sample_entry 100 4%float
      [sample_issue "logo" "small"; sample_issue "color" "off"];
    sample_entry 101 5%float
      [sample_issue "color" "off"; sample_issue "layout" "tight"];
    sample_entry 102 4%float
      [sample_issue "layout" "tight"; sample_issue "logo" "small";
       sample_issue "other" "typo"] ].

End FeedbackNotions.


Section MoreTextNotions.
Import TextAnalyzer.

(** The fields of a result that describe its text agree with the text. *)
Definition describesText {U : UnicodeCase} (r : AnalyzedText) : Prop :=
  wordCount r = countWords (text r)
  /\ charCount r = List.length (text r)
  /\ hasAction r = hasActionWord (text r)
  /\ isPunctated r = hasPunctuation (text r).


(** A string without white space at its start. *)
Definition startsClean (s : jsstring) : bool :=
  match s with
  | [] => true
  | c :: _ => negb (is_whitespace c)
  end.

End MoreTextNotions.


Section MoreTreeNotions.
Import Figma LayerManager.

(** The nodes of a tree in pre-order: a node before its children, the
    children from the first to the last. *)
Fixpoint preorder (n : Node) : list Node :=
  match n with
  | mkNode p cs =>
      n :: match cs with
           | None => []
           | Some l => flat_map preorder l
           end
  end.

Definition isText (n : Node) : bool := NodeType_eqb (type (props n)) TEXT.

(** The properties of a node with the name blanked out. *)
Definition unnamed (n : Node) : Props := set_name [] (props n).

(** Some direct child of the node bears the name. *)
Definition hasChildNamed (layer : jsstring) (node : Node) : Prop :=
  exists c, In c (childrenOf node) /\ name (props c) = layer.

(** The names [getNormalizedName] gives to text nodes and to containers. *)
Definition textNames : list jsstring :=
  [ LAYER_NAMES.headline; LAYER_NAMES.subhead; LAYER_NAMES.body;
    LAYER_NAMES.cta; LAYER_NAMES.tag ].

Definition containerNames : list jsstring :=
  [ LAYER_NAMES.content; LAYER_NAMES.branding; LAYER_NAMES.decorative;
    LAYER_NAMES.background ].

End MoreTreeNotions.


Section PaintNotions.
Import Figma.

(** The tree with every fill removed and every node visible: what is left
    when paint and visibility are put aside. *)
Fixpoint unpainted (n : Node) : Node :=
  match n with
  | mkNode p cs =>
      mkNode (set_visible true (set_fills [] p))
             (option_map (map unpainted) cs)
  end.

End PaintNotions.


Section RegexNotions.

(** The strings made of non-empty pieces taken from [L]. *)
Inductive star_lang (L : jsstring -> Prop) : jsstring -> Prop :=
| star_nil : star_lang L []
| star_app (s1 s2 : jsstring) :
    L s1 -> s1 <> [] -> star_lang L s2 -> star_lang L (s1 ++ s2).

(** A unit of the input meets a character of the pattern. *)
Definition unit_matches (ignoreCase : bool) (a c : N) : bool :=
  if ignoreCase then N.eqb (canonicalize a) (canonicalize c) else N.eqb a c.

(** The strings a regular expression stands for. *)
Fixpoint lang (ignoreCase : bool) (r : regex) (s : jsstring) : Prop :=
  match r with
  | Eps => s = []
  | Chr c => exists a, s = [a] /\ unit_matches ignoreCase a c = true
  | Cls p => exists a, s = [a] /\ p a = true
  | Alt r1 r2 => lang ignoreCase r1 s \/ lang ignoreCase r2 s
  | Cat r1 r2 =>
      exists s1 s2, s = s1 ++ s2
                    /\ lang ignoreCase r1 s1 /\ lang ignoreCase r2 s2
  | Star r1 => star_lang (lang ignoreCase r1) s
  | Void => False
  end.

(** Six hexadecimal digits. *)
Definition sixHexDigits (s : jsstring) : Prop :=
  exists r1 r2 g1 g2 b1 b2,
    s = [r1; r2; g1; g2; b1; b2]
    /\ forallb ThemeEngine.hexDigit s = true.

End RegexNotions.


Section ConfigNotions.
Import BrandConfigLoader.

(** The brand has a name that is not empty. *)
Definition hasBrandName (config : Config) : Prop :=
  exists b n, brand config = Some b /\ name b = Some n /\ n <> [].

(** The palette holds a colour of a valid format under each of the seven
    required fields. *)
Definition hasValidColors (config : Config) : Prop :=
  exists palette,
    colors config = Some palette
    /\ forall field, In field colorFields ->
         exists color, Obj.own palette field = Some color
                       /\ isValidColor color = true.

(** A run of white space, a run of digits that is not empty, and a run
    of digits and dots that is not empty. *)
Definition blank (s : jsstring) : Prop := forallb is_whitespace s = true.

Definition numeral (s : jsstring) : Prop :=
  s <> [] /\ forallb digit s = true.

Definition fraction (s : jsstring) : Prop :=
  s <> [] /\ forallb (fun c => digit c || N.eqb c 46) s = true.

(** The functional form of a colour: [rgb] or [rgba], then in brackets
    three numerals between commas, each with white space around it, and
    possibly a fourth part of digits and dots, with white space before it
    only behind the comma. *)
Definition rgbForm (color : jsstring) : Prop :=
  exists a s1 red s2 s3 green s4 s5 blue opacity s6,
    color = lit "rgb" ++ a ++ lit "(" ++ (s1 ++ red ++ s2) ++ lit ","
            ++ (s3 ++ green ++ s4) ++ lit "," ++ s5 ++ blue
            ++ opacity ++ s6 ++ lit ")"
    /\ (a = [] \/ a = lit "a")
    /\ blank s1 /\ numeral red /\ blank s2
    /\ blank s3 /\ numeral green /\ blank s4
    /\ blank s5 /\ numeral blue
    /\ (opacity = []
        \/ exists s7 value,
             opacity = lit "," ++ s7 ++ value /\ blank s7 /\ fraction value)
    /\ blank s6.

(** The same configuration with another logo section. *)
Definition withLogo (l : option LogoConfig) (config : Config) : Config :=
  {| brand := brand config; colors := colors config;
     typography := typography config; logo := l |}.

End ConfigNotions.


Section MoreAuditNotions.
Import Figma AuditEngine.

(** Every text layer with a single font uses an allowed family. *)
Definition fontsApproved (brandConfig : option Brand.BrandConfig)
  (frame : Node) : Prop :=
  forall text family style,
    In text (LayerManager.getTextLayers frame) ->
    fontName (props text) = FontName family style ->
    In family (allowedFonts brandConfig).

(** The frame is at least 600 wide and 200 high, as [<] sees it. *)
Definition largeEnough (frame : Node) : Prop :=
  PrimFloat.ltb (width (props frame)) 600%float = false
  /\ PrimFloat.ltb (height (props frame)) 200%float = false.

End MoreAuditNotions.


Section LayerNotions.
Import Figma.

(** The layers of a tree: the properties of its nodes, in pre-order. *)
Definition layers (n : Node) : list Props := map props (preorder n).

(** A text layer that is not named cta. *)
Definition plainText (p : Props) : bool :=
  NodeType_eqb (type p) TEXT && negb (eqb (name p) LAYER_NAMES.cta).

(** The first layer named cta, if there is one. *)
Definition firstCta (l : list Props) : option Props :=
  find (fun p => eqb (name p) LAYER_NAMES.cta) l.

(** What the loop over the text layers does to one layer. *)
Definition paintProps (c : RGB) (p : Props) : Props :=
  if plainText p then set_fills [SOLID c] p else p.

(** What the accent step does to the layer it finds. *)
Definition accentProps (c : RGB) (p : Props) : Props :=
  if NodeType_eqb (type p) TEXT then set_fills [SOLID c] p else p.

End LayerNotions.


Section ColourNotions.

(** A colour in the form both engines read: six hexadecimal digits, with
    or without a hash sign in front. *)
Definition sixDigitColour (hex : jsstring) : Prop :=
  exists digits, sixHexDigits digits
                 /\ (hex = digits \/ hex = 35%N :: digits).

(** Every colour the palette of the brand holds is in that form. *)
Definition sixDigitPalette (brandConfig : option Brand.BrandConfig) : Prop :=
  forall key hex,
    Obj.own (AssetEngine.brandColors brandConfig) key = Some hex ->
    sixDigitColour hex.

(** The themes with a plain background, each with the key of the palette
    its background is read from. *)
Definition backgroundKeys : list (string * string) :=
  [ ("dark", "background_dark"); ("light", "background_light");
    ("bold", "primary"); ("minimal", "background_light") ].

End ColourNotions.


Section RunnerNotions.
Import TestRunner.

(** All the test results of a run, suite after suite. *)
Definition allResults (run : TestRunResult.t) : list TestResult.t :=
  flat_map TestSuiteResult.tests (TestRunResult.suites run).

Definition allPassed (results : list TestResult.t) : Prop :=
  Forall (fun r => TestResult.passed r = true) results.

End RunnerNotions.


(* ================================================================= *)
(** * Properties *)

(** ** Strings and sorting *)

Lemma eqb_eq (a b : jsstring) : eqb a b = true <-> a = b.
Proof.
  revert b; induction a as [|x a IH]; intros [|y b]; simpl;
    try (split; congruence).
  rewrite andb_true_iff, N.eqb_eq, IH.
  split; [intros [-> ->]; reflexivity | intros [= -> ->]; auto].
Qed.

Lemma eqb_refl (a : jsstring) : eqb a a = true.
Proof. apply eqb_eq; reflexivity. Qed.

Lemma eqb_neq (a b : jsstring) : eqb a b = false <-> a <> b.
Proof.
  rewrite <- eqb_eq. destruct (eqb a b); split; congruence.
Qed.

Lemma forallb_trimStart (p : N -> bool) (s : jsstring) :
  forallb p s = true -> forallb p (trimStart s) = true.
Proof.
  induction s as [|c s IH]; simpl; auto.
  intros H. destruct (is_whitespace c); auto.
  apply andb_true_iff in H. apply IH, H.
Qed.

Lemma forallb_rev {A : Type} (p : A -> bool) (s : list A) :
  forallb p s = true -> forallb p (rev s) = true.
Proof.
  rewrite !forallb_forall. intros H x Hx. apply H, in_rev, Hx.
Qed.

Lemma forallb_trim (p : N -> bool) (s : jsstring) :
  forallb p s = true -> forallb p (trim s) = true.
Proof.
  intros H. unfold trim.
  auto using forallb_rev, forallb_trimStart.
Qed.

Lemma trimStart_whitespace (s : jsstring) :
  forallb is_whitespace s = true -> trimStart s = [].
Proof.
  induction s as [|c s IH]; simpl; auto.
  intros H. apply andb_true_iff in H. destruct H as [-> H]. auto.
Qed.

Lemma trim_whitespace (s : jsstring) :
  forallb is_whitespace s = true -> trim s = [].
Proof.
  intros H. unfold trim. rewrite (trimStart_whitespace s H). reflexivity.
Qed.

Section SortFacts.
Context {A : Type} (compare : A -> A -> Z).

Lemma insert_perm (x : A) (l : list A) :
  Permutation (insert compare x l) (x :: l).
Proof.
  induction l as [|y t IH]; simpl; auto.
  destruct (compare x y <=? 0); auto.
  rewrite IH. apply perm_swap.
Qed.

Lemma sort_perm (l : list A) : Permutation (sort compare l) l.
Proof.
  induction l as [|x l IH]; simpl; auto.
  rewrite insert_perm. auto.
Qed.

Lemma filter_perm_length (p : A -> bool) (l l' : list A) :
  Permutation l l' ->
  List.length (filter p l) = List.length (filter p l').
Proof.
  induction 1; simpl; auto.
  - destruct (p x); simpl; auto.
  - destruct (p x), (p y); simpl; auto.
  - congruence.
Qed.

End SortFacts.

(* ================================================================= *)
(** ** TextAnalyzer *)

Section TextAnalyzerFacts.
Import TextAnalyzer.

Lemma isHeadline_retype (t : Role) (f : number) (r : AnalyzedText) :
  isHeadline (retype t f r) = Role_eqb t headline.
Proof. reflexivity. Qed.

Lemma demoteLater_true_headlines (l : list AnalyzedText) :
  headlines (demoteLater true l) = 0%nat.
Proof.
  unfold headlines.
  induction l as [|r l IH]; simpl; auto.
  destruct (isHeadline r) eqn:E; simpl.
  - exact IH.
  - rewrite E. exact IH.
Qed.

Lemma demoteLater_false_headlines (l : list AnalyzedText) :
  (headlines (demoteLater false l) <= 1)%nat.
Proof.
  unfold headlines.
  induction l as [|r l IH]; simpl; auto.
  destruct (isHeadline r) eqn:E; simpl; rewrite E; simpl.
  - pose proof (demoteLater_true_headlines l) as H.
    unfold headlines in H. rewrite H. lia.
  - exact IH.
Qed.

Lemma promoteFirst_headlines (l : list AnalyzedText) :
  (headlines (promoteFirst l) <= S (headlines l))%nat.
Proof.
  unfold headlines.
  induction l as [|r l IH]; simpl; auto.
  destruct (isCandidate r); simpl.
  - destruct (isHeadline r); simpl; lia.
  - destruct (isHeadline r); simpl; lia.
Qed.

Lemma adjust_headlines (l : list AnalyzedText) :
  (headlines (adjust l) <= 1)%nat.
Proof.
  unfold adjust.
  destruct (Nat.ltb 1 (List.length (filter isHeadline l))) eqn:Hmany.
  - apply Nat.ltb_lt in Hmany.
    replace (Nat.eqb (List.length (filter isHeadline l)) 0) with false
      by (symmetry; apply Nat.eqb_neq; lia).
    simpl. apply demoteLater_false_headlines.
  - apply Nat.ltb_ge in Hmany.
    destruct (Nat.eqb (List.length (filter isHeadline l)) 0) eqn:Hnone; simpl.
    + apply Nat.eqb_eq in Hnone.
      destruct (Nat.ltb 0 (List.length l)).
      * pose proof (promoteFirst_headlines l) as H.
        unfold headlines in *. lia.
      * unfold headlines. lia.
    + exact Hmany.
Qed.

Lemma ensureHierarchy_headlines (l : list AnalyzedText) :
  (headlines (ensureHierarchy l) <= 1)%nat.
Proof.
  unfold headlines, ensureHierarchy.
  rewrite (filter_perm_length isHeadline _ _ (sort_perm byTypeOrder (adjust l))).
  apply adjust_headlines.
Qed.

(** A batch with exactly one headline is left as it is. *)
Lemma adjust_one_headline (l : list AnalyzedText) :
  headlines l = 1%nat -> adjust l = l.
Proof.
  intros H. unfold adjust. fold (headlines l). rewrite H. reflexivity.
Qed.

(** What the demoting loop does to the item at place [n]: a headline
    becomes a subhead exactly when a headline was met before it. *)
Lemma demoteLater_at (l : list AnalyzedText) (found : bool) (n : nat)
  (r : AnalyzedText) :
  nth_error l n = Some r ->
  nth_error (demoteLater found l) n
  = Some (if isHeadline r && (found || existsb isHeadline (firstn n l))
          then retype subhead 0.8%float r else r).
Proof.
  revert found n.
  induction l as [|x l IH]; intros found [|n] H; simpl in *; try discriminate.
  - injection H as ->. rewrite orb_false_r.
    destruct (isHeadline r), found; reflexivity.
  - destruct (isHeadline x); simpl.
    + rewrite (IH true n H). rewrite orb_true_r. reflexivity.
    + rewrite (IH found n H). reflexivity.
Qed.

(** What the promotion does to the item at place [n]: it becomes the
    headline exactly when it is the first candidate. *)
Lemma promoteFirst_at (l : list AnalyzedText) (n : nat) (r : AnalyzedText) :
  nth_error l n = Some r ->
  nth_error (promoteFirst l) n
  = Some (if isCandidate r && negb (existsb isCandidate (firstn n l))
          then retype headline 0.7%float r else r).
Proof.
  revert n.
  induction l as [|x l IH]; intros [|n] H; simpl in *; try discriminate.
  - injection H as ->. rewrite andb_true_r.
    destruct (isCandidate r); reflexivity.
  - destruct (isCandidate x); simpl.
    + rewrite andb_false_r. exact H.
    + apply IH, H.
Qed.

Lemma headlines_app (l1 l2 : list AnalyzedText) :
  headlines (l1 ++ l2) = (headlines l1 + headlines l2)%nat.
Proof. unfold headlines. rewrite filter_app, length_app. reflexivity. Qed.

Lemma existsb_headlines (l : list AnalyzedText) :
  existsb isHeadline l = true <-> (1 <= headlines l)%nat.
Proof.
  unfold headlines. induction l as [|x l IH]; simpl.
  - split; [discriminate | lia].
  - destruct (isHeadline x); simpl; [split; auto; lia | exact IH].
Qed.

Lemma nth_error_parts {A : Type} (l : list A) (n : nat) (x : A) :
  nth_error l n = Some x -> l = firstn n l ++ x :: skipn (S n) l.
Proof.
  revert n. induction l as [|y l IH]; intros [|n] H; simpl in *;
    try discriminate.
  - injection H as ->. reflexivity.
  - f_equal. apply IH, H.
Qed.

(** A headline that stands behind another one is one of several. *)
Lemma headline_behind_headline (l : list AnalyzedText) (n : nat)
  (r : AnalyzedText) :
  nth_error l n = Some r ->
  isHeadline r = true ->
  existsb isHeadline (firstn n l) = true ->
  (2 <= headlines l)%nat.
Proof.
  intros Hn Hr He. apply existsb_headlines in He.
  rewrite (nth_error_parts l n r Hn), headlines_app.
  change (r :: skipn (S n) l) with ([r] ++ skipn (S n) l).
  rewrite headlines_app. unfold headlines at 2. simpl. rewrite Hr. simpl. lia.
Qed.

(** The reconciliation, item by item: the item at place [n] becomes a
    subhead when it is a headline and a headline stands before it; it
    becomes the headline when the batch has no headline and it is the
    first candidate; and it is left as it is in every other case. *)
Lemma adjust_at (l : list AnalyzedText) (n : nat) (r : AnalyzedText) :
  nth_error l n = Some r ->
  nth_error (adjust l) n
  = Some (if isHeadline r && existsb isHeadline (firstn n l)
          then retype subhead 0.8%float r
          else if Nat.eqb (headlines l) 0 && isCandidate r
                  && negb (existsb isCandidate (firstn n l))
               then retype headline 0.7%float r
               else r).
Proof.
  intros H. unfold adjust. fold (headlines l).
  destruct (Nat.ltb 1 (headlines l)) eqn:Hmany.
  - apply Nat.ltb_lt in Hmany.
    replace (Nat.eqb (headlines l) 0) with false
      by (symmetry; apply Nat.eqb_neq; lia).
    cbn [andb]. rewrite (demoteLater_at l false n r H). cbn [orb].
    reflexivity.
  - apply Nat.ltb_ge in Hmany.
    assert (Hfirst : isHeadline r && existsb isHeadline (firstn n l) = false).
    { destruct (isHeadline r) eqn:Hr; [|reflexivity].
      destruct (existsb isHeadline (firstn n l)) eqn:He; [|reflexivity].
      pose proof (headline_behind_headline l n r H Hr He). lia. }
    rewrite Hfirst.
    destruct (Nat.eqb (headlines l) 0) eqn:Hnone; cbn [andb]; [|exact H].
    assert (Hlen : Nat.ltb 0 (List.length l) = true).
    { apply Nat.ltb_lt. destruct l; [destruct n; discriminate | simpl; lia]. }
    rewrite Hlen. apply promoteFirst_at, H.
Qed.

End TextAnalyzerFacts.

Section TextAnalyzerClaims.
Import TextAnalyzer.

(** On a text of Basic Latin units the result does not depend on the
    case tables of the host. *)
Lemma analyzeInput_ascii (U : UnicodeCase) (input : TextInput.t) :
  forallb is_ascii (TextInput.text input) = true ->
  @analyzeInput U input = @analyzeInput BasicLatin input.
Proof.
  intros H.
  unfold analyzeInput, detectType, hasActionWord, isTag.
  rewrite (@toLowerCase_ascii U) by exact H.
  rewrite (@toUpperCase_ascii U) by (apply forallb_trim; exact H).
  reflexivity.
Qed.

Lemma analyze_ascii (U : UnicodeCase) (inputs : list TextInput.t) :
  forallb (fun input => forallb is_ascii (TextInput.text input)) inputs = true ->
  @analyze U inputs = @analyze BasicLatin inputs.
Proof.
  intros H. unfold analyze. f_equal.
  apply map_ext_in. intros input Hin.
  apply analyzeInput_ascii.
  rewrite forallb_forall in H. apply H, Hin.
Qed.

Lemma map_analyzeInput_ascii (U : UnicodeCase) (inputs : list TextInput.t) :
  forallb (fun input => forallb is_ascii (TextInput.text input)) inputs = true ->
  map (@analyzeInput U) inputs = map (@analyzeInput BasicLatin) inputs.
Proof.
  intros H. apply map_ext_in. intros input Hin.
  apply analyzeInput_ascii.
  rewrite forallb_forall in H. apply H, Hin.
Qed.

(** C1.  For every non-empty batch of inputs in which not every input
    carries an explicit role, the output of [analyze] holds at most one
    item with role [headline]. *)
Theorem analyze_at_most_one_headline (U : UnicodeCase)
  (inputs : list TextInput.t) :
  inputs <> [] ->
  ~ Forall (fun input => TextInput.type input <> None) inputs ->
  (headlines (analyze inputs) <= 1)%nat.
Proof.
  intros _ _. unfold analyze. apply ensureHierarchy_headlines.
Qed.

Lemma analyze_at_most_one_headline_witness :
  (headlines
     (@analyze BasicLatin [untyped "Big News"; untyped "More News"]) <= 1)%nat.
Proof.
  apply analyze_at_most_one_headline.
  - discriminate.
  - intros H. inversion H as [|? ? Hhead Htail]. apply Hhead. reflexivity.
Defined.

(** The bound of C1 does not need its side conditions: it holds for every
    batch, explicit roles or not. *)
Lemma analyze_headlines_any_batch (U : UnicodeCase) (inputs : list TextInput.t) :
  (headlines (analyze inputs) <= 1)%nat.
Proof. unfold analyze. apply ensureHierarchy_headlines. Qed.

(** C2, as stated, fails: of two inputs with the explicit role [headline]
    the second comes out as a subhead, so no output item with its text has
    its explicit role. *)
Lemma explicit_role_not_always_kept :
  ~ (forall (U : UnicodeCase) (inputs : list TextInput.t)
            (input : TextInput.t) (explicit : Role),
        In input inputs ->
        TextInput.type input = Some explicit ->
        exists out, In out (analyze inputs)
                    /\ text out = TextInput.text input
                    /\ type out = explicit
                    /\ confidence out = 1.0%float).
Proof.
  intros claim.
  destruct (claim BasicLatin
              [typed "Alpha" headline; typed "Beta" headline]
              (typed "Beta" headline) headline)
    as (out & Hin & Htext & Htype & _).
  - right; left; reflexivity.
  - reflexivity.
  - vm_compute in Hin.
    destruct Hin as [<-|[<-|[]]]; vm_compute in Htext, Htype; discriminate.
Qed.

(** What [analyze] returns on that batch. *)
Lemma analyze_two_explicit_headlines :
  map (fun out => (text out, type out, confidence out))
      (@analyze BasicLatin [typed "Alpha" headline; typed "Beta" headline])
  = [ (lit "Alpha", headline, 1.0%float);
      (lit "Beta", subhead, 0.8%float) ].
Proof. vm_compute. reflexivity. Qed.

(** C2, amended.  The result computed for an input with an explicit role
    has that role and confidence 1.0 whatever the text is.  The
    reconciliation of the batch then changes it in two cases only.  When
    its role is [headline] and an earlier item of the batch is a headline
    too, it becomes a subhead with confidence 0.8; the first headline of
    a batch is kept.  When the batch has no headline at all, and the item
    has at most 15 words and a role other than [cta] and [tag], and no
    earlier item is such a candidate, it becomes the headline with
    confidence 0.7.  In every other case it keeps its role and its
    confidence 1.0: so an explicit [cta] or [tag] is always kept, and
    every explicit role is kept in a batch with exactly one headline.
    The output holds the reconciled item, with the text of the input. *)
Theorem explicit_role_through_analyze (U : UnicodeCase)
  (inputs : list TextInput.t) (n : nat) (input : TextInput.t)
  (explicit : Role) :
  nth_error inputs n = Some input ->
  TextInput.type input = Some explicit ->
  let results := map analyzeInput inputs in
  let earlier := firstn n results in
  let demoted :=
    Role_eqb explicit headline && existsb isHeadline earlier in
  let promoted :=
    Nat.eqb (headlines results) 0
    && Nat.leb (countWords (TextInput.text input)) 15
    && negb (Role_eqb explicit cta) && negb (Role_eqb explicit tag)
    && negb (existsb isCandidate earlier) in
  exists r out,
    nth_error results n = Some r
    /\ text r = TextInput.text input
    /\ type r = explicit
    /\ confidence r = 1.0%float
    /\ nth_error (adjust results) n = Some out
    /\ In out (analyze inputs)
    /\ out = (if demoted then retype subhead 0.8%float r
              else if promoted then retype headline 0.7%float r
              else r)
    /\ (type out, confidence out)
       = (if demoted then (subhead, 0.8%float)
          else if promoted then (headline, 0.7%float)
          else (explicit, 1.0%float))
    /\ text out = TextInput.text input
    /\ (explicit = cta \/ explicit = tag \/ headlines results = 1%nat ->
        out = r)
    /\ (explicit = headline -> existsb isHeadline earlier = false ->
        out = r).
Proof.
  intros Hn Hexp results earlier demoted promoted.
  assert (Hr : nth_error results n = Some (analyzeInput input)).
  { unfold results. rewrite nth_error_map, Hn. reflexivity. }
  assert (Hfields : text (analyzeInput input) = TextInput.text input
                    /\ type (analyzeInput input) = explicit
                    /\ wordCount (analyzeInput input)
                       = countWords (TextInput.text input)
                    /\ confidence (analyzeInput input) = 1.0%float).
  { unfold analyzeInput. rewrite Hexp. simpl. auto. }
  destruct Hfields as (Htext & Htype & Hwords & Hconf).
  pose proof (adjust_at results n _ Hr) as Hout.
  assert (Hdemoted : isHeadline (analyzeInput input)
                     && existsb isHeadline (firstn n results) = demoted).
  { unfold demoted, earlier, isHeadline. rewrite Htype. reflexivity. }
  assert (Hpromoted : Nat.eqb (headlines results) 0
                      && isCandidate (analyzeInput input)
                      && negb (existsb isCandidate (firstn n results))
                      = promoted).
  { unfold promoted, earlier, isCandidate. rewrite Htype, Hwords.
    rewrite !andb_assoc. reflexivity. }
  rewrite Hdemoted, Hpromoted in Hout.
  set (r := analyzeInput input) in *.
  set (out := if demoted then retype subhead 0.8%float r
              else if promoted then retype headline 0.7%float r
              else r) in *.
  exists r, out.
  split; [exact Hr|]. split; [exact Htext|]. split; [exact Htype|].
  split; [exact Hconf|]. split; [exact Hout|].
  split.
  { unfold analyze, ensureHierarchy. fold results.
    apply (Permutation_in _ (Permutation_sym (sort_perm byTypeOrder _))).
    eapply nth_error_In; exact Hout. }
  split; [reflexivity|].
  split.
  { unfold out. destruct demoted; [|destruct promoted].
    - cbn [retype type confidence]. rewrite Hconf. reflexivity.
    - cbn [retype type confidence]. rewrite Hconf. reflexivity.
    - rewrite Htype, Hconf. reflexivity. }
  split.
  { unfold out. destruct demoted; [|destruct promoted]; exact Htext. }
  split.
  - intros Hkeep. unfold out.
    assert (Hd : demoted = false).
    { unfold demoted.
      destruct (Role_eqb explicit headline) eqn:Eh; [|reflexivity].
      destruct (existsb isHeadline earlier) eqn:Ee; [|reflexivity].
      exfalso.
      assert (Hhead : isHeadline r = true)
        by (unfold isHeadline; rewrite Htype; exact Eh).
      pose proof (headline_behind_headline results n r Hr Hhead Ee) as Htwo.
      destruct Hkeep as [He|[He|He]];
        [rewrite He in Eh; discriminate
        |rewrite He in Eh; discriminate | lia]. }
    rewrite Hd.
    assert (Hp : promoted = false).
    { unfold promoted.
      destruct Hkeep as [He|[He|He]].
      - rewrite He. cbn [Role_eqb negb]. rewrite andb_false_r. reflexivity.
      - rewrite He. cbn [Role_eqb negb]. rewrite andb_false_r. reflexivity.
      - rewrite He. reflexivity. }
    rewrite Hp. reflexivity.
  - intros Hhead Hnone. unfold out.
    assert (Hd : demoted = false).
    { unfold demoted. rewrite Hnone. apply andb_false_r. }
    rewrite Hd.
    assert (Hp : promoted = false).
    { unfold promoted.
      assert (Hone : (1 <= headlines results)%nat).
      { rewrite (nth_error_parts results n r Hr), headlines_app.
        change (r :: skipn (S n) results)
          with ([r] ++ skipn (S n) results).
        rewrite headlines_app. unfold headlines at 2. simpl.
        unfold isHeadline. rewrite Htype, Hhead. simpl. lia. }
      destruct (Nat.eqb (headlines results) 0) eqn:E; [|reflexivity].
      apply Nat.eqb_eq in E. lia. }
    rewrite Hp. reflexivity.
Qed.

Lemma explicit_role_through_analyze_witness :
  let inputs := [typed "Alpha" headline; typed "Beta" headline] in
  let results := map (@analyzeInput BasicLatin) inputs in
  let earlier := firstn 1 results in
  let demoted :=
    Role_eqb headline headline && existsb isHeadline earlier in
  let promoted :=
    Nat.eqb (headlines results) 0
    && Nat.leb (@countWords (lit "Beta")) 15
    && negb (Role_eqb headline cta) && negb (Role_eqb headline tag)
    && negb (existsb isCandidate earlier) in
  exists r out,
    nth_error results 1 = Some r
    /\ text r = lit "Beta"
    /\ type r = headline
    /\ confidence r = 1.0%float
    /\ nth_error (adjust results) 1 = Some out
    /\ In out (@analyze BasicLatin inputs)
    /\ out = (if demoted then retype subhead 0.8%float r
              else if promoted then retype headline 0.7%float r
              else r)
    /\ (type out, confidence out)
       = (if demoted then (subhead, 0.8%float)
          else if promoted then (headline, 0.7%float)
          else (headline, 1.0%float))
    /\ text out = lit "Beta"
    /\ (headline = cta \/ headline = tag \/ headlines results = 1%nat ->
        out = r)
    /\ (headline = headline -> existsb isHeadline earlier = false ->
        out = r).
Proof.
  exact (explicit_role_through_analyze BasicLatin
           [typed "Alpha" headline; typed "Beta" headline] 1
           (typed "Beta" headline) headline eq_refl eq_refl).
Defined.

(** On the batch of two explicit headlines the first one is kept as it
    is and the second one becomes a subhead with confidence 0.8; on a
    batch of two explicit subheads the first one becomes the headline
    with confidence 0.7 and the second one is kept. *)
Lemma explicit_roles_reconciled :
  map (fun out => (text out, type out, confidence out))
      (adjust (map (@analyzeInput BasicLatin)
                   [typed "Alpha" headline; typed "Beta" headline]))
  = [ (lit "Alpha", headline, 1.0%float); (lit "Beta", subhead, 0.8%float) ]
  /\ map (fun out => (text out, type out, confidence out))
         (adjust (map (@analyzeInput BasicLatin)
                      [typed "Alpha" subhead; typed "Beta" subhead]))
     = [ (lit "Alpha", headline, 0.7%float); (lit "Beta", subhead, 1.0%float) ].
Proof. split; vm_compute; reflexivity. Qed.

(** C3, as stated, fails: the second text does not come out as [body],
    neither in the order of the inputs nor in the order of the output. *)
Lemma launch_batch_second_not_body :
  map type (adjust (map (@analyzeInput BasicLatin) launch_batch))
    <> [headline; body; cta; tag]
  /\ map type (@analyze BasicLatin launch_batch) <> [headline; body; cta; tag]
  /\ (forall out, In out (@analyze BasicLatin launch_batch) ->
        text out = lit "Join thousands already using it." ->
        type out <> body).
Proof.
  repeat split.
  - vm_compute. discriminate.
  - vm_compute. discriminate.
  - intros out Hin Htext.
    vm_compute in Hin.
    destruct Hin as [<-|[<-|[<-|[<-|[]]]]];
      vm_compute in Htext; vm_compute; discriminate.
Qed.

(** C3, amended.  The four texts get, in the order of the inputs, the
    roles headline, cta, cta, tag: "Join thousands already using it." has
    the action word "join" and five words, so the [cta] rule takes it
    before the length rules are reached.  [analyze] returns them sorted:
    the tag, the headline, then the two calls to action. *)
Theorem launch_batch_roles (U : UnicodeCase) :
  map (fun r => (text r, type r)) (adjust (map analyzeInput launch_batch))
  = [ (lit "Launch Day Is Here", headline);
      (lit "Join thousands already using it.", cta);
      (lit "Get Started Today", cta);
      (lit "NEW", tag) ]
  /\ map (fun r => (text r, type r)) (analyze launch_batch)
     = [ (lit "NEW", tag);
         (lit "Launch Day Is Here", headline);
         (lit "Join thousands already using it.", cta);
         (lit "Get Started Today", cta) ].
Proof.
  rewrite (analyze_ascii U launch_batch) by reflexivity.
  rewrite (map_analyzeInput_ascii U launch_batch) by reflexivity.
  split; vm_compute; reflexivity.
Qed.

(** The classifier gives [tag] exactly when [isTag] holds. *)
Lemma detectType_tag (U : UnicodeCase) (text : jsstring) :
  type (detectType text) = tag <-> isTag text = true.
Proof.
  unfold detectType.
  destruct (isTag text); simpl; [tauto|].
  destruct (hasActionWord text && Nat.leb (countWords text) 5); simpl;
    [split; discriminate|].
  destruct (Nat.leb (countWords text) 10 && negb (hasPunctuation text)); simpl;
    [split; discriminate|].
  destruct (Nat.leb (countWords text) 30); simpl; split; discriminate.
Qed.

(** C4, as stated, fails: "A B C D" is upper-case and seven units long,
    yet it is no tag, because it has four words. *)
Lemma upper_case_branch_has_word_bound :
  ~ (forall (U : UnicodeCase) (text : jsstring),
        type (detectType text) = tag <->
        (existsb (fun pattern => test pattern (trim text)) TAG_PATTERNS = true
         /\ (countWords (trim text) <= 3)%nat)
        \/ ((List.length (trim text) <= 15)%nat
            /\ trim text = toUpperCase (trim text))).
Proof.
  intros claim.
  destruct (claim BasicLatin (lit "A B C D")) as [_ H].
  assert (Htag : type (@detectType BasicLatin (lit "A B C D")) = tag).
  { apply H. right. split.
    - vm_compute. lia.
    - vm_compute. reflexivity. }
  vm_compute in Htag. discriminate.
Qed.

(** C4, amended.  A text without an explicit role gets the role [tag]
    exactly when its trimmed form has at most three words and either
    matches one of the short-label patterns or is at most 15 units long
    and equal to its own upper-casing: the bound on the words comes first
    and holds for both branches. *)
Theorem detectType_tag_iff (U : UnicodeCase) (text : jsstring) :
  type (detectType text) = tag <->
  (countWords (trim text) <= 3)%nat
  /\ (existsb (fun pattern => test pattern (trim text)) TAG_PATTERNS = true
      \/ ((List.length (trim text) <= 15)%nat
          /\ trim text = toUpperCase (trim text))).
Proof.
  rewrite detectType_tag. unfold isTag.
  destruct (Nat.ltb 3 (countWords (trim text))) eqn:Hwords.
  - apply Nat.ltb_lt in Hwords. split; [discriminate | lia].
  - apply Nat.ltb_ge in Hwords.
    destruct (existsb (fun pattern => test pattern (trim text)) TAG_PATTERNS).
    + split; auto.
    + destruct (eqb (trim text) (toUpperCase (trim text))) eqn:Hupper; simpl.
      * apply eqb_eq in Hupper.
        destruct (Nat.leb (List.length (trim text)) 15) eqn:Hlen.
        -- apply Nat.leb_le in Hlen. split; auto.
        -- apply Nat.leb_gt in Hlen.
           split; [discriminate|]. intros [_ [Hp|[Hl _]]]; [discriminate|lia].
      * apply eqb_neq in Hupper.
        split; [discriminate|]. intros [_ [Hp|[_ Hu]]]; [discriminate|tauto].
Qed.

(** C10.  A text that is empty or made of white space only, given without
    an explicit role, is classified as a tag with confidence 0.9 and word
    count 0. *)
Theorem blank_text_is_tag (U : UnicodeCase) (text : jsstring) :
  forallb is_whitespace text = true ->
  let result := analyzeInput {| TextInput.text := text; TextInput.type := None |} in
  type result = tag
  /\ confidence result = 0.9%float
  /\ wordCount result = 0%nat.
Proof.
  intros Hblank. simpl.
  assert (Htrim : trim text = []) by (apply trim_whitespace, Hblank).
  assert (Hwords : countWords text = 0%nat).
  { unfold countWords. rewrite Htrim. reflexivity. }
  assert (Htag : isTag text = true).
  { unfold isTag. rewrite Htrim.
    rewrite (toUpperCase_ascii []) by reflexivity.
    reflexivity. }
  unfold analyzeInput, detectType. simpl.
  rewrite Htag, Hwords. simpl. auto.
Qed.

Lemma blank_text_is_tag_witness :
  let result := @analyzeInput BasicLatin (untyped "   ") in
  type result = tag
  /\ confidence result = 0.9%float
  /\ wordCount result = 0%nat.
Proof.
  exact (blank_text_is_tag BasicLatin (lit "   ") eq_refl).
Defined.

End TextAnalyzerClaims.

(* ================================================================= *)
(** ** Taking the first element of each kind out of a list *)

Section Picking.
Context {A K : Type} (named : K -> A -> bool).
Hypothesis named_disjoint :
  forall a b x, a <> b -> named a x = true -> named b x = false.

Lemma removeFirst_none (p : A -> bool) (l : list A) :
  find p l = None -> removeFirst p l = l.
Proof.
  induction l as [|x t IH]; simpl; auto.
  destruct (p x); [discriminate|]. intros H. f_equal. auto.
Qed.

Lemma removeFirst_In (p : A -> bool) (l : list A) (x : A) :
  In x (removeFirst p l) -> In x l.
Proof.
  induction l as [|y t IH]; simpl; auto.
  destruct (p y); simpl; intuition.
Qed.

Lemma pick_removeFirst_perm (a : K) (l : list A) :
  Permutation (pick named a l ++ removeFirst (named a) l) l.
Proof.
  unfold pick.
  induction l as [|x t IH]; simpl; auto.
  destruct (named a x); simpl; auto.
  destruct (find (named a) t); simpl in *.
  - rewrite perm_swap. auto.
  - auto.
Qed.

Lemma find_removeFirst_other (a b : K) (l : list A) :
  a <> b ->
  find (named b) (removeFirst (named a) l) = find (named b) l.
Proof.
  intros Hab.
  induction l as [|x t IH]; simpl; auto.
  destruct (named a x) eqn:Ea; simpl.
  - rewrite (named_disjoint a b x Hab Ea). reflexivity.
  - rewrite IH. reflexivity.
Qed.

Lemma firsts_removeFirst (a : K) (order : list K) (l : list A) :
  ~ In a order ->
  firsts named order (removeFirst (named a) l) = firsts named order l.
Proof.
  intros Ha. unfold firsts.
  induction order as [|b order IH]; simpl; auto.
  unfold pick at 1 3.
  rewrite find_removeFirst_other by (intros ->; apply Ha; left; reflexivity).
  f_equal. apply IH. intros H. apply Ha. right. exact H.
Qed.

Lemma rest_In (order : list K) (l : list A) (x : A) :
  In x (rest named order l) -> In x l.
Proof.
  unfold rest. revert l.
  induction order as [|a order IH]; simpl; auto.
  intros l H. eapply removeFirst_In, IH, H.
Qed.

Lemma firsts_rest_perm (order : list K) (l : list A) :
  NoDup order -> Permutation (firsts named order l ++ rest named order l) l.
Proof.
  intros Hnd. revert l.
  induction Hnd as [|a order Ha Hnd IH]; intros l; simpl; auto.
  change (Permutation
            ((pick named a l ++ firsts named order l)
               ++ rest named order (removeFirst (named a) l)) l).
  rewrite <- (firsts_removeFirst a order l Ha).
  rewrite <- app_assoc, IH.
  apply pick_removeFirst_perm.
Qed.

Lemma in_firsts (order : list K) (l : list A) (x : A) :
  In x (firsts named order l) ->
  exists b, In b order /\ find (named b) l = Some x.
Proof.
  unfold firsts. rewrite in_flat_map. intros (b & Hb & Hx).
  exists b. split; auto.
  unfold pick in Hx. destruct (find (named b) l); simpl in Hx.
  - destruct Hx as [->|[]]. reflexivity.
  - destruct Hx.
Qed.

Lemma firsts_In (order : list K) (l : list A) (x : A) :
  In x (firsts named order l) -> In x l.
Proof.
  intros H. destruct (in_firsts _ _ _ H) as (b & _ & Hf).
  apply find_some in Hf. tauto.
Qed.

Lemma find_app_skip (p : A -> bool) (l1 l2 : list A) :
  (forall x, In x l1 -> p x = false) -> find p (l1 ++ l2) = find p l2.
Proof.
  induction l1 as [|x t IH]; simpl; auto.
  intros H. rewrite (H x) by auto. apply IH. auto.
Qed.

Lemma find_none_In (p : A -> bool) (l : list A) (x : A) :
  find p l = None -> In x l -> p x = false.
Proof. intros H Hin. exact (find_none p l H x Hin). Qed.

Lemma firsts_not_named (b : K) (order : list K) (l : list A) (x : A) :
  ~ In b order -> In x (firsts named order l) -> named b x = false.
Proof.
  intros Hb Hx.
  destruct (in_firsts _ _ _ Hx) as (c & Hc & Hf).
  apply find_some in Hf. destruct Hf as [_ Hn].
  apply (named_disjoint c b x); auto.
  intros ->. contradiction.
Qed.

(** In front of any list, the first elements are found again first. *)
Lemma find_firsts_app (b : K) (order : list K) (l X : list A) :
  NoDup order -> In b order ->
  find (named b) (firsts named order l ++ X)
  = match find (named b) l with
    | Some c => Some c
    | None => find (named b) X
    end.
Proof.
  intros Hnd. revert b.
  induction Hnd as [|a order Ha Hnd IH]; intros b Hb; [destruct Hb|].
  change (firsts named (a :: order) l) with (pick named a l ++ firsts named order l).
  rewrite <- app_assoc.
  destruct Hb as [->|Hb].
  - unfold pick. destruct (find (named b) l) as [c|] eqn:Hf; simpl.
    + apply find_some in Hf. destruct Hf as [_ ->]. reflexivity.
    + apply find_app_skip. intros x Hx.
      eapply firsts_not_named; eauto.
  - assert (Hab : a <> b) by (intros ->; contradiction).
    rewrite find_app_skip.
    + apply IH, Hb.
    + intros x Hx. unfold pick in Hx.
      destruct (find (named a) l) as [c|] eqn:Hf; simpl in Hx; [|destruct Hx].
      destruct Hx as [->|[]].
      apply find_some in Hf. destruct Hf as [_ Hn].
      apply (named_disjoint a b x); auto.
Qed.

Lemma firsts_idem (order : list K) (l : list A) :
  NoDup order ->
  firsts named order (firsts named order l ++ rest named order l) = firsts named order l.
Proof.
  intros Hnd. unfold firsts at 1.
  change (firsts named order l) with (flat_map (fun layer => pick named layer l) order) at 2.
  rewrite !flat_map_concat_map. f_equal.
  apply map_ext_in. intros b Hb. unfold pick.
  rewrite (find_firsts_app b order l (rest named order l) Hnd Hb).
  destruct (find (named b) l) as [c|] eqn:Hf; auto.
  destruct (find (named b) (rest named order l)) as [c|] eqn:Hr; auto.
  apply find_some in Hr. destruct Hr as [Hin Hn].
  apply rest_In in Hin.
  rewrite (find_none_In _ _ _ Hf Hin) in Hn. discriminate.
Qed.

Lemma rest_firsts_app (order : list K) (l X : list A) :
  NoDup order ->
  (forall b x, In b order -> find (named b) l = None -> In x X ->
               named b x = false) ->
  rest named order (firsts named order l ++ X) = X.
Proof.
  intros Hnd. revert X.
  induction Hnd as [|a order Ha Hnd IH]; intros X HX; [reflexivity|].
  change (firsts named (a :: order) l) with (pick named a l ++ firsts named order l).
  change (rest named (a :: order) ((pick named a l ++ firsts named order l) ++ X))
    with (rest named order
            (removeFirst (named a) ((pick named a l ++ firsts named order l) ++ X))).
  assert (Hstep : removeFirst (named a) ((pick named a l ++ firsts named order l) ++ X)
                  = firsts named order l ++ X).
  { unfold pick. destruct (find (named a) l) as [c|] eqn:Hf; simpl.
    - apply find_some in Hf. destruct Hf as [_ ->]. reflexivity.
    - apply removeFirst_none.
      rewrite find_app_skip.
      + destruct (find (named a) X) as [c|] eqn:Hx; auto.
        apply find_some in Hx. destruct Hx as [Hin Hn].
        rewrite (HX a c (or_introl eq_refl) Hf Hin) in Hn. discriminate.
      + intros x Hx. eapply firsts_not_named; eauto. }
  rewrite Hstep. apply IH.
  intros b x Hb. apply HX. right. exact Hb.
Qed.

Lemma rest_idem (order : list K) (l : list A) :
  NoDup order ->
  rest named order (firsts named order l ++ rest named order l) = rest named order l.
Proof.
  intros Hnd. apply rest_firsts_app; auto.
  intros b x _ Hf Hx. apply rest_In in Hx.
  exact (find_none_In _ _ _ Hf Hx).
Qed.

(** Elements that carry none of the names keep their places relative to
    each other. *)
Lemma filter_removeFirst (p q : A -> bool) (l : list A) :
  (forall x, p x = true -> q x = false) ->
  filter q (removeFirst p l) = filter q l.
Proof.
  intros H.
  induction l as [|x t IH]; simpl; auto.
  destruct (p x) eqn:E; simpl.
  - rewrite (H x E). reflexivity.
  - rewrite IH. reflexivity.
Qed.

Lemma filter_rest (q : A -> bool) (order : list K) (l : list A) :
  (forall b x, In b order -> named b x = true -> q x = false) ->
  filter q (rest named order l) = filter q l.
Proof.
  unfold rest. revert l.
  induction order as [|a order IH]; intros l H; simpl; auto.
  rewrite IH by (intros b x Hb; apply H; right; exact Hb).
  apply filter_removeFirst. intros x. apply H. left; reflexivity.
Qed.

Lemma filter_firsts (q : A -> bool) (order : list K) (l : list A) :
  (forall b x, In b order -> named b x = true -> q x = false) ->
  filter q (firsts named order l) = [].
Proof.
  intros H.
  assert (Hall : forall x, In x (firsts named order l) -> q x = false).
  { intros x Hx. destruct (in_firsts _ _ _ Hx) as (b & Hb & Hf).
    apply find_some in Hf. destruct Hf as [_ Hn]. eapply H; eauto. }
  induction (firsts named order l) as [|x t IH]; simpl; auto.
  rewrite (Hall x) by (left; reflexivity).
  apply IH. intros y Hy. apply Hall. right. exact Hy.
Qed.

(** When each name is borne by one element at most, the first elements
    are all the elements of these names and the rest is everything
    else. *)
Lemma pick_unique (a : K) (l : list A) :
  (List.length (filter (named a) l) <= 1)%nat ->
  pick named a l = filter (named a) l.
Proof.
  unfold pick.
  induction l as [|x t IH]; cbn [filter find]; auto.
  destruct (named a x) eqn:E; cbn [List.length]; intros H.
  - f_equal. destruct (filter (named a) t); [reflexivity | simpl in H; lia].
  - apply IH, H.
Qed.

Lemma removeFirst_unique (a : K) (l : list A) :
  (List.length (filter (named a) l) <= 1)%nat ->
  removeFirst (named a) l = filter (fun x => negb (named a x)) l.
Proof.
  induction l as [|x t IH]; cbn [filter removeFirst]; auto.
  destruct (named a x) eqn:E; cbn [List.length negb]; intros H.
  - symmetry. apply forallb_filter_id.
    apply forallb_forall. intros y Hy. apply negb_true_iff.
    destruct (named a y) eqn:Ey; auto.
    assert (Hin : In y (filter (named a) t)) by (apply filter_In; auto).
    destruct (filter (named a) t); [destruct Hin | simpl in H; lia].
  - f_equal. apply IH, H.
Qed.

Lemma filter_length_filter (p q : A -> bool) (l : list A) :
  (List.length (filter p (filter q l)) <= List.length (filter p l))%nat.
Proof.
  induction l as [|x t IH]; simpl; auto.
  destruct (q x); simpl; destruct (p x); simpl; lia.
Qed.

Lemma firsts_unique (order : list K) (l : list A) :
  (forall a, In a order -> (List.length (filter (named a) l) <= 1)%nat) ->
  firsts named order l = flat_map (fun a => filter (named a) l) order.
Proof.
  intros H. unfold firsts.
  rewrite !flat_map_concat_map. f_equal.
  apply map_ext_in. intros a Ha. apply pick_unique, H, Ha.
Qed.

Lemma rest_unique (order : list K) (l : list A) :
  (forall a, In a order -> (List.length (filter (named a) l) <= 1)%nat) ->
  rest named order l
  = filter (fun x => negb (existsb (fun a => named a x) order)) l.
Proof.
  unfold rest. revert l.
  induction order as [|a order IH]; intros l H; simpl.
  - symmetry. apply forallb_filter_id, forallb_forall. reflexivity.
  - rewrite removeFirst_unique by (apply H; left; reflexivity).
    rewrite IH.
    + clear. induction l as [|x t IHl]; simpl; auto.
      destruct (named a x); simpl; auto.
      destruct (existsb (fun a0 => named a0 x) order); simpl; congruence.
    + intros b Hb.
      etransitivity; [apply filter_length_filter|].
      apply H. right. exact Hb.
Qed.

End Picking.

(* ================================================================= *)
(** ** LayerManager: the order of the children *)

Section OrganizeFacts.
Import Figma LayerManager.

Lemma namedNode_disjoint (a b : jsstring) (x : Node) :
  a <> b -> namedNode a x = true -> namedNode b x = false.
Proof.
  unfold namedNode. intros Hab Ha.
  apply eqb_eq in Ha. apply eqb_neq. congruence.
Qed.

Lemma namedChild_disjoint (a b : jsstring) (x : Child) :
  a <> b -> namedChild a x = true -> namedChild b x = false.
Proof. apply namedNode_disjoint. Qed.

Lemma layerOrder_NoDup : NoDup layerOrder.
Proof.
  unfold layerOrder.
  repeat constructor; simpl; intros H;
    repeat (destruct H as [H|H]; [vm_compute in H; discriminate|]);
    exact H.
Qed.

Lemma same_refl (c : Child) : same c c = true.
Proof. apply Nat.eqb_refl. Qed.

Lemma filter_filter {A : Type} (p q : A -> bool) (l : list A) :
  filter p (filter q l) = filter (fun x => q x && p x) l.
Proof.
  induction l as [|x t IH]; simpl; auto.
  destruct (q x); simpl; [destruct (p x)|]; rewrite IH; reflexivity.
Qed.

Lemma filter_all {A : Type} (p : A -> bool) (l : list A) :
  (forall x, In x l -> p x = true) -> filter p l = l.
Proof.
  intros H. apply forallb_filter_id, forallb_forall, H.
Qed.

Lemma filter_nothing {A : Type} (p : A -> bool) (l : list A) :
  (forall x, In x l -> p x = false) -> filter p l = [].
Proof.
  induction l as [|x t IH]; simpl; auto.
  intros H. rewrite (H x) by auto. apply IH. auto.
Qed.

Lemma tag_not_in (x : Child) (l : list Child) :
  ~ In (fst x) (map fst l) -> forall c, In c l -> same c x = false.
Proof.
  intros H c Hc. unfold same. apply Nat.eqb_neq. intros E.
  apply H. rewrite <- E. apply in_map, Hc.
Qed.

(** Moving the elements of [l] to the front one by one, last first,
    leaves [l] in front and the rest behind it. *)
Lemma insert_all (l st : list Child) :
  NoDup (map fst l) ->
  fold_left (fun cs child => insertChild0 child cs) (rev l) st
  = l ++ filter (fun c => negb (existsb (same c) l)) st.
Proof.
  intros Hnd.
  rewrite <- (fold_left_rev_right (fun child cs => insertChild0 child cs)).
  rewrite rev_involutive.
  induction l as [|x l IH]; simpl.
  - symmetry. apply filter_all. reflexivity.
  - inversion Hnd as [|? ? Hx Hl]; subst.
    rewrite (IH Hl). unfold insertChild0 at 1. f_equal.
    rewrite filter_app, filter_filter. f_equal.
    + apply filter_all. intros c Hc.
      rewrite (tag_not_in x l Hx c Hc). reflexivity.
    + apply filter_ext. intros c.
      destruct (same c x), (existsb (same c) l); reflexivity.
Qed.

Lemma tag_injective (l : list Child) (x y : Child) :
  NoDup (map fst l) -> In x l -> In y l -> fst x = fst y -> x = y.
Proof.
  induction l as [|z l IH]; simpl; [tauto|].
  intros Hnd Hx Hy E. inversion Hnd as [|? ? Hz Hl]; subst.
  destruct Hx as [->|Hx], Hy as [->|Hy]; auto.
  - exfalso. apply Hz. rewrite E. apply in_map, Hy.
  - exfalso. apply Hz. rewrite <- E. apply in_map, Hx.
Qed.

Lemma NoDup_tags_removeFirst (p : Child -> bool) (l : list Child) :
  NoDup (map fst l) -> NoDup (map fst (removeFirst p l)).
Proof.
  induction l as [|x t IH]; simpl; auto.
  intros Hnd. inversion Hnd as [|? ? Hx Ht]; subst.
  destruct (p x); simpl; auto.
  constructor; auto.
  intros H. apply Hx.
  apply in_map_iff in H. destruct H as (c & E & Hc).
  rewrite <- E. apply in_map. eapply removeFirst_In, Hc.
Qed.

(** Dropping the object that [find] returned is dropping the first element
    of that name. *)
Lemma filter_pick (a : jsstring) (l : list Child) :
  NoDup (map fst l) ->
  filter (fun c => negb (existsb (same c) (pick namedChild a l))) l
  = removeFirst (namedChild a) l.
Proof.
  unfold pick.
  induction l as [|x t IH]; simpl; auto.
  intros Hnd. inversion Hnd as [|? ? Hx Ht]; subst.
  destruct (namedChild a x) eqn:Ea; simpl.
  - rewrite same_refl. simpl.
    apply filter_all. intros c Hc.
    rewrite (tag_not_in x t Hx c Hc). reflexivity.
  - specialize (IH Ht).
    destruct (find (namedChild a) t) as [y|] eqn:Hf; simpl in *.
    + assert (Hxy : same x y = false).
      { apply find_some in Hf. destruct Hf as [Hy _].
        unfold same. apply Nat.eqb_neq. intros E.
        apply Hx. rewrite E. apply in_map, Hy. }
      rewrite Hxy. simpl. f_equal. exact IH.
    + f_equal. exact IH.
Qed.

Lemma others_rest (order : list jsstring) (l : list Child) :
  NoDup order -> NoDup (map fst l) ->
  filter (fun c => negb (existsb (same c) (firsts namedChild order l))) l
  = rest namedChild order l.
Proof.
  intros Hord. revert l.
  induction Hord as [|a order Ha Hord IH]; intros l Hnd.
  - simpl. apply filter_all. reflexivity.
  - change (firsts namedChild (a :: order) l)
      with (pick namedChild a l ++ firsts namedChild order l).
    change (rest namedChild (a :: order) l)
      with (rest namedChild order (removeFirst (namedChild a) l)).
    rewrite <- (IH _ (NoDup_tags_removeFirst _ l Hnd)).
    rewrite (firsts_removeFirst namedChild namedChild_disjoint a order l Ha).
    rewrite <- (filter_pick a l Hnd), filter_filter.
    apply filter_ext. intros c. rewrite existsb_app.
    destruct (existsb (same c) (pick namedChild a l)); reflexivity.
Qed.

Lemma NoDup_tags_firsts (order : list jsstring) (l : list Child) :
  NoDup order -> NoDup (map fst l) ->
  NoDup (map fst (firsts namedChild order l)).
Proof.
  intros Hord Hnd.
  induction Hord as [|a order Ha Hord IH]; [constructor|].
  change (firsts namedChild (a :: order) l)
    with (pick namedChild a l ++ firsts namedChild order l).
  unfold pick. destruct (find (namedChild a) l) as [c|] eqn:Hf; simpl; auto.
  constructor; auto.
  intros Hin. apply in_map_iff in Hin. destruct Hin as (c' & E & Hc').
  apply find_some in Hf. destruct Hf as [Hc Hn].
  assert (c' = c).
  { apply (tag_injective l); auto.
    eapply firsts_In, Hc'. }
  subst c'.
  rewrite (firsts_not_named namedChild namedChild_disjoint
             a order l c Ha Hc') in Hn.
  discriminate.
Qed.

Lemma NoDup_tags_filter (keep : Child -> bool) (cs : list Child) :
  NoDup (map fst cs) -> NoDup (map fst (filter keep cs)).
Proof.
  induction cs as [|x t IH]; simpl; auto.
  intros Hnd. inversion Hnd as [|? ? Hx Ht]; subst.
  destruct (keep x); simpl; auto.
  constructor; auto.
  intros H. apply Hx.
  apply in_map_iff in H. destruct H as (c & E & Hc).
  rewrite <- E. apply in_map. apply filter_In in Hc. tauto.
Qed.

Lemma find_snd (p : Node -> bool) (l : list Child) :
  find p (map snd l) = option_map snd (find (fun c => p (snd c)) l).
Proof.
  induction l as [|x t IH]; simpl; auto.
  destruct (p (snd x)); auto.
Qed.

Lemma firsts_snd (order : list jsstring) (l : list Child) :
  map snd (firsts namedChild order l) = firsts namedNode order (map snd l).
Proof.
  induction order as [|a order IH]; [reflexivity|].
  change (firsts namedChild (a :: order) l)
    with (pick namedChild a l ++ firsts namedChild order l).
  change (firsts namedNode (a :: order) (map snd l))
    with (pick namedNode a (map snd l) ++ firsts namedNode order (map snd l)).
  rewrite map_app, IH. f_equal.
  unfold pick, namedChild. rewrite find_snd.
  destruct (find (fun c => namedNode a (snd c)) l); reflexivity.
Qed.

Lemma removeFirst_snd (p : Node -> bool) (l : list Child) :
  map snd (removeFirst (fun c => p (snd c)) l) = removeFirst p (map snd l).
Proof.
  induction l as [|x t IH]; simpl; auto.
  destruct (p (snd x)); simpl; congruence.
Qed.

Lemma rest_snd (order : list jsstring) (l : list Child) :
  map snd (rest namedChild order l) = rest namedNode order (map snd l).
Proof.
  unfold rest. revert l.
  induction order as [|a order IH]; intros l; simpl; auto.
  rewrite IH. f_equal. apply removeFirst_snd.
Qed.

Lemma combine_seq {A : Type} (l : list A) (start : nat) :
  map fst (combine (seq start (List.length l)) l) = seq start (List.length l)
  /\ map snd (combine (seq start (List.length l)) l) = l.
Proof.
  revert start.
  induction l as [|x t IH]; intros start; simpl; auto.
  destruct (IH (S start)) as [-> ->]. auto.
Qed.

(** The children after [organizeLayerOrder]: the first child of each of the
    four names, then everything else as it stood. *)
Lemma organize_firsts_rest (cs : list Node) :
  organize cs
  = firsts namedNode layerOrder cs ++ rest namedNode layerOrder cs.
Proof.
  unfold organize.
  set (T := combine (seq 0 (List.length cs)) cs).
  destruct (combine_seq cs 0) as [Hfst Hsnd]. fold T in Hfst, Hsnd.
  assert (Hnd : NoDup (map fst T)) by (rewrite Hfst; apply seq_NoDup).
  change (flat_map _ layerOrder) with (firsts namedChild layerOrder T).
  set (ordered := firsts namedChild layerOrder T).
  set (others := filter (fun child => negb (existsb (same child) ordered)) T).
  assert (Hall : NoDup (map fst (ordered ++ others))).
  { rewrite map_app. apply NoDup_app.
    - apply NoDup_tags_firsts; [apply layerOrder_NoDup | exact Hnd].
    - apply NoDup_tags_filter, Hnd.
    - intros tag Ho Hr.
      apply in_map_iff in Ho. destruct Ho as (o & Eo & Ho).
      apply in_map_iff in Hr. destruct Hr as (c & Ec & Hc).
      apply filter_In in Hc. destruct Hc as [_ Hc].
      apply negb_true_iff in Hc.
      assert (existsb (same c) ordered = true).
      { apply existsb_exists. exists o. split; auto.
        unfold same. apply Nat.eqb_eq. congruence. }
      congruence. }
  rewrite (insert_all (ordered ++ others) T Hall).
  rewrite (filter_nothing _ T).
  - rewrite app_nil_r, map_app.
    unfold others, ordered.
    rewrite (others_rest layerOrder T layerOrder_NoDup Hnd).
    rewrite firsts_snd, rest_snd, Hsnd. reflexivity.
  - intros c Hc. apply negb_false_iff.
    rewrite existsb_app.
    destruct (existsb (same c) ordered) eqn:E; auto. simpl.
    apply existsb_exists. exists c. split; [|apply same_refl].
    apply filter_In. rewrite E. auto.
Qed.

Lemma organize_perm (cs : list Node) : Permutation cs (organize cs).
Proof.
  rewrite organize_firsts_rest. symmetry.
  apply (firsts_rest_perm namedNode namedNode_disjoint).
  apply layerOrder_NoDup.
Qed.

Lemma organize_idem (cs : list Node) : organize (organize cs) = organize cs.
Proof.
  rewrite (organize_firsts_rest (organize cs)), (organize_firsts_rest cs).
  rewrite (firsts_idem namedNode namedNode_disjoint)
    by apply layerOrder_NoDup.
  rewrite (rest_idem namedNode namedNode_disjoint)
    by apply layerOrder_NoDup.
  reflexivity.
Qed.

Lemma organizeLayerOrder_idem (frame : Node) :
  organizeLayerOrder (organizeLayerOrder frame) = organizeLayerOrder frame.
Proof.
  destruct frame as [p [[|c cs]|]]; simpl; auto.
  destruct (organize (c :: cs)) as [|c' cs'] eqn:E; auto.
  rewrite <- E, organize_idem. reflexivity.
Qed.

End OrganizeFacts.

(* ================================================================= *)
(** ** LayerManager: naming *)

Section NamingFacts.
Import Figma LayerManager.
Context {U : UnicodeCase}.

(** Induction over a tree and the lists of children in it. *)
Lemma Node_induction (P : Node -> Prop) :
  (forall p, P (mkNode p None)) ->
  (forall p cs, Forall P cs -> P (mkNode p (Some cs))) ->
  forall n, P n.
Proof.
  intros Hleaf Hinner.
  fix IH 1.
  intros [p [cs|]].
  - apply Hinner. induction cs as [|c cs IHcs]; constructor.
    + apply IH.
    + exact IHcs.
  - apply Hleaf.
Qed.

(** A canonical name is its own canonical name for a node of the kind
    that received it. *)
Lemma getNormalizedName_stable (p : Props) (n : jsstring) :
  getNormalizedName p = Some n ->
  getNormalizedName (set_name n p) = Some n.
Proof.
  destruct p as [i nm ty v f fn w h].
  unfold getNormalizedName, set_name; cbn [name type].
  remember (toLowerCase nm) as lower eqn:Hlower. clear Hlower.
  intros H.
  destruct ty; cbn [NodeType_eqb orb andb negb] in H |- *;
    repeat match type of H with
           | context [includes lower ?w] =>
               destruct (includes lower w); cbn [orb andb negb] in H
           end;
    try discriminate H;
    injection H as <-;
    rewrite toLowerCase_ascii by reflexivity;
    vm_compute; reflexivity.
Qed.

Lemma rename_idem (p : Props) : rename (rename p) = rename p.
Proof.
  unfold rename at 2 3.
  destruct (getNormalizedName p) as [n|] eqn:E.
  - unfold rename. rewrite (getNormalizedName_stable p n E).
    destruct p; reflexivity.
  - unfold rename. rewrite E. reflexivity.
Qed.

Lemma normalizeLayerNames_children (p : Props) (cs : option (list Node)) :
  normalizeLayerNames (mkNode p cs)
  = mkNode p (option_map (map normalizeChild) cs).
Proof. destruct cs; reflexivity. Qed.

Lemma normalizeChild_node (p : Props) (cs : option (list Node)) :
  normalizeChild (mkNode p cs)
  = mkNode (rename p) (option_map (map normalizeChild) cs).
Proof.
  unfold normalizeChild. rewrite normalizeLayerNames_children. reflexivity.
Qed.

Lemma normalizeChild_idem (n : Node) :
  normalizeChild (normalizeChild n) = normalizeChild n.
Proof.
  induction n as [p|p cs IH] using Node_induction.
  - rewrite !normalizeChild_node. simpl. rewrite rename_idem. reflexivity.
  - rewrite !normalizeChild_node. simpl. rewrite rename_idem.
    do 2 f_equal. rewrite map_map.
    apply map_ext_in. intros c Hc.
    rewrite Forall_forall in IH. apply IH, Hc.
Qed.

(** A tree that has been named and ordered is left alone by the naming
    walk. *)
Lemma normalizeLayerNames_applyNaming (tree : Node) :
  normalizeLayerNames (applyNaming tree) = applyNaming tree.
Proof.
  unfold applyNaming.
  destruct tree as [p [cs|]]; [|reflexivity].
  rewrite normalizeLayerNames_children. cbn [option_map].
  assert (Hfixed : forall l,
             (forall c, In c l -> In c (map normalizeChild cs)) ->
             normalizeLayerNames (mkNode p (Some l)) = mkNode p (Some l)).
  { intros l Hl. rewrite normalizeLayerNames_children. cbn [option_map].
    do 2 f_equal. rewrite <- (map_id l) at 2.
    apply map_ext_in. intros c Hc.
    apply Hl, in_map_iff in Hc. destruct Hc as (c0 & <- & _).
    apply normalizeChild_idem. }
  destruct (map normalizeChild cs) as [|c l] eqn:E.
  - reflexivity.
  - cbn [organizeLayerOrder]. apply Hfixed.
    intros x Hx.
    apply (Permutation_in _ (Permutation_sym (organize_perm (c :: l)))), Hx.
Qed.

End NamingFacts.

Section LayerManagerClaims.
Import Figma LayerManager.

(** C7.  [applyNaming] is idempotent: applied to a tree it has already
    been applied to, it changes nothing, neither a name nor the order of
    the children. *)
Theorem applyNaming_idempotent (U : UnicodeCase) (tree : Node) :
  applyNaming (applyNaming tree) = applyNaming tree.
Proof.
  unfold applyNaming at 1.
  rewrite normalizeLayerNames_applyNaming.
  unfold applyNaming. apply organizeLayerOrder_idem.
Qed.

Lemma childrenOf_organizeLayerOrder (frame : Node) :
  childrenOf (organizeLayerOrder frame) = organize (childrenOf frame).
Proof.
  destruct frame as [p [[|c cs]|]]; reflexivity.
Qed.

(** C8, as stated, fails: it is not so that the children after the
    reordering are some children of the four names followed by exactly
    the children of other names.  Of two children named content only the
    first one moves to the front; the second one stays behind the
    children of other names. *)
Lemma later_duplicate_stays_behind :
  ~ (forall frame : Node,
       let four := map lit ["background"; "decorative"; "branding"; "content"] in
       let ofTheFour n := existsb (fun layer => namedNode layer n) four in
       let before := childrenOf frame in
       let after := childrenOf (organizeLayerOrder frame) in
       exists front others,
         after = front ++ others
         /\ Forall (fun n => ofTheFour n = true) front
         /\ others = filter (fun n => negb (ofTheFour n)) before).
Proof.
  intros claim.
  destruct (claim
              (mkNode (plain "0" "Asset Frame" FRAME)
                 (Some [ mkNode (plain "1" "x" TEXT) None;
                         mkNode (plain "2" "content" FRAME) (Some []);
                         mkNode (plain "3" "y" TEXT) None;
                         mkNode (plain "4" "content" FRAME) (Some []) ])))
    as (front & others & Hsplit & _ & Hothers).
  cbv zeta in Hsplit, Hothers.
  vm_compute in Hothers. subst others.
  apply (f_equal (@rev Node)) in Hsplit.
  rewrite rev_app_distr in Hsplit.
  rewrite childrenOf_organizeLayerOrder in Hsplit.
  cbn [rev app] in Hsplit.
  match type of Hsplit with
  | rev ?l = _ =>
      let v := eval vm_compute in (rev l) in
      change (rev l) with v in Hsplit
  end.
  discriminate Hsplit.
Qed.

(** C8, amended.  The children of a frame after the reordering step are
    a permutation of its children before it.  For each of the names
    background, decorative, branding and content, in this order, the
    first child that bears it (when there is one) comes to the front;
    all the other children follow in the order they had, a further child
    of one of the four names among them.  So the children that bear none
    of the four names keep their order.  When no two children bear the
    same of the four names, the front part is all the children of these
    names and the rest is exactly the children of other names. *)
Theorem organizeLayerOrder_stable_partition (frame : Node) :
  let four := map lit ["background"; "decorative"; "branding"; "content"] in
  let ofTheFour n := existsb (fun layer => namedNode layer n) four in
  let before := childrenOf frame in
  let after := childrenOf (organizeLayerOrder frame) in
  Permutation before after
  /\ after = firsts namedNode four before ++ rest namedNode four before
  /\ firsts namedNode four before
     = pick namedNode (lit "background") before
       ++ pick namedNode (lit "decorative") before
       ++ pick namedNode (lit "branding") before
       ++ pick namedNode (lit "content") before
  /\ rest namedNode four before
     = removeFirst (namedNode (lit "content"))
         (removeFirst (namedNode (lit "branding"))
            (removeFirst (namedNode (lit "decorative"))
               (removeFirst (namedNode (lit "background")) before)))
  /\ filter (fun n => negb (ofTheFour n)) after
     = filter (fun n => negb (ofTheFour n)) before
  /\ ((forall layer, In layer four ->
         (List.length (filter (namedNode layer) before) <= 1)%nat) ->
      after = flat_map (fun layer => filter (namedNode layer) before) four
              ++ filter (fun n => negb (ofTheFour n)) before).
Proof.
  cbv zeta.
  change (map lit ["background"; "decorative"; "branding"; "content"])
    with layerOrder.
  change (fun n : Node =>
            negb (existsb (fun layer => namedNode layer n) layerOrder))
    with (fun n => negb (inLayerOrder n)).
  rewrite childrenOf_organizeLayerOrder.
  split; [apply organize_perm|].
  split; [apply organize_firsts_rest|].
  split.
  { unfold firsts, layerOrder. cbn [flat_map]. rewrite app_nil_r.
    reflexivity. }
  split; [reflexivity|].
  split.
  - rewrite organize_firsts_rest, filter_app.
    assert (Hq : forall b x, In b layerOrder -> namedNode b x = true ->
                             negb (inLayerOrder x) = false).
    { intros b x Hb Hn. apply negb_false_iff.
      apply existsb_exists. exists b. auto. }
    rewrite (filter_firsts namedNode _ layerOrder _ Hq).
    rewrite (filter_rest namedNode _ layerOrder _ Hq).
    reflexivity.
  - intros Hunique.
    rewrite organize_firsts_rest.
    rewrite (firsts_unique namedNode layerOrder _ Hunique).
    rewrite (rest_unique namedNode layerOrder _ Hunique).
    reflexivity.
Qed.

(** A second child named content stays where it was, behind the children
    of other names. *)
Lemma organize_keeps_later_duplicates :
  map (fun n => name (props n))
      (organize
         [ mkNode (plain "1" "x" TEXT) None;
           mkNode (plain "2" "content" FRAME) (Some []);
           mkNode (plain "3" "y" TEXT) None;
           mkNode (plain "4" "background" FRAME) (Some []);
           mkNode (plain "5" "content" FRAME) (Some []);
           mkNode (plain "6" "branding" GROUP) (Some []) ])
  = map lit ["background"; "branding"; "content"; "x"; "y"; "content"].
Proof. vm_compute. reflexivity. Qed.

End LayerManagerClaims.

(* ================================================================= *)
(** ** AuditEngine *)

Section AuditFacts.
Import Figma AuditEngine.

(** The rounding of the score, computed on floats as the source does,
    agrees with the exact one for every possible count. *)
Lemma score_of_count (passedChecks : nat) :
  (passedChecks <= 7)%nat ->
  Math_round
    (PrimFloat.mul (PrimFloat.div (of_nat passedChecks) (of_nat 7)) 100%float)
  = of_Z (nearest (100 * Z.of_nat passedChecks) 7).
Proof.
  intros H.
  do 8 (destruct passedChecks as [|passedChecks];
        [vm_compute; reflexivity|]).
  lia.
Qed.

Lemma filter_length_le {A : Type} (p : A -> bool) (l : list A) :
  (List.length (filter p l) <= List.length l)%nat.
Proof.
  induction l as [|x t IH]; simpl; auto.
  destruct (p x); simpl; lia.
Qed.

Lemma filter_length_zero {A : Type} (p : A -> bool) (l : list A) :
  Nat.eqb (List.length (filter p l)) 0 = false <->
  exists x, In x l /\ p x = true.
Proof.
  rewrite Nat.eqb_neq. split.
  - intros H. destruct (filter p l) as [|x t] eqn:E; [contradiction H; reflexivity|].
    exists x. apply filter_In. rewrite E. left; reflexivity.
  - intros (x & Hx & Hp) E.
    assert (Hin : In x (filter p l)) by (apply filter_In; auto).
    destruct (filter p l); [exact Hin | discriminate].
Qed.

Lemma validate_valid (node : Node) :
  LayerManager.valid (LayerManager.validate node)
  = Nat.eqb (List.length (LayerManager.errors (LayerManager.validate node))) 0.
Proof.
  unfold LayerManager.validate.
  destruct (negb (NodeType_eqb (type (props node)) FRAME)); reflexivity.
Qed.

Lemma Severity_eqb_eq (a b : Severity) : Severity_eqb a b = true <-> a = b.
Proof. destruct a, b; simpl; split; congruence. Qed.

End AuditFacts.

Section AuditClaims.
Import Figma AuditEngine.

(** C5.  [audit] runs exactly seven checks, in a fixed order.  Its score is
    the integer nearest to 100 times the number of passed checks over 7,
    and lies between 0 and 100.  Its [passed] flag is false exactly when
    some check of severity [error] has not passed.  Its warnings are the
    messages of the checks of severity [warning] that have not passed, in
    the order of the checks. *)
Theorem audit_aggregation (brandConfig : option Brand.BrandConfig)
  (now : Z) (frame : Node) :
  let result := audit brandConfig now frame in
  let checks := AuditResult.checks result in
  let passedCount := Z.of_nat (List.length (filter AuditCheck.passed checks)) in
  List.length checks = 7%nat
  /\ map AuditCheck.name checks
     = map lit [ "Color Compliance"; "Typography"; "Logo Placement";
                 "Layer Structure"; "Safe Zones"; "Contrast Ratio";
                 "Export Quality" ]
  /\ AuditResult.score result = of_Z (nearest (100 * passedCount) 7)
  /\ 2 * Z.abs (7 * nearest (100 * passedCount) 7 - 100 * passedCount) < 7
  /\ 0 <= nearest (100 * passedCount) 7 <= 100
  /\ (AuditResult.passed result = false <->
      exists c, In c checks
                /\ AuditCheck.severity c = error
                /\ AuditCheck.passed c = false)
  /\ map Some (AuditResult.warnings result)
     = map AuditCheck.message (filter failedWarning checks).
Proof.
  cbv zeta.
  set (checks := AuditResult.checks (audit brandConfig now frame)).
  assert (Hlen : List.length checks = 7%nat) by reflexivity.
  assert (Hcount : (List.length (filter AuditCheck.passed checks) <= 7)%nat).
  { rewrite <- Hlen. apply filter_length_le. }
  split; [exact Hlen|].
  split.
  { unfold checks, audit; cbn [AuditResult.checks map].
    unfold checkTypography, checkLogoPlacement, checkExportQuality.
    destruct (option_map _ _) as [[|family style]|];
      destruct (LayerManager.findLayer frame LAYER_NAMES.logo);
      destruct (_ || _); reflexivity. }
  split.
  { unfold audit; cbn [AuditResult.score].
    apply (score_of_count _ Hcount). }
  split.
  { unfold nearest.
    pose proof (Z.div_mod (2 * (100 * Z.of_nat (List.length
                  (filter AuditCheck.passed checks))) + 7) (2 * 7)).
    pose proof (Z.mod_pos_bound (2 * (100 * Z.of_nat (List.length
                  (filter AuditCheck.passed checks))) + 7) (2 * 7)).
    lia. }
  split.
  { unfold nearest. split.
    - apply Z.div_pos; lia.
    - apply Z.lt_succ_r. apply Z.div_lt_upper_bound; lia. }
  split.
  { unfold audit; cbn [AuditResult.passed]. fold checks.
    rewrite filter_length_zero. split.
    - intros (c & Hc & Hp). exists c.
      apply andb_true_iff in Hp. destruct Hp as [Hs Hp].
      apply Severity_eqb_eq in Hs. apply negb_true_iff in Hp. auto.
    - intros (c & Hc & Hs & Hp). exists c. split; auto.
      rewrite Hs, Hp. reflexivity. }
  unfold checks, audit, failedWarning;
    cbn [AuditResult.checks AuditResult.warnings].
  unfold checkTypography, checkLogoPlacement, checkLayerStructure,
    checkExportQuality.
  rewrite validate_valid.
  destruct (option_map _ _) as [[|family style]|];
    destruct (LayerManager.findLayer frame LAYER_NAMES.logo);
    destruct (List.length (LayerManager.errors (LayerManager.validate frame)));
    destruct (_ || _); reflexivity.
Qed.

(** On the sample frame five of the seven checks pass: there is no logo
    layer (a warning) and no content layer (an error). *)
Lemma audit_sample :
  let result := audit None 0 sample_frame in
  map AuditCheck.passed (AuditResult.checks result)
  = [true; true; false; false; true; true; true]
  /\ AuditResult.score result = 71%float
  /\ AuditResult.passed result = false
  /\ AuditResult.warnings result = [[Str (lit "Logo layer not found")]].
Proof. vm_compute. repeat split. Qed.

End AuditClaims.

(* ================================================================= *)
(** ** ThemeEngine *)

Section ThemeClaims.
Import Figma ThemeEngine.

(** A name that reaches nothing in [THEMES], neither a theme nor a member
    of [Object.prototype], leaves the tree as it is. *)
Lemma apply_undefined_theme (brandConfig : option Brand.BrandConfig)
  (frame : Node) (themeName : jsstring) :
  Obj.get Defaults.THEMES themeName = Obj.Undefined ->
  apply brandConfig frame themeName = frame.
Proof. intros H. unfold apply. rewrite H. reflexivity. Qed.

Lemma get_undefined {A : Type} (table : list (jsstring * A)) (key : jsstring) :
  Obj.own table key = None ->
  ~ In key Obj.prototype_members ->
  Obj.get table key = Obj.Undefined.
Proof.
  intros Hown Hproto. unfold Obj.get. rewrite Hown.
  destruct (existsb (fun m => eqb m key) Obj.prototype_members) eqn:E; auto.
  apply existsb_exists in E. destruct E as (m & Hm & Heq).
  apply eqb_eq in Heq. subst m. contradiction.
Qed.

Lemma apply_unknown_theme (brandConfig : option Brand.BrandConfig)
  (frame : Node) (themeName : jsstring) :
  ~ In themeName (map fst Defaults.THEMES) ->
  ~ In themeName Obj.prototype_members ->
  apply brandConfig frame themeName = frame.
Proof.
  intros Hname Hproto. apply apply_undefined_theme, get_undefined; auto.
  clear Hproto. induction Defaults.THEMES as [|[k v] t IH]; simpl; auto.
  destruct (eqb k themeName) eqn:E.
  - apply eqb_eq in E. exfalso. apply Hname. left. exact E.
  - apply IH. intros H. apply Hname. right. exact H.
Qed.

(** C6 on the code.  The theme name "constructor" is none of the five
    registered themes, yet [THEMES["constructor"]] is the inherited
    constructor function, which is truthy: [apply] goes on and paints the
    frame and its text layer black. *)
Theorem apply_inherited_name_paints :
  ~ In (lit "constructor") (map fst Defaults.THEMES)
  /\ apply None sample_frame (lit "constructor")
     = mkNode (set_fills [SOLID black] (plain "1:1" "Asset Frame" FRAME))
         (Some [ mkNode (set_fills [SOLID black] (plain "1:2" "headline" TEXT))
                        None ])
  /\ apply None sample_frame (lit "constructor") <> sample_frame.
Proof.
  split; [|split].
  - vm_compute. intros H.
    repeat (destruct H as [H|H]; [discriminate H|]). exact H.
  - vm_compute. reflexivity.
  - intros H.
    apply (f_equal (fun n => List.length (fills (props n)))) in H.
    vm_compute in H. discriminate.
Qed.

End ThemeClaims.

(* ================================================================= *)
(** ** The stable sort *)

Section StableSort.
Context {A : Type} (compare : A -> A -> Z) (rank : A -> Z).
Hypothesis compare_rank :
  forall a b, (compare a b <=? 0) = (rank a <=? rank b).






End StableSort.

(* ================================================================= *)
(** ** FeedbackSystem *)

Section FeedbackFacts.
Import FeedbackSystem.

Lemma countIssues_tally (entries : list FeedbackEntry) :
  countIssues entries = tally (issueKeys entries) [].
Proof.
  unfold countIssues, tally, issueKeys.
  generalize (@nil (jsstring * nat)) as counter.
  induction entries as [|f entries IH]; intros counter; simpl; auto.
  rewrite fold_left_app, IH. f_equal.
  generalize counter.
  induction (issues f) as [|i l IHl]; intros c; simpl; auto.
Qed.

Lemma existsb_eqb_in (k : jsstring) (l : list jsstring) :
  existsb (fun s => eqb s k) l = true <-> In k l.
Proof.
  rewrite existsb_exists. split.
  - intros (s & Hs & E). apply eqb_eq in E. subst. exact Hs.
  - intros H. exists k. split; auto. apply eqb_refl.
Qed.

Lemma bump_keys (k : jsstring) (counter : list (jsstring * nat)) :
  map fst (bump k counter)
  = if existsb (fun s => eqb s k) (map fst counter)
    then map fst counter else map fst counter ++ [k].
Proof.
  induction counter as [|[k' c] t IH]; simpl; auto.
  destruct (eqb k' k); simpl; auto.
  rewrite IH. destruct (existsb _ (map fst t)); reflexivity.
Qed.

Lemma tally_keys (keys : list jsstring) (counter : list (jsstring * nat)) :
  map fst (tally keys counter)
  = map fst counter ++ distinct (map fst counter) keys.
Proof.
  unfold tally. revert counter.
  induction keys as [|k keys IH]; intros counter; simpl.
  - rewrite app_nil_r. reflexivity.
  - rewrite IH, bump_keys.
    destruct (existsb (fun s => eqb s k) (map fst counter)); auto.
    rewrite <- app_assoc. reflexivity.
Qed.

Lemma stored_bump (key k : jsstring) (counter : list (jsstring * nat)) :
  stored key (bump k counter)
  = (stored key counter + if eqb k key then 1 else 0)%nat.
Proof.
  unfold stored.
  induction counter as [|[k' c] t IH]; simpl.
  - destruct (eqb k key); reflexivity.
  - destruct (eqb k' k) eqn:E; simpl.
    + apply eqb_eq in E. subst k'.
      destruct (eqb k key); simpl; lia.
    + destruct (eqb k' key) eqn:E'; simpl.
      * apply eqb_eq in E'. subst k'.
        assert (eqb k key = false) as ->.
        { apply eqb_neq. apply eqb_neq in E. congruence. }
        lia.
      * exact IH.
Qed.

Lemma stored_tally (key : jsstring) (keys : list jsstring)
  (counter : list (jsstring * nat)) :
  stored key (tally keys counter)
  = (stored key counter + occurrences key keys)%nat.
Proof.
  unfold tally, occurrences. revert counter.
  induction keys as [|k keys IH]; intros counter; simpl; [lia|].
  rewrite IH, stored_bump.
  destruct (eqb k key); simpl; lia.
Qed.

Lemma distinct_spec (seen keys : list jsstring) (k : jsstring) :
  In k (distinct seen keys) <-> In k keys /\ ~ In k seen.
Proof.
  revert seen.
  induction keys as [|x keys IH]; intros seen; simpl; [tauto|].
  destruct (existsb (fun s => eqb s x) seen) eqn:E.
  - apply existsb_eqb_in in E. rewrite IH.
    split; [tauto|]. intros [[->|H] Hn]; tauto.
  - assert (Hx : ~ In x seen).
    { intros H. apply existsb_eqb_in in H. congruence. }
    simpl. rewrite IH, in_app_iff. simpl.
    destruct (list_eq_dec N.eq_dec x k) as [->|Hne]; tauto.
Qed.

Lemma distinct_NoDup (seen keys : list jsstring) : NoDup (distinct seen keys).
Proof.
  revert seen.
  induction keys as [|x keys IH]; intros seen; simpl; [constructor|].
  destruct (existsb (fun s => eqb s x) seen); auto.
  constructor; auto.
  rewrite distinct_spec, in_app_iff. simpl. tauto.
Qed.

Lemma firstIndex_distinct (seen keys : list jsstring) (a b : jsstring) :
  precedes (distinct seen keys) a b ->
  (firstIndex a keys < firstIndex b keys)%nat.
Proof.
  revert seen.
  induction keys as [|x keys IH]; intros seen H.
  - destruct H as ([|? ?] & ? & ? & H); discriminate H.
  - simpl in H. simpl.
    destruct (existsb (fun s => eqb s x) seen) eqn:E.
    + apply existsb_eqb_in in E.
      assert (Hab : In a (distinct seen keys) /\ In b (distinct seen keys)).
      { destruct H as (l1 & l2 & l3 & ->).
        rewrite !in_app_iff; simpl; rewrite !in_app_iff; simpl. tauto. }
      destruct Hab as [Ha Hb].
      apply distinct_spec in Ha, Hb.
      assert (eqb x a = false) as -> by (apply eqb_neq; intros ->; tauto).
      assert (eqb x b = false) as -> by (apply eqb_neq; intros ->; tauto).
      apply -> Nat.succ_lt_mono. eapply IH, H.
    + destruct H as (l1 & l2 & l3 & H).
      destruct l1 as [|y l1]; simpl in H; injection H as Hhead Htail.
      * subst a. rewrite eqb_refl.
        assert (Hb : In b (distinct (seen ++ [x]) keys)).
        { rewrite Htail, in_app_iff. simpl. tauto. }
        apply distinct_spec in Hb. rewrite in_app_iff in Hb. simpl in Hb.
        assert (eqb x b = false) as -> by (apply eqb_neq; intros ->; tauto).
        lia.
      * subst y.
        assert (Hp : precedes (distinct (seen ++ [x]) keys) a b)
          by (exists l1, l2, l3; exact Htail).
        assert (Hab : In a (distinct (seen ++ [x]) keys)
                      /\ In b (distinct (seen ++ [x]) keys)).
        { rewrite Htail, !in_app_iff; simpl; rewrite !in_app_iff; simpl. tauto. }
        destruct Hab as [Ha Hb].
        apply distinct_spec in Ha, Hb. rewrite in_app_iff in Ha, Hb.
        simpl in Ha, Hb.
        assert (eqb x a = false) as -> by (apply eqb_neq; intros ->; tauto).
        assert (eqb x b = false) as -> by (apply eqb_neq; intros ->; tauto).
        apply -> Nat.succ_lt_mono. eapply IH, Hp.
Qed.

Lemma precedes_map {A B : Type} (f : A -> B) (l : list A) (a b : A) :
  precedes l a b -> precedes (map f l) (f a) (f b).
Proof.
  intros (l1 & l2 & l3 & ->).
  exists (map f l1), (map f l2), (map f l3).
  rewrite map_app. simpl. rewrite map_app. reflexivity.
Qed.

Lemma stored_In (counter : list (jsstring * nat)) (k : jsstring) (c : nat) :
  NoDup (map fst counter) -> In (k, c) counter -> stored k counter = c.
Proof.
  unfold stored.
  induction counter as [|[k' c'] t IH]; simpl; [tauto|].
  intros Hnd [[= -> ->]|Hin].
  - rewrite eqb_refl. reflexivity.
  - inversion Hnd as [|? ? Hk Ht]; subst.
    destruct (eqb k' k) eqn:E; simpl; auto.
    apply eqb_eq in E. subst k'.
    exfalso. apply Hk. change k with (fst (k, c)). apply in_map, Hin.
Qed.

(** The counter after the loops: one entry for each issue key, in the
    order of the first occurrences, holding its number of occurrences. *)
Lemma tally_spec (keys : list jsstring) :
  let counter := tally keys [] in
  NoDup (map fst counter)
  /\ (forall k c, In (k, c) counter <->
                  In k keys /\ c = occurrences k keys)
  /\ (forall a b, precedes counter a b ->
                  (firstIndex (fst a) keys < firstIndex (fst b) keys)%nat).
Proof.
  cbv zeta.
  assert (Hkeys : map fst (tally keys []) = distinct [] keys)
    by apply (tally_keys keys []).
  assert (Hnd : NoDup (map fst (tally keys []))).
  { rewrite Hkeys. apply distinct_NoDup. }
  split; [exact Hnd|]. split.
  - intros k c. split.
    + intros Hin. split.
      * assert (Hk : In k (map fst (tally keys []))).
        { change k with (fst (k, c)). apply in_map, Hin. }
        rewrite Hkeys in Hk. apply distinct_spec in Hk. tauto.
      * rewrite <- (stored_In _ k c Hnd Hin), stored_tally. reflexivity.
    + intros [Hk ->].
      assert (Hin : In k (map fst (tally keys []))).
      { rewrite Hkeys. apply distinct_spec. split; auto. }
      apply in_map_iff in Hin. destruct Hin as ([k' c] & E & Hin).
      simpl in E. subst k'.
      rewrite <- (stored_In _ k c Hnd Hin) in Hin.
      rewrite stored_tally in Hin. exact Hin.
  - intros a b H.
    apply (precedes_map fst) in H. rewrite Hkeys in H.
    eapply firstIndex_distinct, H.
Qed.

End FeedbackFacts.

Section FeedbackClaims.
Import FeedbackSystem.



Section Window.
Variables (now later : Z) (LocalTZA_utc LocalTZA_local : Z -> Z).


(** Where the offset of local time never changes, the cutoff is [days]
    days before now, to the millisecond. *)
Lemma cutoff_fixed_offset (offset days : Z) :
  (forall t, LocalTZA_utc t = offset) ->
  (forall t, LocalTZA_local t = offset) ->
  cutoff now LocalTZA_utc LocalTZA_local days
  = TimeClip (now - days * msPerDay).
Proof.
  intros Hu Hl. unfold cutoff. rewrite Hu, Hl. f_equal. lia.
Qed.

End Window.


(** On the sample log, read on day 120 with a window of 30 days in a zone
    without offset: three reviews count, their mean 13/3 becomes 4.3, and
    the three keys that occur twice stand in the order they first
    occurred, before the key that occurs once. *)
Lemma getSummary_sample :
  let summary :=
    getSummary (120 * msPerDay) (120 * msPerDay) (fun _ => 0) (fun _ => 0)
               sample_log 30 in
  totalAssets summary = 3%nat
  /\ averageRating summary = 4.3%float
  /\ commonIssues summary
     = [ (lit "logo: small", 2%nat); (lit "color: off", 2%nat);
         (lit "layout: tight", 2%nat); (lit "other: typo", 1%nat) ].
Proof. vm_compute. repeat split. Qed.

End FeedbackClaims.

(* ================================================================= *)
(** * Further properties *)

(** ** TextAnalyzer: the batch as a whole *)

Section TextAnalyzerBatch.
Import TextAnalyzer.

Lemma text_retype (t : Role) (f : number) (r : AnalyzedText) :
  text (retype t f r) = text r.
Proof. reflexivity. Qed.

Lemma demoteLater_texts (found : bool) (l : list AnalyzedText) :
  map text (demoteLater found l) = map text l.
Proof.
  revert found.
  induction l as [|r l IH]; intros found; simpl; auto.
  destruct (isHeadline r); simpl; [destruct found|]; rewrite IH; reflexivity.
Qed.

Lemma promoteFirst_texts (l : list AnalyzedText) :
  map text (promoteFirst l) = map text l.
Proof.
  induction l as [|r l IH]; simpl; auto.
  destruct (isCandidate r); simpl; congruence.
Qed.

Lemma adjust_texts (l : list AnalyzedText) : map text (adjust l) = map text l.
Proof.
  unfold adjust.
  destruct (Nat.ltb 1 _);
    destruct (Nat.eqb _ 0 && Nat.ltb 0 _);
    rewrite ?promoteFirst_texts, ?demoteLater_texts; reflexivity.
Qed.

Lemma analyzeInput_text (U : UnicodeCase) (input : TextInput.t) :
  text (analyzeInput input) = TextInput.text input.
Proof.
  unfold analyzeInput, detectType.
  destruct (TextInput.type input); [reflexivity|].
  destruct (if isTag _ then _ else _). reflexivity.
Qed.

(** X1.  [analyze] returns one result for each input, and the texts of the
    results are the texts of the inputs in another order: no text is
    lost, repeated or altered. *)
Theorem analyze_keeps_texts (U : UnicodeCase) (inputs : list TextInput.t) :
  List.length (analyze inputs) = List.length inputs
  /\ Permutation (map text (analyze inputs)) (map TextInput.text inputs).
Proof.
  assert (Hperm : Permutation (map text (analyze inputs))
                              (map TextInput.text inputs)).
  { unfold analyze, ensureHierarchy.
    rewrite (Permutation_map text (sort_perm byTypeOrder _)).
    rewrite adjust_texts, map_map.
    erewrite map_ext; [reflexivity|].
    intros input. apply analyzeInput_text. }
  split; [|exact Hperm].
  apply Permutation_length in Hperm.
  rewrite !length_map in Hperm. exact Hperm.
Qed.



Lemma demoteLater_false_one (l : list AnalyzedText) :
  (1 <= headlines l)%nat -> headlines (demoteLater false l) = 1%nat.
Proof.
  unfold headlines.
  induction l as [|r l IH]; simpl; [lia|].
  destruct (isHeadline r) eqn:E; simpl; rewrite E; simpl.
  - intros _. pose proof (demoteLater_true_headlines l) as H.
    unfold headlines in H. rewrite H. reflexivity.
  - exact IH.
Qed.

Lemma promoteFirst_none (l : list AnalyzedText) :
  existsb isCandidate l = false -> promoteFirst l = l.
Proof.
  induction l as [|r l IH]; simpl; auto.
  destruct (isCandidate r); simpl; [discriminate|].
  intros H. f_equal. auto.
Qed.

Lemma promoteFirst_one (l : list AnalyzedText) :
  existsb isCandidate l = true -> headlines l = 0%nat ->
  headlines (promoteFirst l) = 1%nat.
Proof.
  unfold headlines.
  induction l as [|r l IH]; simpl; [discriminate|].
  destruct (isCandidate r); simpl.
  - intros _. destruct (isHeadline r); simpl; [discriminate|].
    intros ->. reflexivity.
  - destruct (isHeadline r); simpl; [discriminate|]. exact IH.
Qed.

(** How many headlines the reconciliation leaves. *)
Lemma adjust_headline_count (l : list AnalyzedText) :
  headlines (adjust l)
  = if (Nat.ltb 0 (headlines l) || existsb isCandidate l)%bool
    then 1%nat else 0%nat.
Proof.
  unfold adjust. fold (headlines l).
  destruct (Nat.ltb 1 (headlines l)) eqn:Hmany.
  - apply Nat.ltb_lt in Hmany.
    replace (Nat.eqb (headlines l) 0) with false
      by (symmetry; apply Nat.eqb_neq; lia).
    replace (Nat.ltb 0 (headlines l)) with true
      by (symmetry; apply Nat.ltb_lt; lia).
    simpl. apply demoteLater_false_one. lia.
  - apply Nat.ltb_ge in Hmany.
    destruct (Nat.eqb (headlines l) 0) eqn:Hnone; simpl.
    + apply Nat.eqb_eq in Hnone. rewrite Hnone. simpl.
      destruct (existsb isCandidate l) eqn:Hc.
      * assert (Nat.ltb 0 (List.length l) = true) as ->.
        { destruct l; [discriminate | reflexivity]. }
        apply promoteFirst_one; auto.
      * rewrite (promoteFirst_none l Hc).
        destruct (Nat.ltb 0 (List.length l)); exact Hnone.
    + apply Nat.eqb_neq in Hnone.
      replace (Nat.ltb 0 (headlines l)) with true
        by (symmetry; apply Nat.ltb_lt; lia).
      simpl. lia.
Qed.

(** X3.  The output has exactly one headline when some result of the batch
    is a headline or can be promoted (at most 15 words, neither a call to
    action nor a tag), and no headline at all otherwise. *)
Theorem analyze_headline_exists (U : UnicodeCase) (inputs : list TextInput.t) :
  let results := map analyzeInput inputs in
  ((exists r, In r results /\ (isHeadline r = true \/ isCandidate r = true)) ->
   headlines (analyze inputs) = 1%nat)
  /\ (~ (exists r, In r results
                   /\ (isHeadline r = true \/ isCandidate r = true)) ->
      headlines (analyze inputs) = 0%nat).
Proof.
  cbv zeta.
  set (results := map analyzeInput inputs).
  assert (Hcount : headlines (analyze inputs)
                   = if (Nat.ltb 0 (headlines results)
                         || existsb isCandidate results)%bool
                     then 1%nat else 0%nat).
  { unfold analyze, ensureHierarchy, headlines at 1.
    rewrite (filter_perm_length isHeadline _ _ (sort_perm byTypeOrder _)).
    apply adjust_headline_count. }
  assert (Hiff : (Nat.ltb 0 (headlines results)
                  || existsb isCandidate results)%bool = true
                 <-> exists r, In r results
                               /\ (isHeadline r = true \/ isCandidate r = true)).
  { rewrite orb_true_iff, Nat.ltb_lt, existsb_exists. unfold headlines.
    split.
    - intros [H|(r & Hr & Hc)].
      + destruct (filter isHeadline results) as [|r t] eqn:E;
          [simpl in H; lia|].
        assert (Hin : In r (filter isHeadline results))
          by (rewrite E; left; reflexivity).
        apply filter_In in Hin. exists r. tauto.
      + exists r. tauto.
    - intros (r & Hr & [Hh|Hc]).
      + left.
        assert (Hin : In r (filter isHeadline results))
          by (apply filter_In; auto).
        destruct (filter isHeadline results); [destruct Hin | simpl; lia].
      + right. exists r. auto. }
  rewrite Hcount. split; intros H.
  - apply Hiff in H. rewrite H. reflexivity.
  - destruct (Nat.ltb 0 (headlines results) || existsb isCandidate results)%bool;
      [exfalso; apply H, Hiff; reflexivity | reflexivity].
Qed.

Lemma describesText_retype (U : UnicodeCase) (t : Role) (f : number)
  (r : AnalyzedText) :
  describesText r -> describesText (retype t f r).
Proof. exact (fun H => H). Qed.

Lemma describesText_analyzeInput (U : UnicodeCase) (input : TextInput.t) :
  describesText (analyzeInput input).
Proof.
  unfold analyzeInput, describesText, detectType.
  destruct (TextInput.type input); simpl.
  - auto.
  - destruct (if isTag _ then _ else _). simpl. auto.
Qed.

Lemma Forall_demoteLater (P : AnalyzedText -> Prop) (found : bool)
  (l : list AnalyzedText) :
  (forall t f r, P r -> P (retype t f r)) ->
  Forall P l -> Forall P (demoteLater found l).
Proof.
  intros HP H. revert found.
  induction H as [|r l Hr Hl IH]; intros found; simpl; [constructor|].
  destruct (isHeadline r); [destruct found|]; constructor; auto.
Qed.

Lemma Forall_promoteFirst (P : AnalyzedText -> Prop) (l : list AnalyzedText) :
  (forall t f r, P r -> P (retype t f r)) ->
  Forall P l -> Forall P (promoteFirst l).
Proof.
  intros HP H.
  induction H as [|r l Hr Hl IH]; simpl; [constructor|].
  destruct (isCandidate r); constructor; auto.
Qed.

Lemma Forall_adjust (P : AnalyzedText -> Prop) (l : list AnalyzedText) :
  (forall t f r, P r -> P (retype t f r)) ->
  Forall P l -> Forall P (adjust l).
Proof.
  intros HP H. unfold adjust.
  destruct (Nat.ltb 1 _); destruct (Nat.eqb _ 0 && Nat.ltb 0 _);
    auto using Forall_demoteLater, Forall_promoteFirst.
Qed.

(** X4.  In every result of [analyze] the word count, the character
    count and the two flags are those of the text of the result: the
    reconciliation changes roles and confidences only. *)
Theorem analyze_results_describe_text (U : UnicodeCase)
  (inputs : list TextInput.t) :
  Forall describesText (analyze inputs).
Proof.
  unfold analyze, ensureHierarchy.
  eapply Permutation_Forall.
  - apply Permutation_sym, sort_perm.
  - apply Forall_adjust.
    + intros t f r. apply describesText_retype.
    + apply Forall_forall. intros r Hr.
      apply in_map_iff in Hr. destruct Hr as (input & <- & _).
      apply describesText_analyzeInput.
Qed.

End TextAnalyzerBatch.

(** ** TextAnalyzer: trimming and counting words *)

Section TextAnalyzerWords.
Import TextAnalyzer.

Lemma trimStart_startsClean (s : jsstring) : startsClean (trimStart s) = true.
Proof.
  induction s as [|c s IH]; simpl; auto.
  destruct (is_whitespace c) eqn:E; auto. simpl. rewrite E. reflexivity.
Qed.

Lemma startsClean_trimStart (s : jsstring) :
  startsClean s = true -> trimStart s = s.
Proof.
  destruct s as [|c s]; simpl; auto.
  destruct (is_whitespace c); [discriminate | reflexivity].
Qed.

(** What [trimStart] removes is white space. *)
Lemma trimStart_split (s : jsstring) :
  exists w, s = w ++ trimStart s /\ forallb is_whitespace w = true.
Proof.
  induction s as [|c s (w & Hs & Hw)]; simpl.
  - exists []. auto.
  - destruct (is_whitespace c) eqn:E.
    + exists (c :: w). simpl. rewrite E, Hw. split; [f_equal; exact Hs | reflexivity].
    + exists []. auto.
Qed.

Lemma startsClean_app (a b : jsstring) :
  a <> [] -> startsClean (a ++ b) = startsClean a.
Proof. destruct a; [congruence | reflexivity]. Qed.

(** The trimmed string starts and ends clean. *)
Lemma trim_startsClean (s : jsstring) :
  startsClean (trim s) = true /\ startsClean (rev (trim s)) = true.
Proof.
  unfold trim. rewrite rev_involutive.
  split; [|apply trimStart_startsClean].
  destruct (trimStart_split (rev (trimStart s))) as (w & Hs & Hw).
  destruct (trimStart (rev (trimStart s))) as [|c t] eqn:E; [reflexivity|].
  assert (Ha : trimStart s = rev (c :: t) ++ rev w).
  { rewrite <- rev_app_distr, <- Hs, rev_involutive. reflexivity. }
  pose proof (trimStart_startsClean s) as Hclean.
  rewrite Ha in Hclean.
  rewrite startsClean_app in Hclean; auto.
  simpl. intros H. apply app_eq_nil in H. destruct H as [_ H]. discriminate.
Qed.

Lemma trim_fixed (s : jsstring) : trim (trim s) = trim s.
Proof.
  destruct (trim_startsClean s) as [Hfront Hback].
  unfold trim at 1.
  rewrite (startsClean_trimStart _ Hfront).
  rewrite (startsClean_trimStart _ Hback).
  apply rev_involutive.
Qed.

Lemma countWords_trim (s : jsstring) : countWords (trim s) = countWords s.
Proof. unfold countWords. rewrite trim_fixed. reflexivity. Qed.

(** X5.  Trimming a trimmed text changes nothing, so the number of words
    of the trimmed text, which the tag rule tests, is the number of words
    of the text, which the result reports. *)
Theorem trim_idempotent (s : jsstring) :
  trim (trim s) = trim s /\ countWords (trim s) = countWords s.
Proof.
  split.
  - apply trim_fixed.
  - unfold countWords. rewrite trim_fixed. reflexivity.
Qed.

(** X6.  A text given without a role is classified as body exactly when
    it has more than 30 words. *)
Theorem detectType_body_iff (U : UnicodeCase) (s : jsstring) :
  type (detectType s) = body <-> (30 < countWords s)%nat.
Proof.
  unfold detectType.
  destruct (isTag s) eqn:Htag.
  - simpl. split; [discriminate|].
    intros Hwords. exfalso.
    unfold isTag in Htag.
    rewrite countWords_trim in Htag.
    destruct (Nat.ltb 3 (countWords s)) eqn:E; [discriminate|].
    apply Nat.ltb_ge in E. lia.
  - destruct (hasActionWord s && Nat.leb (countWords s) 5) eqn:Hcta.
    { simpl. split; [discriminate|]. intros Hwords.
      apply andb_true_iff in Hcta. destruct Hcta as [_ Hle].
      apply Nat.leb_le in Hle. lia. }
    destruct (Nat.leb (countWords s) 10 && negb (hasPunctuation s)) eqn:Hhead.
    { simpl. split; [discriminate|]. intros Hwords.
      apply andb_true_iff in Hhead. destruct Hhead as [Hle _].
      apply Nat.leb_le in Hle. lia. }
    destruct (Nat.leb (countWords s) 30) eqn:Hsub; simpl.
    + apply Nat.leb_le in Hsub. split; [discriminate | lia].
    + apply Nat.leb_gt in Hsub. split; auto.
Qed.

End TextAnalyzerWords.

(* ================================================================= *)
(** ** LayerManager: search and validation *)

Section LayerManagerSearch.
Import Figma LayerManager.

Lemma find_app {A : Type} (p : A -> bool) (l1 l2 : list A) :
  find p (l1 ++ l2)
  = match find p l1 with
    | Some x => Some x
    | None => find p l2
    end.
Proof.
  induction l1 as [|x t IH]; simpl; auto.
  destruct (p x); auto.
Qed.

Lemma findLayer_preorder (node : Node) (layerName : jsstring) :
  findLayer node layerName = find (namedNode layerName) (preorder node).
Proof.
  induction node as [p|p cs IH] using Node_induction.
  - simpl. unfold namedNode at 1. simpl.
    destruct (eqb (name p) layerName); reflexivity.
  - cbn [findLayer preorder find]. unfold namedNode at 1. cbn [props].
    destruct (eqb (name p) layerName); [reflexivity|].
    induction IH as [|c l Hc Hl IHl]; [reflexivity|].
    cbn [flat_map]. rewrite find_app, <- Hc.
    destruct (findLayer c layerName); [reflexivity | exact IHl].
Qed.

Lemma findLayerByName_findLayer (node : Node) (layerName : jsstring) :
  ThemeEngine.findLayerByName node layerName = findLayer node layerName.
Proof.
  induction node as [p|p cs IH] using Node_induction; [reflexivity|].
  cbn [ThemeEngine.findLayerByName findLayer].
  destruct (eqb (name p) layerName); [reflexivity|].
  induction IH as [|c l Hc Hl IHl]; [reflexivity|].
  rewrite Hc. destruct (findLayer c layerName); [reflexivity | exact IHl].
Qed.

Lemma getTextLayers_preorder (node : Node) :
  getTextLayers node = filter isText (preorder node).
Proof.
  induction node as [p|p cs IH] using Node_induction.
  - simpl. unfold isText. simpl.
    destruct (NodeType_eqb (type p) TEXT); reflexivity.
  - cbn [getTextLayers preorder filter]. unfold isText at 1. cbn [props].
    assert (Hrest : flat_map getTextLayers cs
                    = filter isText (flat_map preorder cs)).
    { induction IH as [|c l Hc Hl IHl]; [reflexivity|].
      cbn [flat_map]. rewrite filter_app, Hc, IHl. reflexivity. }
    rewrite Hrest.
    destruct (NodeType_eqb (type p) TEXT); reflexivity.
Qed.

(** X7.  The searches go through the tree in pre-order: [findLayer]
    returns the first node of that name, so it finds a node exactly when
    the tree holds one of that name; [getTextLayers] returns the text
    nodes in that order; and the search of the theme engine is the same
    search. *)
Theorem searches_are_preorder (node : Node) (layerName : jsstring) :
  findLayer node layerName = find (namedNode layerName) (preorder node)
  /\ (findLayer node layerName = None <->
      forall n, In n (preorder node) -> name (props n) <> layerName)
  /\ getTextLayers node = filter isText (preorder node)
  /\ ThemeEngine.findLayerByName node layerName = findLayer node layerName.
Proof.
  split; [apply findLayer_preorder|].
  split; [|split; [apply getTextLayers_preorder
                  | apply findLayerByName_findLayer]].
  rewrite findLayer_preorder. split.
  - intros H n Hn. apply eqb_neq. exact (find_none _ _ H n Hn).
  - intros H.
    destruct (find (namedNode layerName) (preorder node)) as [n|] eqn:E; auto.
    apply find_some in E. destruct E as [Hin Hn].
    apply eqb_eq in Hn. exfalso. exact (H n Hin Hn).
Qed.

Lemma own_identity (keys : list jsstring) (key value : jsstring) :
  Obj.own (map (fun k => (k, k)) keys) key = Some value -> value = key.
Proof.
  induction keys as [|k keys IH]; simpl; [discriminate|].
  destruct (eqb k key) eqn:E; auto.
  apply eqb_eq in E. intros [= <-]. exact E.
Qed.

Lemma getLayerKey_own (nm key : jsstring) :
  getLayerKey nm = Obj.Own key -> key = nm.
Proof.
  unfold getLayerKey, Obj.get.
  destruct (Obj.own layerKeys nm) as [v|] eqn:E.
  - intros [= <-]. exact (own_identity _ _ _ E).
  - destruct (existsb _ _); discriminate.
Qed.

(** [structure[key]] is set exactly when a child bears the name [key],
    for each of the names of the table. *)
Lemma present_mapStructure (cs : list Node) (key : jsstring) :
  getLayerKey key = Obj.Own key ->
  present (mapStructure cs) key = existsb (namedNode key) cs.
Proof.
  intros Hkey. unfold present, mapStructure.
  induction cs as [|c cs IH]; [reflexivity|].
  cbn [flat_map existsb]. rewrite existsb_app, IH. f_equal.
  unfold namedNode.
  destruct (getLayerKey (name (props c))) as [k| |] eqn:E; cbn.
  - apply getLayerKey_own in E. subst k. rewrite orb_false_r. reflexivity.
  - destruct (eqb (name (props c)) key) eqn:Hn; auto.
    apply eqb_eq in Hn. rewrite Hn, Hkey in E. discriminate.
  - destruct (eqb (name (props c)) key) eqn:Hn; auto.
    apply eqb_eq in Hn. rewrite Hn, Hkey in E. discriminate.
Qed.

Lemma existsb_namedNode (key : jsstring) (node : Node) :
  existsb (namedNode key) (childrenOf node) = true <-> hasChildNamed key node.
Proof.
  unfold hasChildNamed. rewrite existsb_exists.
  split; intros (c & Hc & Hn); exists c; split; auto;
    apply eqb_eq; exact Hn.
Qed.

Lemma validate_unfold (node : Node) :
  validate node
  = if negb (NodeType_eqb (type (props node)) FRAME) then
      {| valid := false; errors := [lit "Root node must be a FRAME"];
         warnings := []; suggestions := [] |}
    else
      let has key := existsb (namedNode key) (childrenOf node) in
      {| valid := has LAYER_NAMES.content;
         errors := if has LAYER_NAMES.content then []
                   else [lit "Missing required layer: content"];
         warnings := if has LAYER_NAMES.branding then []
                     else [lit "Missing layer: branding"];
         suggestions := if has LAYER_NAMES.decorative then []
                        else [lit "Consider adding a decorative group"] |}.
Proof.
  unfold validate.
  destruct (negb (NodeType_eqb (type (props node)) FRAME)); [reflexivity|].
  cbv zeta. fold (childrenOf node).
  change (lit "content") with LAYER_NAMES.content.
  change (lit "branding") with LAYER_NAMES.branding.
  change (lit "decorative") with LAYER_NAMES.decorative.
  rewrite !present_mapStructure by reflexivity.
  destruct (existsb (namedNode LAYER_NAMES.content) (childrenOf node));
    reflexivity.
Qed.

Lemma NodeType_eqb_eq (a b : NodeType) : NodeType_eqb a b = true <-> a = b.
Proof. destruct a, b; simpl; split; congruence. Qed.

(** X8.  A tree is valid exactly when its root is a FRAME that has a
    direct child named content.  A node that is no frame gets the one
    error about the root and nothing else; on a frame a missing branding
    layer is a warning and a missing decorative layer a suggestion, and
    neither makes the tree invalid.  There is never more than one
    error. *)
Theorem validate_characterised (node : Node) :
  let result := validate node in
  (valid result = true <->
   type (props node) = FRAME /\ hasChildNamed LAYER_NAMES.content node)
  /\ (valid result = true <-> errors result = [])
  /\ (List.length (errors result) <= 1)%nat
  /\ (type (props node) <> FRAME ->
      errors result = [lit "Root node must be a FRAME"]
      /\ warnings result = [] /\ suggestions result = [])
  /\ (type (props node) = FRAME ->
      (warnings result = [] <-> hasChildNamed LAYER_NAMES.branding node)
      /\ (suggestions result = [] <->
          hasChildNamed LAYER_NAMES.decorative node)).
Proof.
  cbv zeta. rewrite validate_unfold.
  destruct (NodeType_eqb (type (props node)) FRAME) eqn:Hframe; cbn [negb].
  - apply NodeType_eqb_eq in Hframe. cbv zeta. cbn [valid errors warnings suggestions].
    rewrite <- !existsb_namedNode.
    destruct (existsb (namedNode LAYER_NAMES.content) (childrenOf node));
      destruct (existsb (namedNode LAYER_NAMES.branding) (childrenOf node));
      destruct (existsb (namedNode LAYER_NAMES.decorative) (childrenOf node));
      cbn [List.length];
      repeat split; try tauto; try discriminate; try lia; try congruence;
      intros; try tauto; try discriminate.
  - assert (Hne : type (props node) <> FRAME).
    { intros H. apply NodeType_eqb_eq in H. congruence. }
    cbn [valid errors warnings suggestions List.length].
    repeat split; try tauto; try discriminate; try lia;
      intros; try tauto; try discriminate.
Qed.

Lemma existsb_perm {A : Type} (p : A -> bool) (l l' : list A) :
  Permutation l l' -> existsb p l = existsb p l'.
Proof.
  induction 1; simpl; auto.
  - congruence.
  - destruct (p x), (p y); reflexivity.
  - congruence.
Qed.

(** X9.  Reordering the layers does not change what validation says: the
    result for the reordered frame is the result for the frame. *)
Theorem validate_after_organizeLayerOrder (frame : Node) :
  validate (organizeLayerOrder frame) = validate frame.
Proof.
  rewrite !validate_unfold.
  assert (Hprops : props (organizeLayerOrder frame) = props frame).
  { destruct frame as [p [[|c cs]|]]; reflexivity. }
  rewrite Hprops, childrenOf_organizeLayerOrder.
  destruct (negb (NodeType_eqb (type (props frame)) FRAME)); [reflexivity|].
  cbv beta zeta.
  rewrite !(existsb_perm _ _ _ (Permutation_sym (organize_perm (childrenOf frame)))).
  reflexivity.
Qed.

End LayerManagerSearch.

(* ================================================================= *)
(** ** LayerManager: what naming leaves alone *)

Section LayerManagerFrame.
Import Figma LayerManager.
Context {U : UnicodeCase}.

(** X10.  A name given by [getNormalizedName] fits the kind of the node:
    a text node gets one of headline, subhead, body, cta, tag; a frame
    or group one of content, branding, decorative, background; any
    other node logo, or glow when it is an ellipse.  No text node is
    ever named logo, and no frame or group. *)
Theorem getNormalizedName_by_kind (p : Props) (n : jsstring) :
  getNormalizedName p = Some n ->
  (type p = TEXT /\ In n textNames)
  \/ ((type p = FRAME \/ type p = GROUP) /\ In n containerNames)
  \/ (type p <> TEXT /\ type p <> FRAME /\ type p <> GROUP
      /\ (n = LAYER_NAMES.logo
          \/ (type p = ELLIPSE /\ n = LAYER_NAMES.glow))).
Proof.
  destruct p as [i nm ty v f fn w h].
  unfold getNormalizedName; cbn [name type].
  remember (toLowerCase nm) as lower eqn:Hlower. clear Hlower.
  intros H.
  destruct ty; cbn [NodeType_eqb orb andb negb] in H |- *;
    repeat match type of H with
           | context [includes lower ?w] =>
               destruct (includes lower w); cbn [orb andb negb] in H
           end;
    try discriminate H;
    injection H as <-;
    unfold textNames, containerNames; simpl;
    solve [ left; split; tauto
          | right; left; split; tauto
          | right; right; repeat split; try discriminate; tauto ].
Qed.

Lemma set_name_rename (p : Props) : set_name [] (rename p) = set_name [] p.
Proof.
  unfold rename. destruct (getNormalizedName p); reflexivity.
Qed.

Lemma preorder_node (p : Props) (cs : option (list Node)) :
  preorder (mkNode p cs)
  = mkNode p cs :: flat_map preorder (match cs with
                                      | Some l => l
                                      | None => []
                                      end).
Proof. destruct cs; reflexivity. Qed.

Lemma unnamed_normalizeChild (n : Node) :
  map unnamed (preorder (normalizeChild n)) = map unnamed (preorder n).
Proof.
  induction n as [p|p cs IH] using Node_induction.
  - rewrite normalizeChild_node. simpl. unfold unnamed. simpl.
    rewrite set_name_rename. reflexivity.
  - rewrite normalizeChild_node. cbn [option_map preorder map].
    unfold unnamed at 1 3. cbn [props]. rewrite set_name_rename. f_equal.
    induction IH as [|c l Hc Hl IHl]; [reflexivity|].
    cbn [map flat_map]. rewrite !map_app, Hc, IHl. reflexivity.
Qed.

Lemma unnamed_normalizeLayerNames (n : Node) :
  map unnamed (preorder (normalizeLayerNames n)) = map unnamed (preorder n).
Proof.
  destruct n as [p cs].
  rewrite normalizeLayerNames_children.
  destruct cs as [cs|]; [|reflexivity].
  cbn [option_map preorder map]. f_equal.
  induction cs as [|c l IHl]; [reflexivity|].
  cbn [map flat_map]. rewrite !map_app, unnamed_normalizeChild, IHl.
  reflexivity.
Qed.

Lemma unnamed_organizeLayerOrder (n : Node) :
  Permutation (map unnamed (preorder (organizeLayerOrder n)))
              (map unnamed (preorder n)).
Proof.
  destruct n as [p [[|c cs]|]]; try reflexivity.
  cbn [organizeLayerOrder preorder map].
  apply perm_skip, Permutation_map, Permutation_flat_map.
  apply Permutation_sym, organize_perm.
Qed.

(** X11.  [applyNaming] touches names and the order of the children of
    the root, and nothing else: the root keeps all its properties, and
    the nodes of the tree, names aside, are the nodes it had before (ids,
    kinds, fills, fonts, sizes and visibility untouched, none added, none
    dropped). *)
Theorem applyNaming_changes_names_only (tree : Node) :
  props (applyNaming tree) = props tree
  /\ Permutation (map unnamed (preorder (applyNaming tree)))
                 (map unnamed (preorder tree))
  /\ List.length (preorder (applyNaming tree)) = List.length (preorder tree).
Proof.
  assert (Hperm : Permutation (map unnamed (preorder (applyNaming tree)))
                              (map unnamed (preorder tree))).
  { unfold applyNaming.
    rewrite unnamed_organizeLayerOrder, unnamed_normalizeLayerNames.
    reflexivity. }
  split; [|split; [exact Hperm|]].
  - unfold applyNaming. destruct tree as [p [cs|]]; [|reflexivity].
    rewrite normalizeLayerNames_children. cbn [option_map].
    destruct (map normalizeChild cs); reflexivity.
  - apply Permutation_length in Hperm. rewrite !length_map in Hperm.
    exact Hperm.
Qed.

End LayerManagerFrame.

Section LayerManagerFrameWitness.
Import Figma LayerManager.

Lemma getNormalizedName_by_kind_witness :
  (type (plain "1:3" "Hero Heading" TEXT) = TEXT
   /\ In LAYER_NAMES.headline textNames)
  \/ ((type (plain "1:3" "Hero Heading" TEXT) = FRAME
       \/ type (plain "1:3" "Hero Heading" TEXT) = GROUP)
      /\ In LAYER_NAMES.headline containerNames)
  \/ (type (plain "1:3" "Hero Heading" TEXT) <> TEXT
      /\ type (plain "1:3" "Hero Heading" TEXT) <> FRAME
      /\ type (plain "1:3" "Hero Heading" TEXT) <> GROUP
      /\ (LAYER_NAMES.headline = LAYER_NAMES.logo
          \/ (type (plain "1:3" "Hero Heading" TEXT) = ELLIPSE
              /\ LAYER_NAMES.headline = LAYER_NAMES.glow))).
Proof.
  exact (@getNormalizedName_by_kind BasicLatin
           (plain "1:3" "Hero Heading" TEXT) LAYER_NAMES.headline eq_refl).
Defined.

End LayerManagerFrameWitness.

(* ================================================================= *)
(** ** ThemeEngine: what a theme leaves alone *)

Section ThemeFrame.
Import Figma ThemeEngine.

Lemma unpainted_set_fills (f : list Paint) (n : Node) :
  unpainted (with_props (set_fills f) n) = unpainted n.
Proof. destruct n as [[] cs]; reflexivity. Qed.

Lemma unpainted_set_visible (v : bool) (n : Node) :
  unpainted (with_props (set_visible v) n) = unpainted n.
Proof. destruct n as [[] cs]; reflexivity. Qed.

Lemma unpainted_paintText (c : RGB) (n : Node) :
  unpainted (paintText c n) = unpainted n.
Proof.
  induction n as [p|p cs IH] using Node_induction.
  - simpl. destruct (_ && _); destruct p; reflexivity.
  - cbn [paintText unpainted option_map]. f_equal.
    + destruct (_ && _); destruct p; reflexivity.
    + f_equal. rewrite map_map. apply map_ext_in.
      intros x Hx. rewrite Forall_forall in IH. apply IH, Hx.
Qed.

(** A change in place that leaves the unpainted form of the node it
    changes alone leaves the unpainted form of the tree alone. *)
Lemma unpainted_changeLayerByName (change : Node -> Node)
  (layerName : jsstring) (n n' : Node) :
  (forall x, unpainted (change x) = unpainted x) ->
  changeLayerByName change layerName n = Some n' ->
  unpainted n' = unpainted n.
Proof.
  intros Hchange. revert n'.
  induction n as [p|p cs IH] using Node_induction; intros n'.
  - cbn [changeLayerByName].
    destruct (eqb (name p) layerName); [|discriminate].
    intros [= <-]. apply Hchange.
  - cbn [changeLayerByName].
    destruct (eqb (name p) layerName).
    + intros [= <-]. apply Hchange.
    + match goal with
      | |- option_map _ ?e = _ -> _ => destruct e as [l'|] eqn:E
      end; [|discriminate].
      intros [= <-]. cbn [unpainted option_map]. do 2 f_equal.
      revert l' E.
      induction IH as [|c l Hc Hl IHl]; intros l' E; [discriminate|].
      destruct (changeLayerByName change layerName c) as [c'|] eqn:Ec.
      * injection E as <-. cbn [map]. f_equal. apply Hc. reflexivity.
      * match type of E with
        | option_map _ ?e = _ => destruct e as [t'|] eqn:Et
        end; [|discriminate].
        injection E as <-. cbn [map]. f_equal. apply IHl. reflexivity.
Qed.

Lemma unpainted_orElse_change (change : Node -> Node)
  (layerName : jsstring) (n : Node) :
  (forall x, unpainted (change x) = unpainted x) ->
  unpainted (orElse (changeLayerByName change layerName n) n) = unpainted n.
Proof.
  intros Hchange.
  destruct (changeLayerByName change layerName n) as [n'|] eqn:E; simpl.
  - eapply unpainted_changeLayerByName; eauto.
  - reflexivity.
Qed.

(** The four steps of [apply], one after the other, leave the unpainted
    form of the frame alone. *)
Lemma unpainted_steps (brandConfig : option Brand.BrandConfig)
  (frame : Node) (theme : Theme) :
  unpainted
    (applyGlowEffect
       (applyAccentColors brandConfig
          (applyTextColors brandConfig
             (applyBackgroundColor brandConfig frame theme) theme)
          theme) theme)
  = unpainted frame.
Proof.
  unfold applyGlowEffect. rewrite unpainted_orElse_change.
  - unfold applyAccentColors. rewrite unpainted_orElse_change.
    + unfold applyTextColors. rewrite unpainted_paintText.
      unfold applyBackgroundColor, applyGradientBackground.
      destruct (field Defaults.background theme) as [key|];
        [destruct (eqb key (lit "gradient"))|];
        apply unpainted_set_fills.
    + intros x. destruct (NodeType_eqb _ TEXT); auto.
      apply unpainted_set_fills.
  - intros x. destruct (children x); auto.
    apply unpainted_orElse_change. intros y. apply unpainted_set_visible.
Qed.

(** X12.  Whatever the theme name is, [apply] changes fills and
    visibility only: names, ids, kinds, fonts, sizes and the shape of the
    tree stay as they are. *)
Theorem apply_changes_paint_only (brandConfig : option Brand.BrandConfig)
  (frame : Node) (themeName : jsstring) :
  unpainted (apply brandConfig frame themeName) = unpainted frame.
Proof.
  unfold apply.
  pose proof (unpainted_steps brandConfig frame
                (Obj.get Defaults.THEMES themeName)) as Hsteps.
  destruct (Obj.get Defaults.THEMES themeName) as [theme|member|].
  - exact Hsteps.
  - exact Hsteps.
  - reflexivity.
Qed.

End ThemeFrame.

(* ================================================================= *)
(** ** AuditEngine and ThemeEngine together *)

Section AuditAfterTheme.
Import Figma AuditEngine.

Lemma props_unpainted (n : Node) :
  props (unpainted n) = set_visible true (set_fills [] (props n)).
Proof. destruct n; reflexivity. Qed.

Lemma childrenOf_unpainted (n : Node) :
  childrenOf (unpainted n) = map unpainted (childrenOf n).
Proof. destruct n as [p [cs|]]; reflexivity. Qed.

Lemma preorder_unpainted (n : Node) :
  preorder (unpainted n) = map unpainted (preorder n).
Proof.
  induction n as [p|p cs IH] using Node_induction; [reflexivity|].
  cbn [unpainted option_map preorder map]. f_equal.
  induction IH as [|c l Hc Hl IHl]; [reflexivity|].
  cbn [map flat_map]. rewrite map_app, Hc, IHl. reflexivity.
Qed.

Lemma find_map_invariant {A : Type} (f : A -> A) (p : A -> bool)
  (l : list A) :
  (forall x, p (f x) = p x) ->
  find p (map f l) = option_map f (find p l).
Proof.
  intros H. induction l as [|x t IH]; simpl; auto.
  rewrite H. destruct (p x); auto.
Qed.

Lemma filter_map_invariant {A : Type} (f : A -> A) (p : A -> bool)
  (l : list A) :
  (forall x, p (f x) = p x) ->
  filter p (map f l) = map f (filter p l).
Proof.
  intros H. induction l as [|x t IH]; simpl; auto.
  rewrite H. destruct (p x); simpl; congruence.
Qed.

Lemma existsb_map_invariant {A : Type} (f : A -> A) (p : A -> bool)
  (l : list A) :
  (forall x, p (f x) = p x) -> existsb p (map f l) = existsb p l.
Proof.
  intros H. induction l as [|x t IH]; simpl; auto.
  rewrite H, IH. reflexivity.
Qed.

Lemma validate_unpainted (n : Node) :
  LayerManager.validate (unpainted n) = LayerManager.validate n.
Proof.
  rewrite !validate_unfold, props_unpainted, childrenOf_unpainted.
  cbn [type set_visible set_fills]. cbv beta zeta.
  rewrite !existsb_map_invariant; auto;
    intros x; unfold namedNode; rewrite props_unpainted; reflexivity.
Qed.

(** The audit does not look at paint or visibility. *)
Lemma audit_unpainted (brandConfig : option Brand.BrandConfig) (now : Z)
  (n : Node) :
  audit brandConfig now (unpainted n) = audit brandConfig now n.
Proof.
  unfold audit.
  assert (Htyp : checkTypography brandConfig (unpainted n)
                 = checkTypography brandConfig n).
  { unfold checkTypography.
    rewrite !getTextLayers_preorder, preorder_unpainted.
    rewrite filter_map_invariant
      by (intros x; unfold isText; rewrite props_unpainted; reflexivity).
    rewrite find_map_invariant
      by (intros x; rewrite props_unpainted; reflexivity).
    destruct (find _ (filter isText (preorder n))) as [x|]; [|reflexivity].
    cbn [option_map]. rewrite props_unpainted. reflexivity. }
  assert (Hlogo : checkLogoPlacement (unpainted n) = checkLogoPlacement n).
  { unfold checkLogoPlacement.
    rewrite !findLayer_preorder, preorder_unpainted.
    rewrite find_map_invariant
      by (intros x; unfold namedNode; rewrite props_unpainted; reflexivity).
    destruct (find _ (preorder n)); reflexivity. }
  assert (Hstruct : checkLayerStructure (unpainted n) = checkLayerStructure n).
  { unfold checkLayerStructure. rewrite validate_unpainted. reflexivity. }
  rewrite Htyp, Hlogo, Hstruct.
  unfold checkSafeZones, checkExportQuality, checkColorCompliance,
    checkContrastRatio.
  rewrite !props_unpainted. reflexivity.
Qed.

(** X13.  Applying a theme never changes the audit: the result for the
    themed frame is the result for the frame, whatever the theme name and
    the two brand configurations are. *)
Theorem audit_after_apply (themeConfig auditConfig : option Brand.BrandConfig)
  (now : Z) (frame : Node) (themeName : jsstring) :
  audit auditConfig now (ThemeEngine.apply themeConfig frame themeName)
  = audit auditConfig now frame.
Proof.
  rewrite <- audit_unpainted.
  assert (Hsame : unpainted (ThemeEngine.apply themeConfig frame themeName)
                  = unpainted frame).
  { unfold ThemeEngine.apply.
    pose proof (unpainted_steps themeConfig frame
                  (Obj.get Defaults.THEMES themeName)) as Hsteps.
    destruct (Obj.get Defaults.THEMES themeName); auto. }
  rewrite Hsame. apply audit_unpainted.
Qed.

End AuditAfterTheme.

(* ================================================================= *)
(** ** Matching by derivatives *)

Section RegexFacts.
Variable i : bool.

Lemma nullable_lang (r : regex) : nullable r = true <-> lang i r [].
Proof.
  induction r as [|c|p|r1 IH1 r2 IH2|r1 IH1 r2 IH2|r1 IH1|]; simpl.
  - tauto.
  - split; [discriminate | intros (a & H & _); discriminate].
  - split; [discriminate | intros (a & H & _); discriminate].
  - rewrite orb_true_iff, IH1, IH2. tauto.
  - rewrite andb_true_iff, IH1, IH2. split.
    + intros [H1 H2]. exists [], []. auto.
    + intros (s1 & s2 & Hs & H1 & H2).
      symmetry in Hs. apply app_eq_nil in Hs. destruct Hs as [-> ->]. auto.
  - split; auto. intros _. constructor.
  - split; [discriminate | tauto].
Qed.

Lemma deriv_lang (a : N) (r : regex) (s : jsstring) :
  lang i (deriv i a r) s <-> lang i r (a :: s).
Proof.
  revert s.
  induction r as [|c|p|r1 IH1 r2 IH2|r1 IH1 r2 IH2|r1 IH1|]; intros s; simpl.
  - split; [tauto | discriminate].
  - fold (unit_matches i a c).
    destruct (unit_matches i a c) eqn:E; simpl.
    + split.
      * intros ->. exists a. auto.
      * intros (b & [= -> ->] & _). reflexivity.
    + split; [tauto|]. intros (b & [= <- ->] & H). congruence.
  - destruct (p a) eqn:E; simpl.
    + split.
      * intros ->. exists a. auto.
      * intros (b & [= -> ->] & _). reflexivity.
    + split; [tauto|]. intros (b & [= <- ->] & H). congruence.
  - rewrite IH1, IH2. tauto.
  - assert (Hcat : lang i (Cat (deriv i a r1) r2) s <->
                   exists t1 s2, a :: s = (a :: t1) ++ s2
                                 /\ lang i r1 (a :: t1) /\ lang i r2 s2).
    { simpl. split.
      - intros (s1 & s2 & -> & H1 & H2). exists s1, s2.
        rewrite <- IH1. auto.
      - intros (t1 & s2 & [= ->] & H1 & H2). exists t1, s2.
        rewrite IH1. auto. }
    destruct (nullable r1) eqn:En.
    + change (lang i (Cat (deriv i a r1) r2) s \/ lang i (deriv i a r2) s
              <-> exists s1 s2, a :: s = s1 ++ s2
                                /\ lang i r1 s1 /\ lang i r2 s2).
      rewrite Hcat, IH2. split.
      * intros [(t1 & s2 & Hs & H1 & H2)|H].
        -- exists (a :: t1), s2. auto.
        -- exists [], (a :: s). split; auto. split; auto.
           apply nullable_lang, En.
      * intros ([|b t1] & s2 & Hs & H1 & H2).
        -- right. simpl in Hs. subst s2. exact H2.
        -- left. injection Hs as <- ->. exists t1, s2. auto.
    + rewrite Hcat. split.
      * intros (t1 & s2 & Hs & H1 & H2). exists (a :: t1), s2. auto.
      * intros ([|b t1] & s2 & Hs & H1 & H2).
        -- apply nullable_lang in H1. congruence.
        -- injection Hs as <- ->. exists t1, s2. auto.
  - split.
    + intros (s1 & s2 & -> & H1 & H2).
      apply (star_app _ (a :: s1) s2); auto.
      * apply IH1, H1.
      * discriminate.
    + intros H. remember (a :: s) as t eqn:Et.
      destruct H as [|s1 s2 H1 Hne H2]; [discriminate|].
      destruct s1 as [|b s1]; [contradiction Hne; reflexivity|].
      injection Et as -> <-.
      exists s1, s2. split; auto. split; auto. apply IH1, H1.
  - tauto.
Qed.

(** Matching by derivatives is matching. *)
Lemma derivatives_lang (r : regex) (s : jsstring) :
  nullable (fold_left (fun r a => deriv i a r) s r) = true <-> lang i r s.
Proof.
  revert r. induction s as [|a s IH]; intros r; simpl.
  - apply nullable_lang.
  - rewrite IH. apply deriv_lang.
Qed.

Lemma lang_Cls_Cat (p : N -> bool) (r : regex) (s : jsstring) :
  lang i (Cat (Cls p) r) s <->
  exists a t, s = a :: t /\ p a = true /\ lang i r t.
Proof.
  simpl. split.
  - intros (s1 & s2 & -> & (a & -> & Hp) & H). exists a, s2. auto.
  - intros (a & t & -> & Hp & H). exists [a], t. split; auto.
    split; auto. exists a. auto.
Qed.

Lemma lang_Chr_Cat (c : N) (r : regex) (s : jsstring) :
  lang i (Cat (Chr c) r) s <->
  exists a t, s = a :: t /\ unit_matches i a c = true /\ lang i r t.
Proof.
  simpl. split.
  - intros (s1 & s2 & -> & (a & -> & Hp) & H). exists a, s2. auto.
  - intros (a & t & -> & Hp & H). exists [a], t. split; auto.
    split; auto. exists a. auto.
Qed.

Lemma lang_Cat_assoc (r1 r2 r3 : regex) (s : jsstring) :
  lang i (Cat (Cat r1 r2) r3) s <-> lang i (Cat r1 (Cat r2 r3)) s.
Proof.
  simpl. split.
  - intros (s12 & s3 & -> & (s1 & s2 & -> & H1 & H2) & H3).
    exists s1, (s2 ++ s3). rewrite app_assoc. split; auto.
    split; auto. exists s2, s3. auto.
  - intros (s1 & s23 & -> & H1 & (s2 & s3 & -> & H2 & H3)).
    exists (s1 ++ s2), s3. rewrite app_assoc. split; auto.
    split; auto. exists s1, s2. auto.
Qed.

Lemma lang_optional_Cat (r1 r2 : regex) (s : jsstring) :
  lang i (Cat (optional r1) r2) s <-> lang i (Cat r1 r2) s \/ lang i r2 s.
Proof.
  simpl. split.
  - intros (s1 & s2 & -> & [H1| ->] & H2).
    + left. exists s1, s2. auto.
    + right. exact H2.
  - intros [(s1 & s2 & -> & H1 & H2)|H].
    + exists s1, s2. auto.
    + exists [], s. auto.
Qed.

End RegexFacts.

Lemma test_anchored (pattern : RegExp) (s : jsstring) :
  anchoredStart pattern = true -> anchoredEnd pattern = true ->
  (test pattern s = true <-> lang (ignoreCase pattern) (source pattern) s).
Proof.
  intros Hs He. unfold test. rewrite Hs, He. apply derivatives_lang.
Qed.

(* ================================================================= *)
(** ** Colours: parsing and validating *)

Section ColourFacts.
Import Figma ThemeEngine.

Lemma hash_matches (ic : bool) (a : N) :
  unit_matches ic a 35 = true <-> a = 35%N.
Proof.
  unfold unit_matches, canonicalize, upper_ascii.
  destruct ic.
  - change (N.leb 97 35 && N.leb 35 122) with false. cbv iota.
    destruct (N.leb 97 a && N.leb a 122) eqn:E; rewrite N.eqb_eq.
    + apply andb_true_iff in E. destruct E as [E1 E2].
      apply N.leb_le in E1, E2. lia.
    + tauto.
  - apply N.eqb_eq.
Qed.

Lemma lang_pair_Cat (ic : bool) (p : N -> bool) (r : regex) (s : jsstring) :
  lang ic (Cat (Cat (Cls p) (Cls p)) r) s <->
  exists a b t, s = a :: b :: t /\ p a = true /\ p b = true /\ lang ic r t.
Proof.
  rewrite lang_Cat_assoc, lang_Cls_Cat. split.
  - intros (a & t & -> & Ha & H). apply lang_Cls_Cat in H.
    destruct H as (b & u & -> & Hb & H). exists a, b, u. auto.
  - intros (a & b & t & -> & Ha & Hb & H). exists a, (b :: t).
    split; auto. split; auto. apply lang_Cls_Cat. exists b, t. auto.
Qed.

Lemma lang_pair (ic : bool) (p : N -> bool) (s : jsstring) :
  lang ic (Cat (Cls p) (Cls p)) s <->
  exists a b, s = [a; b] /\ p a = true /\ p b = true.
Proof.
  rewrite lang_Cls_Cat. split.
  - intros (a & t & -> & Ha & (b & -> & Hb)). exists a, b. auto.
  - intros (a & b & -> & Ha & Hb). exists a, [b]. split; auto. split; auto.
    exists b. auto.
Qed.

Lemma lang_six (ic : bool) (s : jsstring) :
  lang ic (Cat (Cat (Cls hexDigit) (Cls hexDigit))
               (Cat (Cat (Cls hexDigit) (Cls hexDigit))
                    (Cat (Cls hexDigit) (Cls hexDigit)))) s
  <-> sixHexDigits s.
Proof.
  rewrite lang_pair_Cat. unfold sixHexDigits. split.
  - intros (r1 & r2 & t & -> & H1 & H2 & H). apply lang_pair_Cat in H.
    destruct H as (g1 & g2 & u & -> & H3 & H4 & H). apply lang_pair in H.
    destruct H as (b1 & b2 & -> & H5 & H6).
    exists r1, r2, g1, g2, b1, b2. split; auto.
    simpl. rewrite H1, H2, H3, H4, H5, H6. reflexivity.
  - intros (r1 & r2 & g1 & g2 & b1 & b2 & -> & H).
    simpl in H. rewrite !andb_true_iff in H.
    destruct H as (H1 & H2 & H3 & H4 & H5 & H6 & _).
    exists r1, r2, [g1; g2; b1; b2]. repeat (split; auto).
    apply lang_pair_Cat. exists g1, g2, [b1; b2]. repeat (split; auto).
    apply lang_pair. exists b1, b2. auto.
Qed.

(** What [HEX] accepts: six hexadecimal digits, with or without a hash
    sign in front. *)
Lemma test_HEX (s : jsstring) :
  test HEX s = true <->
  sixHexDigits s \/ exists digits, s = 35%N :: digits /\ sixHexDigits digits.
Proof.
  rewrite test_anchored by reflexivity.
  change (source HEX)
    with (Cat (optional (Chr 35%N))
              (Cat (Cat (Cls hexDigit) (Cls hexDigit))
                   (Cat (Cat (Cls hexDigit) (Cls hexDigit))
                        (Cat (Cls hexDigit) (Cls hexDigit))))).
  rewrite lang_optional_Cat, lang_Chr_Cat, lang_six. split.
  - intros [(a & t & -> & Ha & H)|H]; [right | left; exact H].
    apply hash_matches in Ha. subst a. apply lang_six in H. eauto.
  - intros [H|(digits & -> & H)]; [right; exact H | left].
    exists 35%N, digits. split; auto. split.
    + apply hash_matches. reflexivity.
    + apply lang_six, H.
Qed.

Lemma hexDigit_not_hash (c : N) : hexDigit c = true -> c <> 35%N.
Proof. intros H ->. vm_compute in H. discriminate. Qed.

Lemma hexValue_range (c : N) :
  hexDigit c = true -> 0 <= hexValue c <= 15.
Proof.
  unfold hexDigit, hexValue, digit.
  destruct (N.leb 48 c) eqn:E1, (N.leb c 57) eqn:E2,
           (N.leb 65 c) eqn:E3, (N.leb c 70) eqn:E4,
           (N.leb 97 c) eqn:E5, (N.leb c 102) eqn:E6;
    cbn [andb orb]; try discriminate; intros _;
    rewrite ?N.leb_le, ?N.leb_gt in *; lia.
Qed.

Lemma channel_range (hi lo : N) :
  hexDigit hi = true -> hexDigit lo = true ->
  exists k, 0 <= k <= 255
            /\ channel hi lo = PrimFloat.div (of_Z k) 255%float
            /\ PrimFloat.leb 0%float (channel hi lo) = true
            /\ PrimFloat.leb (channel hi lo) 1%float = true.
Proof.
  intros Hhi Hlo.
  pose proof (hexValue_range hi Hhi) as H1.
  pose proof (hexValue_range lo Hlo) as H2.
  exists (16 * hexValue hi + hexValue lo).
  split; [lia|]. split; [reflexivity|].
  unfold channel.
  assert (Hall : forallb
                   (fun n => PrimFloat.leb 0%float
                               (PrimFloat.div (of_Z (Z.of_nat n)) 255%float)
                             && PrimFloat.leb
                               (PrimFloat.div (of_Z (Z.of_nat n)) 255%float)
                               1%float)
                   (seq 0 256) = true) by (vm_compute; reflexivity).
  rewrite forallb_forall in Hall.
  specialize (Hall (Z.to_nat (16 * hexValue hi + hexValue lo))).
  rewrite Z2Nat.id in Hall by lia.
  apply andb_true_iff. apply Hall.
  apply in_seq. lia.
Qed.

(** X14.  [hexToRgb] reads six hexadecimal digits, with or without a
    hash sign in front, into three channels between 0 and 1, each the
    value of its two digits over 255; every other string, the three-digit
    form and the [rgb()] form among them, gives black. *)
Theorem hexToRgb_total (hex : jsstring) :
  (forall digits, sixHexDigits digits ->
     hex = digits \/ hex = 35%N :: digits ->
     exists r1 r2 g1 g2 b1 b2,
       digits = [r1; r2; g1; g2; b1; b2]
       /\ hexToRgb hex = {| r := channel r1 r2; g := channel g1 g2;
                            b := channel b1 b2 |}
       /\ Forall (fun x => PrimFloat.leb 0%float x = true
                           /\ PrimFloat.leb x 1%float = true)
                 [channel r1 r2; channel g1 g2; channel b1 b2])
  /\ ((forall digits, sixHexDigits digits ->
         hex <> digits /\ hex <> 35%N :: digits) ->
      hexToRgb hex = black).
Proof.
  split.
  - intros digits Hsix Hform.
    assert (Htest : test HEX hex = true).
    { apply test_HEX. destruct Hform as [->| ->]; eauto. }
    destruct Hsix as (r1 & r2 & g1 & g2 & b1 & b2 & -> & Hd).
    exists r1, r2, g1, g2, b1, b2. split; auto.
    simpl in Hd. rewrite !andb_true_iff in Hd.
    destruct Hd as (H1 & H2 & H3 & H4 & H5 & H6 & _).
    split.
    + unfold hexToRgb. rewrite Htest.
      destruct Hform as [->| ->]; [|reflexivity].
      destruct (N.eq_dec r1 35) as [->|Hne];
        [exfalso; exact (hexDigit_not_hash _ H1 eq_refl)|].
      destruct r1 as [|[]]; try reflexivity;
        repeat match goal with
               | |- context [match ?p with xI _ => _ | xO _ => _ | xH => _ end] =>
                   destruct p; try reflexivity
               end;
        contradiction Hne; reflexivity.
    + repeat constructor;
        match goal with
        | |- PrimFloat.leb _ (channel ?h ?l) = true =>
            destruct (channel_range h l) as (k & _ & _ & Hlow & _); auto
        | |- PrimFloat.leb (channel ?h ?l) _ = true =>
            destruct (channel_range h l) as (k & _ & _ & _ & Hup); auto
        end.
  - intros Hnone. unfold hexToRgb.
    destruct (test HEX hex) eqn:E; [|reflexivity].
    apply test_HEX in E.
    destruct E as [H|(digits & -> & H)].
    + destruct (Hnone hex H) as [Hne _]. contradiction Hne. reflexivity.
    + destruct (Hnone digits H) as [_ Hne]. contradiction Hne. reflexivity.
Qed.

End ColourFacts.

Section ConfigFacts.
Import BrandConfigLoader.

Lemma isValidColor_empty : isValidColor [] = false.
Proof. vm_compute. reflexivity. Qed.

Lemma colorErrors_none (palette : list (jsstring * jsstring))
  (field : jsstring) :
  colorErrors palette field = [] <->
  exists color, Obj.own palette field = Some color
                /\ isValidColor color = true.
Proof.
  unfold colorErrors.
  destruct (Obj.own palette field) as [color|].
  - destruct (eqb color []) eqn:E.
    + apply eqb_eq in E. subst color. split; [discriminate|].
      intros (c & [= <-] & H). rewrite isValidColor_empty in H. discriminate.
    + destruct (isValidColor color) eqn:Hv; simpl.
      * split; eauto.
      * split; [discriminate|]. intros (c & [= <-] & H). congruence.
  - split; [discriminate|]. intros (c & H & _). discriminate.
Qed.

Lemma colorErrors_length (palette : list (jsstring * jsstring))
  (field : jsstring) :
  (List.length (colorErrors palette field) <= 1)%nat.
Proof.
  unfold colorErrors.
  destruct (Obj.own palette field) as [color|]; simpl; auto.
  destruct (eqb color []); simpl; auto.
  destruct (isValidColor color); simpl; auto.
Qed.

Lemma flat_map_nil {A B : Type} (f : A -> list B) (l : list A) :
  flat_map f l = [] <-> forall x, In x l -> f x = [].
Proof.
  induction l as [|x t IH]; simpl.
  - tauto.
  - split.
    + intros H. apply app_eq_nil in H. destruct H as [Hx Ht].
      intros y [<-|Hy]; auto. apply IH; auto.
    + intros H. rewrite (H x) by auto. apply IH. auto.
Qed.

Lemma flat_map_length_le {A B : Type} (f : A -> list B) (l : list A) :
  (forall x, (List.length (f x) <= 1)%nat) ->
  (List.length (flat_map f l) <= List.length l)%nat.
Proof.
  intros H. induction l as [|x t IH]; simpl; auto.
  rewrite length_app. specialize (H x). lia.
Qed.

(** X15.  A configuration is valid exactly when the brand has a name, the
    palette holds a colour of valid format under each of the seven
    required fields, and there is a typography section.  A missing logo
    section is a warning and has no part in the verdict.  There are never
    more than nine errors. *)
Theorem validate_config (config : Config) :
  let result := validate config in
  (valid result = true <->
   hasBrandName config /\ hasValidColors config /\ typography config <> None)
  /\ (valid result = true <-> errors result = [])
  /\ (warnings result = [] <-> logo config <> None)
  /\ (forall l, valid (validate (withLogo l config)) = valid result
                /\ errors (validate (withLogo l config)) = errors result)
  /\ (List.length (errors result) <= 9)%nat.
Proof.
  cbv zeta.
  assert (Hnil : valid (validate config) = true
                 <-> errors (validate config) = []).
  { unfold validate; cbn [valid errors]. rewrite Nat.eqb_eq.
    apply length_zero_iff_nil. }
  split; [|split; [exact Hnil|split; [|split]]].
  - rewrite Hnil. unfold validate; cbn [errors].
    unfold hasBrandName, hasValidColors.
    split.
    + intros H. apply app_eq_nil in H. destruct H as [Hb H].
      apply app_eq_nil in H. destruct H as [Hc Ht].
      split; [|split].
      * destruct (brand config) as [b|]; [|discriminate].
        destruct (name b) as [n|] eqn:En; [|discriminate].
        simpl in Hb. destruct (eqb n []) eqn:E; [discriminate|].
        apply eqb_neq in E. eauto.
      * destruct (colors config) as [palette|]; [|discriminate].
        exists palette. split; auto.
        intros field Hf. apply colorErrors_none.
        rewrite flat_map_nil in Hc. auto.
      * destruct (typography config); [discriminate | discriminate].
    + intros ((b & n & Hb & Hn & Hne) & (palette & Hp & Hc) & Ht).
      assert (Hfm : flat_map (colorErrors palette) colorFields = []).
      { apply flat_map_nil. intros field Hf.
        apply colorErrors_none, Hc, Hf. }
      rewrite Hb, Hn, Hp, Hfm. unfold given.
      apply eqb_neq in Hne. rewrite Hne.
      destruct (typography config);
        [reflexivity | contradiction Ht; reflexivity].
  - unfold validate; cbn [warnings].
    destruct (logo config); split; try discriminate; auto.
    intros H. contradiction H. reflexivity.
  - intros l. split; reflexivity.
  - unfold validate; cbn [errors]. rewrite !length_app.
    assert (H1 : (List.length
                    (if given match brand config with
                              | Some b => name b
                              | None => None
                              end
                     then [] else [lit "brand.name is required"]) <= 1)%nat)
      by (destruct (given _); simpl; lia).
    assert (H2 : (List.length
                    match colors config with
                    | Some palette => flat_map (colorErrors palette) colorFields
                    | None => [lit "colors section is required"]
                    end <= 7)%nat).
    { destruct (colors config) as [palette|]; [|simpl; lia].
      apply (flat_map_length_le (colorErrors palette) colorFields).
      apply colorErrors_length. }
    assert (H3 : (List.length
                    match typography config with
                    | Some _ => []
                    | None => [lit "typography section is required"]
                    end <= 1)%nat)
      by (destruct (typography config); simpl; lia).
    lia.
Qed.

(** The hexadecimal form the validator accepts: a hash sign and three or
    six digits. *)
Lemma test_HEX_COLOR (s : jsstring) :
  test HEX_COLOR s = true <->
  exists digits, s = 35%N :: digits
    /\ forallb ThemeEngine.hexDigit digits = true
    /\ (List.length digits = 3%nat \/ List.length digits = 6%nat).
Proof.
  rewrite test_anchored by reflexivity.
  cbn [source HEX_COLOR ignoreCase].
  rewrite lang_Chr_Cat. split.
  - intros (a & t & -> & Ha & H). apply hash_matches in Ha. subst a.
    exists t. split; auto.
    assert (Hthree : forall u, lang false
                       (Cat (Cls hex) (Cat (Cls hex) (Cls hex))) u ->
                     forallb ThemeEngine.hexDigit u = true
                     /\ List.length u = 3%nat).
    { intros u Hu. apply lang_Cls_Cat in Hu.
      destruct Hu as (x & u1 & -> & Hx & Hu). apply lang_Cls_Cat in Hu.
      destruct Hu as (y & u2 & -> & Hy & (z & -> & Hz)).
      unfold hex in *. simpl. rewrite Hx, Hy, Hz. auto. }
    destruct H as [(s1 & s2 & -> & H1 & H2)|H].
    + apply Hthree in H1, H2. destruct H1 as [F1 L1], H2 as [F2 L2].
      rewrite forallb_app, F1, F2, length_app, L1, L2. auto.
    + apply Hthree in H. tauto.
  - intros (digits & -> & Hd & Hlen).
    exists 35%N, digits. split; auto. split; [apply hash_matches; reflexivity|].
    assert (Hthree : forall x y z,
               forallb ThemeEngine.hexDigit [x; y; z] = true ->
               lang false (Cat (Cls hex) (Cat (Cls hex) (Cls hex))) [x; y; z]).
    { intros x y z H. simpl in H. rewrite !andb_true_iff in H.
      destruct H as (Hx & Hy & Hz & _).
      apply lang_Cls_Cat. exists x, [y; z]. repeat (split; auto).
      apply lang_Cls_Cat. exists y, [z]. repeat (split; auto).
      exists z. auto. }
    destruct Hlen as [Hlen|Hlen].
    + right.
      destruct digits as [|x [|y [|z [|]]]]; try discriminate Hlen.
      apply Hthree, Hd.
    + left.
      destruct digits as [|x [|y [|z [|x' [|y' [|z' [|]]]]]]];
        try discriminate Hlen.
      exists [x; y; z], [x'; y'; z']. split; auto.
      simpl in Hd. rewrite !andb_true_iff in Hd.
      destruct Hd as (H1 & H2 & H3 & H4 & H5 & H6 & _).
      split; apply Hthree; simpl;
        rewrite ?H1, ?H2, ?H3, ?H4, ?H5, ?H6; reflexivity.
Qed.

(** What the [rgb()] form starts with. *)
Lemma test_RGB_COLOR_head (s : jsstring) :
  test RGB_COLOR s = true -> exists t, s = 114%N :: t.
Proof.
  rewrite test_anchored by reflexivity.
  cbn [source RGB_COLOR ignoreCase]. unfold word. cbn [lit fold_right].
  intros H. apply (proj1 (lang_Cat_assoc _ _ _ _ _)) in H.
  apply lang_Chr_Cat in H.
  destruct H as (a & t & -> & Ha & _).
  apply N.eqb_eq in Ha. subst a. eauto.
Qed.

Lemma lang_Chr_exact (c : N) (s : jsstring) :
  lang false (Chr c) s <-> s = [c].
Proof.
  cbn [lang]. unfold unit_matches. split.
  - intros (a & -> & Ha). apply N.eqb_eq in Ha. subst. reflexivity.
  - intros ->. exists c. split; [reflexivity | apply N.eqb_refl].
Qed.

Lemma lang_Star_Cls (p : N -> bool) (s : jsstring) :
  lang false (Star (Cls p)) s <-> forallb p s = true.
Proof.
  cbn [lang]. split.
  - induction 1 as [|s1 s2 (a & -> & Ha) _ _ IH]; [reflexivity|].
    simpl. rewrite Ha, IH. reflexivity.
  - induction s as [|c s IH]; intros H; [constructor|].
    simpl in H. apply andb_true_iff in H. destruct H as [Hc Hs].
    apply (star_app _ [c] s); [exists c; auto | discriminate | auto].
Qed.

Lemma lang_plus_Cls (p : N -> bool) (s : jsstring) :
  lang false (plus (Cls p)) s <-> s <> [] /\ forallb p s = true.
Proof.
  unfold plus. change (lang false (Cat (Cls p) (Star (Cls p))) s)
    with (exists s1 s2, s = s1 ++ s2 /\ lang false (Cls p) s1
                        /\ lang false (Star (Cls p)) s2).
  split.
  - intros (s1 & s2 & -> & (a & -> & Ha) & Hs).
    apply lang_Star_Cls in Hs. split; [discriminate|].
    simpl. rewrite Ha, Hs. reflexivity.
  - intros [Hne H]. destruct s as [|c s]; [contradiction Hne; reflexivity|].
    simpl in H. apply andb_true_iff in H. destruct H as [Hc Hs].
    exists [c], s. split; [reflexivity|]. split; [exists c; auto|].
    apply lang_Star_Cls, Hs.
Qed.

Lemma lang_Cat_split (r1 r2 : regex) (s : jsstring) :
  lang false (Cat r1 r2) s
  <-> exists s1 s2, s = s1 ++ s2 /\ lang false r1 s1 /\ lang false r2 s2.
Proof. reflexivity. Qed.

Lemma lang_word_rgb (s : jsstring) :
  lang false (word "rgb") s <-> s = lit "rgb".
Proof.
  unfold word. cbn [lit fold_right].
  change (N_of_ascii "r") with 114%N.
  change (N_of_ascii "g") with 103%N.
  change (N_of_ascii "b") with 98%N.
  rewrite !lang_Cat_split. split.
  - intros (s1 & t1 & -> & H1 & s2 & t2 & -> & H2 & s3 & t3 & -> & H3 & H4).
    apply lang_Chr_exact in H1, H2, H3. cbn [lang] in H4. subst.
    reflexivity.
  - intros ->. exists [114%N], [103%N; 98%N].
    split; [reflexivity|]. split; [apply lang_Chr_exact; reflexivity|].
    exists [103%N], [98%N].
    split; [reflexivity|]. split; [apply lang_Chr_exact; reflexivity|].
    exists [98%N], [].
    split; [reflexivity|]. split; [apply lang_Chr_exact; reflexivity|].
    reflexivity.
Qed.

Lemma lang_padded (s : jsstring) :
  lang false
    (Cat (Star (Cls is_whitespace))
         (Cat (plus (Cls digit)) (Star (Cls is_whitespace)))) s
  <-> exists s1 d s2, s = s1 ++ d ++ s2
                      /\ blank s1 /\ numeral d /\ blank s2.
Proof.
  rewrite lang_Cat_split. unfold blank, numeral. split.
  - intros (s1 & t & -> & H1 & H).
    apply lang_Cat_split in H. destruct H as (d & s2 & -> & Hd & H2).
    apply lang_Star_Cls in H1, H2. apply lang_plus_Cls in Hd.
    exists s1, d, s2. auto.
  - intros (s1 & d & s2 & -> & H1 & Hd & H2).
    exists s1, (d ++ s2). split; [reflexivity|].
    split; [apply lang_Star_Cls, H1|].
    apply lang_Cat_split. exists d, s2. split; [reflexivity|].
    split; [apply lang_plus_Cls, Hd | apply lang_Star_Cls, H2].
Qed.

(** The second pattern of [isValidColor] accepts the functional form and
    nothing else. *)
Lemma test_RGB_COLOR (s : jsstring) :
  test RGB_COLOR s = true <-> rgbForm s.
Proof.
  rewrite test_anchored by reflexivity.
  cbn [source RGB_COLOR ignoreCase]. unfold rgbForm.
  rewrite lang_Cat_split. split.
  - intros (w & t & -> & Hw & H). apply lang_word_rgb in Hw. subst w.
    apply lang_Cat_split in H. destruct H as (a & t1 & -> & Ha & H).
    apply lang_Cat_split in H. destruct H as (open & t2 & -> & Hopen & H).
    apply lang_Chr_exact in Hopen. subst open.
    apply lang_Cat_split in H. destruct H as (n1 & t3 & -> & Hn1 & H).
    apply lang_padded in Hn1.
    destruct Hn1 as (s1 & red & s2 & -> & Hs1 & Hred & Hs2).
    apply lang_Cat_split in H. destruct H as (c1 & t4 & -> & Hc1 & H).
    apply lang_Chr_exact in Hc1. subst c1.
    apply lang_Cat_split in H. destruct H as (n2 & t5 & -> & Hn2 & H).
    apply lang_padded in Hn2.
    destruct Hn2 as (s3 & green & s4 & -> & Hs3 & Hgreen & Hs4).
    apply lang_Cat_split in H. destruct H as (c2 & t6 & -> & Hc2 & H).
    apply lang_Chr_exact in Hc2. subst c2.
    apply lang_Cat_split in H. destruct H as (s5 & t7 & -> & Hs5 & H).
    apply lang_Star_Cls in Hs5.
    apply lang_Cat_split in H. destruct H as (blue & t8 & -> & Hblue & H).
    apply lang_plus_Cls in Hblue.
    apply lang_Cat_split in H. destruct H as (opacity & t9 & -> & Hop & H).
    apply lang_Cat_split in H. destruct H as (s6 & close & -> & Hs6 & Hclose).
    apply lang_Star_Cls in Hs6. apply lang_Chr_exact in Hclose. subst close.
    exists a, s1, red, s2, s3, green, s4, s5, blue, opacity, s6.
    split; [reflexivity|].
    split.
    { destruct Ha as [Ha|Ha]; [right; apply lang_Chr_exact, Ha | left; exact Ha]. }
    repeat (split; [assumption|]).
    split; [|exact Hs6].
    destruct Hop as [Hop|Hop]; [right | left; exact Hop].
    apply lang_Cat_split in Hop. destruct Hop as (c3 & t & -> & Hc3 & Hop).
    apply lang_Chr_exact in Hc3. subst c3.
    apply lang_Cat_split in Hop. destruct Hop as (s7 & value & -> & Hs7 & Hv).
    apply lang_Star_Cls in Hs7. apply lang_plus_Cls in Hv.
    exists s7, value. auto.
  - intros (a & s1 & red & s2 & s3 & green & s4 & s5 & blue & opacity & s6
            & -> & Ha & Hs1 & Hred & Hs2 & Hs3 & Hgreen & Hs4 & Hs5 & Hblue
            & Hop & Hs6).
    eexists _, _. split; [reflexivity|].
    split; [apply lang_word_rgb; reflexivity|].
    apply lang_Cat_split. eexists _, _. split; [reflexivity|]. split.
    { destruct Ha as [->| ->]; [right; reflexivity | left].
      apply lang_Chr_exact. reflexivity. }
    apply lang_Cat_split. eexists _, _. split; [reflexivity|].
    split; [apply lang_Chr_exact; reflexivity|].
    apply lang_Cat_split. eexists _, _. split; [reflexivity|].
    split; [apply lang_padded; exists s1, red, s2; auto|].
    apply lang_Cat_split. eexists _, _. split; [reflexivity|].
    split; [apply lang_Chr_exact; reflexivity|].
    apply lang_Cat_split. eexists _, _. split; [reflexivity|].
    split; [apply lang_padded; exists s3, green, s4; auto|].
    apply lang_Cat_split. eexists _, _. split; [reflexivity|].
    split; [apply lang_Chr_exact; reflexivity|].
    apply lang_Cat_split. eexists _, _. split; [reflexivity|].
    split; [apply lang_Star_Cls, Hs5|].
    apply lang_Cat_split. eexists _, _. split; [reflexivity|].
    split; [apply lang_plus_Cls, Hblue|].
    apply lang_Cat_split. eexists _, _. split; [reflexivity|].
    split.
    { destruct Hop as [->|(s7 & value & -> & Hs7 & Hv)];
        [right; reflexivity | left].
      apply lang_Cat_split. eexists _, _. split; [reflexivity|].
      split; [apply lang_Chr_exact; reflexivity|].
      apply lang_Cat_split. eexists _, _. split; [reflexivity|].
      split; [apply lang_Star_Cls, Hs7 | apply lang_plus_Cls, Hv]. }
    apply lang_Cat_split. eexists _, _. split; [reflexivity|].
    split; [apply lang_Star_Cls, Hs6 | apply lang_Chr_exact; reflexivity].
Qed.

(** The colour of the shadow in the template of a brand file is in the
    functional form. *)
Lemma rgbForm_sample : rgbForm (lit "rgba(0,0,0,0.15)").
Proof. apply test_RGB_COLOR. vm_compute. reflexivity. Qed.

(** X16.  The validator accepts a hash sign with three or six
    hexadecimal digits, and the functional forms [rgb()] and [rgba()],
    and nothing else.  Of these the resolver reads the seven-character
    form only, a hash sign and six digits: every three-digit colour and
    every colour in the functional form passes validation, resolves to
    nothing and is painted black.  The resolver in turn reads six digits
    without a hash sign, which the validator turns down. *)
Theorem valid_color_resolved (color : jsstring) :
  (isValidColor color = true <->
   (exists digits,
      color = 35%N :: digits
      /\ forallb ThemeEngine.hexDigit digits = true
      /\ (List.length digits = 3%nat \/ List.length digits = 6%nat))
   \/ rgbForm color)
  /\ (isValidColor color = true ->
      (hexToRgb color <> None <->
       exists digits, color = 35%N :: digits /\ sixHexDigits digits)
      /\ (hexToRgb color = None ->
          ThemeEngine.hexToRgb color = ThemeEngine.black))
  /\ ((exists x y z,
         color = [35%N; x; y; z]
         /\ forallb ThemeEngine.hexDigit [x; y; z] = true)
      \/ rgbForm color ->
      isValidColor color = true
      /\ hexToRgb color = None
      /\ ThemeEngine.hexToRgb color = ThemeEngine.black)
  /\ (sixHexDigits color ->
      isValidColor color = false /\ hexToRgb color <> None).
Proof.
  assert (Hvalid_iff :
            isValidColor color = true <->
            (exists digits,
               color = 35%N :: digits
               /\ forallb ThemeEngine.hexDigit digits = true
               /\ (List.length digits = 3%nat \/ List.length digits = 6%nat))
            \/ rgbForm color).
  { unfold isValidColor.
    rewrite orb_true_iff, test_HEX_COLOR, test_RGB_COLOR. reflexivity. }
  split; [exact Hvalid_iff|].
  assert (Hresolved :
            (isValidColor color = true ->
             (hexToRgb color <> None <->
              exists digits, color = 35%N :: digits /\ sixHexDigits digits)
             /\ (hexToRgb color = None ->
                 ThemeEngine.hexToRgb color = ThemeEngine.black))
            /\ (sixHexDigits color ->
                isValidColor color = false /\ hexToRgb color <> None)).
  {
  assert (Hsome : forall c, hexToRgb c <> None <-> test ThemeEngine.HEX c = true).
  { intros c. unfold hexToRgb.
    destruct (test ThemeEngine.HEX c) eqn:E; [|split; congruence].
    split; auto. intros _.
    apply test_HEX in E.
    destruct E as [H|(digits & -> & H)];
      destruct H as (r1 & r2 & g1 & g2 & b1 & b2 & -> & Hd).
    - simpl in Hd. rewrite !andb_true_iff in Hd. destruct Hd as (H1 & _).
      destruct (N.eq_dec r1 35) as [->|Hne];
        [exfalso; exact (hexDigit_not_hash _ H1 eq_refl)|].
      destruct r1 as [|[]]; try discriminate;
        repeat match goal with
               | |- context [match ?p with xI _ => _ | xO _ => _ | xH => _ end] =>
                   destruct p; try discriminate
               end;
        contradiction Hne; reflexivity.
    - discriminate. }
  split.
  - intros Hvalid. split.
    + rewrite Hsome, test_HEX. split.
      * intros [Hsix|H]; auto.
        exfalso. destruct Hsix as (r1 & r2 & g1 & g2 & b1 & b2 & -> & Hd).
        simpl in Hd. rewrite !andb_true_iff in Hd. destruct Hd as (H1 & _).
        unfold isValidColor in Hvalid. apply orb_true_iff in Hvalid.
        destruct Hvalid as [Hv|Hv].
        -- apply test_HEX_COLOR in Hv. destruct Hv as (d & [= -> _] & _).
           exact (hexDigit_not_hash _ H1 eq_refl).
        -- apply test_RGB_COLOR_head in Hv. destruct Hv as (t & [= -> _]).
           vm_compute in H1. discriminate.
      * auto.
    + intros Hnone. unfold ThemeEngine.hexToRgb.
      destruct (test ThemeEngine.HEX color) eqn:E; [|reflexivity].
      exfalso. apply Hsome in E. contradiction.
  - intros Hsix. split.
    + destruct Hsix as (r1 & r2 & g1 & g2 & b1 & b2 & -> & Hd).
      simpl in Hd. rewrite !andb_true_iff in Hd. destruct Hd as (H1 & _).
      unfold isValidColor. apply orb_false_iff. split.
      * destruct (test HEX_COLOR _) eqn:E; auto.
        apply test_HEX_COLOR in E. destruct E as (d & [= -> _] & _).
        exfalso. exact (hexDigit_not_hash _ H1 eq_refl).
      * destruct (test RGB_COLOR _) eqn:E; auto.
        apply test_RGB_COLOR_head in E. destruct E as (t & [= -> _]).
        vm_compute in H1. discriminate.
    + apply Hsome, test_HEX. auto.
  }
  destruct Hresolved as [Hres Hsix].
  split; [exact Hres|]. split; [|exact Hsix].
  intros Hform.
  assert (Hvalid : isValidColor color = true).
  { apply Hvalid_iff. destruct Hform as [(x & y & z & -> & Hd)|Hrgb];
      [left | right; exact Hrgb].
    exists [x; y; z]. split; [reflexivity|]. split; [exact Hd|].
    left. reflexivity. }
  destruct (Hres Hvalid) as [Hsome Hblack].
  assert (Hnone : hexToRgb color = None).
  { assert (Hnot : ~ exists digits,
                       color = 35%N :: digits /\ sixHexDigits digits).
    { intros (digits & -> & (r1 & r2 & g1 & g2 & b1 & b2 & -> & _)).
      destruct Hform as [(x & y & z & Heq & _)
                        |(a & s1 & red & s2 & s3 & green & s4 & s5 & blue
                          & opacity & s6 & Heq & _)];
        discriminate Heq. }
    destruct (hexToRgb color) as [rgb|] eqn:E; [|reflexivity].
    exfalso. apply Hnot, Hsome. discriminate. }
  split; [exact Hvalid|]. split; [exact Hnone|]. apply Hblack, Hnone.
Qed.

End ConfigFacts.

(* ================================================================= *)
(** ** AuditEngine: the verdict *)

Section AuditVerdict.
Import Figma AuditEngine.

Lemma checkTypography_passed (brandConfig : option Brand.BrandConfig)
  (frame : Node) :
  AuditCheck.passed (checkTypography brandConfig frame) = true
  <-> fontsApproved brandConfig frame.
Proof.
  unfold checkTypography, fontsApproved.
  set (bad := fun text : Node =>
                match fontName (props text) with
                | mixed => false
                | FontName family _ =>
                    negb (existsb (fun f => eqb f family)
                                  (allowedFonts brandConfig))
                end).
  destruct (find bad (LayerManager.getTextLayers frame)) as [text|] eqn:E.
  - apply find_some in E. destruct E as [Hin Hbad]. unfold bad in Hbad.
    cbn [option_map].
    destruct (fontName (props text)) as [|family style] eqn:Ef;
      [discriminate|].
    cbn [check AuditCheck.passed]. split; [discriminate|].
    intros H. exfalso.
    specialize (H text family style Hin Ef).
    apply negb_true_iff in Hbad.
    assert (existsb (fun f => eqb f family) (allowedFonts brandConfig) = true).
    { apply existsb_exists. exists family. split; auto. apply eqb_refl. }
    congruence.
  - cbn [option_map check AuditCheck.passed]. split; auto. intros _.
    intros text family style Hin Ef.
    pose proof (find_none _ _ E text Hin) as Hok. unfold bad in Hok.
    rewrite Ef in Hok. apply negb_false_iff, existsb_exists in Hok.
    destruct Hok as (f & Hf & Heq). apply eqb_eq in Heq. subst. exact Hf.
Qed.

Lemma audit_checks (brandConfig : option Brand.BrandConfig) (now : Z)
  (frame : Node) :
  AuditResult.checks (audit brandConfig now frame)
  = [ checkColorCompliance frame; checkTypography brandConfig frame;
      checkLogoPlacement frame; checkLayerStructure frame;
      checkSafeZones frame; checkContrastRatio frame;
      checkExportQuality frame ].
Proof. reflexivity. Qed.

(** X17.  The audit passes exactly when every text layer uses an approved
    font, the tree is valid (a FRAME with a content layer) and the frame
    is at least 600 by 200.  A missing logo, the one check that can fail
    as a warning, has no part in it. *)
Theorem audit_passed_iff (brandConfig : option Brand.BrandConfig) (now : Z)
  (frame : Node) :
  AuditResult.passed (audit brandConfig now frame) = true
  <-> fontsApproved brandConfig frame
      /\ LayerManager.valid (LayerManager.validate frame) = true
      /\ largeEnough frame.
Proof.
  rewrite <- checkTypography_passed. unfold largeEnough.
  unfold audit; cbn [AuditResult.passed].
  unfold checkLogoPlacement, checkLayerStructure, checkExportQuality.
  rewrite validate_valid.
  destruct (AuditCheck.passed (checkTypography brandConfig frame)) eqn:Et;
    destruct (LayerManager.findLayer frame LAYER_NAMES.logo);
    destruct (List.length (LayerManager.errors (LayerManager.validate frame)));
    destruct (PrimFloat.ltb (width (props frame)) 600%float);
    destruct (PrimFloat.ltb (height (props frame)) 200%float);
    unfold checkTypography in *;
    destruct (option_map _ _) as [[|family style]|];
    cbn in Et |- *; try discriminate Et;
    intuition discriminate.
Qed.

(** X18.  A frame narrower than 600 or lower than 200 never passes the
    audit, whatever else holds. *)
Theorem audit_small_frame_fails (brandConfig : option Brand.BrandConfig)
  (now : Z) (frame : Node) :
  PrimFloat.ltb (width (props frame)) 600%float = true
  \/ PrimFloat.ltb (height (props frame)) 200%float = true ->
  AuditResult.passed (audit brandConfig now frame) = false.
Proof.
  intros Hsmall.
  unfold audit; cbn [AuditResult.passed].
  apply filter_length_zero. exists (checkExportQuality frame).
  split; [simpl; tauto|].
  unfold checkExportQuality.
  assert (H : PrimFloat.ltb (width (props frame)) 600%float
              || PrimFloat.ltb (height (props frame)) 200%float = true).
  { destruct Hsmall as [->| ->]; [reflexivity | apply orb_true_r]. }
  rewrite H. reflexivity.
Qed.

Lemma audit_small_frame_fails_witness :
  AuditResult.passed
    (audit None 0
       (mkNode
          {| id := lit "2:1"; name := lit "Asset Frame"; type := FRAME;
             visible := true; fills := [];
             fontName := FontName (lit "Inter") (lit "Regular");
             width := 500%float; height := 150%float |}
          (Some [ mkNode (plain "2:2" "content" FRAME) (Some []) ])))
  = false.
Proof.
  apply audit_small_frame_fails. left. reflexivity.
Defined.

(** X19.  The score is one of 43, 57, 71, 86 and 100: the checks of
    colour compliance, safe zones and contrast always pass, so at least
    three of the seven do.  The only warning the audit can give is the
    missing logo layer, and it gives it exactly when no node of the tree
    is named logo; the warnings of the validation never reach the
    result. *)
Theorem audit_score_and_warnings (brandConfig : option Brand.BrandConfig)
  (now : Z) (frame : Node) :
  let result := audit brandConfig now frame in
  (exists z, In z [43; 57; 71; 86; 100]
             /\ AuditResult.score result = of_Z z)
  /\ (LayerManager.findLayer frame LAYER_NAMES.logo <> None ->
      AuditResult.warnings result = [])
  /\ (LayerManager.findLayer frame LAYER_NAMES.logo = None ->
      AuditResult.warnings result = [[Str (lit "Logo layer not found")]]).
Proof.
  cbv zeta. unfold audit; cbn [AuditResult.score AuditResult.warnings].
  unfold checkTypography, checkLogoPlacement, checkLayerStructure,
    checkExportQuality.
  rewrite validate_valid.
  destruct (option_map _ _) as [[|family style]|];
    destruct (LayerManager.findLayer frame LAYER_NAMES.logo);
    destruct (List.length (LayerManager.errors (LayerManager.validate frame)));
    destruct (_ || _);
    (split; [|split; [intros H; try reflexivity; contradiction H; reflexivity
                     |intros H; try reflexivity; discriminate H]]);
    first [ exists 43; split; [simpl; tauto | vm_compute; reflexivity]
          | exists 57; split; [simpl; tauto | vm_compute; reflexivity]
          | exists 71; split; [simpl; tauto | vm_compute; reflexivity]
          | exists 86; split; [simpl; tauto | vm_compute; reflexivity]
          | exists 100; split; [simpl; tauto | vm_compute; reflexivity] ].
Qed.

End AuditVerdict.

(* ================================================================= *)
(** ** FeedbackSystem: the counts of a summary *)

Section FeedbackCounts.
Import FeedbackSystem.

Lemma outcome_partition (l : list FeedbackEntry) :
  List.length l
  = (countOutcome Outcome.approved l + countOutcome Outcome.revised l
     + countOutcome Outcome.rejected l)%nat.
Proof.
  unfold countOutcome. induction l as [|f l IH]; simpl; auto.
  destruct (outcome f); simpl; lia.
Qed.

Lemma occurrences_positive (k : jsstring) (keys : list jsstring) :
  In k keys -> (1 <= occurrences k keys)%nat.
Proof.
  unfold occurrences. intros H.
  assert (Hin : In k (filter (fun x => eqb x k) keys)).
  { apply filter_In. split; auto. apply eqb_refl. }
  destruct (filter (fun x => eqb x k) keys); [contradiction|simpl; lia].
Qed.

Lemma occurrences_le (k : jsstring) (keys : list jsstring) :
  (occurrences k keys <= List.length keys)%nat.
Proof. apply filter_length_le. Qed.

Lemma Date_ge_Invalid (d : Date) : Date_ge d Invalid = false.
Proof. destruct d; reflexivity. Qed.

Lemma firstn_In_sub {A : Type} (n : nat) (l : list A) (x : A) :
  In x (firstn n l) -> In x l.
Proof.
  revert l. induction n as [|n IH]; intros [|y l]; simpl; try tauto.
  intros [H|H]; auto.
Qed.

(** X20.  In every summary the three outcome counts add up to the number
    of assets, which is at most the length of the log.  At most five
    common issues are listed, and each of them has a count of at least
    one and at most the number of issues recorded in the window.  When
    the cutoff is no date, nothing is counted. *)
Theorem getSummary_counts (now later : Z)
  (LocalTZA_utc LocalTZA_local : Z -> Z)
  (feedbackLog : list FeedbackEntry) (days : Z) :
  let summary :=
    getSummary now later LocalTZA_utc LocalTZA_local feedbackLog days in
  let window := recent now LocalTZA_utc LocalTZA_local feedbackLog days in
  totalAssets summary
  = (approvedFirstTry summary + neededRevision summary
     + rejected summary)%nat
  /\ (totalAssets summary <= List.length feedbackLog)%nat
  /\ (List.length (commonIssues summary) <= 5)%nat
  /\ (forall issue count,
        In (issue, count) (commonIssues summary) ->
        (1 <= count <= List.length (flat_map issues window))%nat)
  /\ (cutoff now LocalTZA_utc LocalTZA_local days = Invalid ->
      totalAssets summary = 0%nat /\ commonIssues summary = []).
Proof.
  cbv zeta. unfold getSummary.
  cbn [totalAssets approvedFirstTry neededRevision rejected commonIssues].
  set (window := recent now LocalTZA_utc LocalTZA_local feedbackLog days).
  split; [apply outcome_partition|].
  split; [apply filter_length_le|].
  split; [apply firstn_le_length|].
  split.
  - intros issue count Hin. apply firstn_In_sub in Hin.
    rewrite countIssues_tally in Hin.
    apply (Permutation_in _ (sort_perm byCountDescending _)) in Hin.
    destruct (tally_spec (issueKeys window)) as (_ & Hspec & _).
    apply Hspec in Hin. destruct Hin as [Hk ->].
    split; [apply occurrences_positive, Hk|].
    etransitivity; [apply occurrences_le|].
    unfold issueKeys. rewrite !flat_map_concat_map.
    rewrite !length_concat, !map_map. apply Nat.eq_le_incl.
    f_equal. apply map_ext. intros f. apply length_map.
  - intros Hcut.
    assert (Hw : window = []).
    { unfold window, recent. rewrite Hcut.
      induction feedbackLog as [|f l IH]; simpl; auto.
      rewrite Date_ge_Invalid. exact IH. }
    rewrite Hw. split; reflexivity.
Qed.

(** X21.  A summary read after [submit], at the same time and in the
    same zone: an entry whose timestamp is before the cutoff, or is no
    date, leaves the summary as it was; any other entry adds one to the
    number of assets and one to the count of its own outcome, and
    nothing to the two other counts. *)
Theorem getSummary_after_submit (now later : Z)
  (LocalTZA_utc LocalTZA_local : Z -> Z)
  (feedbackLog : list FeedbackEntry) (entry : FeedbackEntry) (days : Z) :
  let summarize := getSummary now later LocalTZA_utc LocalTZA_local in
  let earlier := summarize feedbackLog days in
  let afterwards := summarize (submit feedbackLog entry) days in
  let counted :=
    Date_ge (timestamp entry)
            (cutoff now LocalTZA_utc LocalTZA_local days) in
  let one (o : Outcome.t) : nat :=
    if Outcome.eqb (outcome entry) o then 1%nat else 0%nat in
  (counted = false -> afterwards = earlier)
  /\ (counted = true ->
      totalAssets afterwards = S (totalAssets earlier)
      /\ approvedFirstTry afterwards
         = (approvedFirstTry earlier + one Outcome.approved)%nat
      /\ neededRevision afterwards
         = (neededRevision earlier + one Outcome.revised)%nat
      /\ rejected afterwards
         = (rejected earlier + one Outcome.rejected)%nat).
Proof.
  cbv zeta. unfold getSummary, submit.
  assert (Hrecent :
            recent now LocalTZA_utc LocalTZA_local (feedbackLog ++ [entry]) days
            = recent now LocalTZA_utc LocalTZA_local feedbackLog days
              ++ (if Date_ge (timestamp entry)
                       (cutoff now LocalTZA_utc LocalTZA_local days)
                  then [entry] else [])).
  { unfold recent. rewrite filter_app. reflexivity. }
  rewrite Hrecent. split; intros Hc; rewrite Hc.
  - rewrite app_nil_r. reflexivity.
  - cbn [totalAssets approvedFirstTry neededRevision rejected].
    unfold countOutcome. rewrite !filter_app, !length_app. cbn [filter].
    destruct (outcome entry); cbn [Outcome.eqb List.length];
      repeat split; lia.
Qed.

End FeedbackCounts.

(* ================================================================= *)
(** ** ThemeEngine: what a theme paints *)

Section ThemePaint.
Import Figma ThemeEngine.

Lemma layers_leaf (p : Props) : layers (mkNode p None) = [p].
Proof. reflexivity. Qed.

Lemma layers_inner (p : Props) (cs : list Node) :
  layers (mkNode p (Some cs)) = p :: flat_map layers cs.
Proof.
  unfold layers. cbn [preorder map]. f_equal.
  induction cs as [|c cs IH]; cbn [flat_map map]; auto.
  rewrite map_app, IH. reflexivity.
Qed.

Lemma find_app_first {A : Type} (p : A -> bool) (l1 l2 : list A) :
  find p (l1 ++ l2)
  = match find p l1 with
    | Some x => Some x
    | None => find p l2
    end.
Proof.
  induction l1 as [|x l1 IH]; simpl; auto. destruct (p x); auto.
Qed.

Lemma layers_paintText (c : RGB) (n : Node) :
  layers (paintText c n) = map (paintProps c) (layers n).
Proof.
  induction n as [p|p cs IH] using Node_induction; [reflexivity|].
  cbn [paintText option_map]. rewrite !layers_inner. cbn [map].
  f_equal.
  induction IH as [|x l Hx Hl IHl]; cbn [map flat_map]; auto.
  rewrite map_app, Hx, IHl. reflexivity.
Qed.

(** A property of all layers that a change in place keeps on the node it
    changes is kept on the tree. *)
Lemma Forall_layers_change (Q : Props -> Prop) (change : Node -> Node)
  (layerName : jsstring) (n n' : Node) :
  (forall x, name (props x) = layerName ->
             Forall Q (layers x) -> Forall Q (layers (change x))) ->
  changeLayerByName change layerName n = Some n' ->
  Forall Q (layers n) -> Forall Q (layers n').
Proof.
  intros Hchange. revert n'.
  induction n as [p|p cs IH] using Node_induction; intros n'.
  - cbn [changeLayerByName].
    destruct (eqb (name p) layerName) eqn:En; [|discriminate].
    intros [= <-]. apply Hchange. apply eqb_eq, En.
  - cbn [changeLayerByName].
    destruct (eqb (name p) layerName) eqn:En.
    + intros [= <-]. apply Hchange. apply eqb_eq, En.
    + match goal with
      | |- option_map _ ?e = _ -> _ => destruct e as [l'|] eqn:E
      end; [|discriminate].
      intros [= <-]. rewrite !layers_inner.
      intros HQ. inversion HQ as [|? ? Hp Hcs]; subst.
      constructor; [exact Hp|]. clear HQ Hp En.
      revert l' E Hcs.
      induction IH as [|c l Hc Hl IHl]; intros l' E Hcs; [discriminate|].
      cbn [flat_map] in Hcs. apply Forall_app in Hcs.
      destruct Hcs as [Hhead Htail].
      destruct (changeLayerByName change layerName c) as [c'|] eqn:Ec.
      * injection E as <-. cbn [flat_map]. apply Forall_app. split; auto.
      * match type of E with
        | option_map _ ?e = _ => destruct e as [t'|] eqn:Et
        end; [|discriminate].
        injection E as <-. cbn [flat_map]. apply Forall_app. split; auto.
Qed.

(** A change in place that leaves the layers alone, visibility apart,
    leaves the layers of the tree alone, visibility apart. *)
Lemma layers_change_visible (change : Node -> Node)
  (layerName : jsstring) (n n' : Node) :
  (forall x, map (set_visible true) (layers (change x))
             = map (set_visible true) (layers x)) ->
  changeLayerByName change layerName n = Some n' ->
  map (set_visible true) (layers n') = map (set_visible true) (layers n).
Proof.
  intros Hchange. revert n'.
  induction n as [p|p cs IH] using Node_induction; intros n'.
  - cbn [changeLayerByName].
    destruct (eqb (name p) layerName); [|discriminate].
    intros [= <-]. apply Hchange.
  - cbn [changeLayerByName].
    destruct (eqb (name p) layerName).
    + intros [= <-]. apply Hchange.
    + match goal with
      | |- option_map _ ?e = _ -> _ => destruct e as [l'|] eqn:E
      end; [|discriminate].
      intros [= <-]. rewrite !layers_inner. cbn [map]. f_equal.
      revert l' E.
      induction IH as [|c l Hc Hl IHl]; intros l' E; [discriminate|].
      destruct (changeLayerByName change layerName c) as [c'|] eqn:Ec.
      * injection E as <-. cbn [flat_map]. rewrite !map_app. f_equal.
        apply Hc. reflexivity.
      * match type of E with
        | option_map _ ?e = _ => destruct e as [t'|] eqn:Et
        end; [|discriminate].
        injection E as <-. cbn [flat_map]. rewrite !map_app. f_equal.
        apply IHl. reflexivity.
Qed.

Lemma layers_with_props (f : Props -> Props) (n : Node) :
  layers (with_props f n) = f (props n) :: tl (layers n).
Proof.
  destruct n as [p [cs|]]; cbn [with_props props];
    rewrite ?layers_inner; reflexivity.
Qed.

Lemma layers_head (n : Node) : layers n = props n :: tl (layers n).
Proof. destruct n as [p [cs|]]; rewrite ?layers_inner; reflexivity. Qed.

Lemma layers_applyGlowEffect (frame : Node) (theme : Theme) :
  map (set_visible true) (layers (applyGlowEffect frame theme))
  = map (set_visible true) (layers frame).
Proof.
  unfold applyGlowEffect.
  match goal with
  | |- context [orElse ?e _] => destruct e as [n'|] eqn:E
  end; [|reflexivity].
  cbn [orElse]. eapply layers_change_visible; [|exact E].
  intros x. cbv beta. destruct (children x); [|reflexivity].
  destruct (changeLayerByName _ LAYER_NAMES.glow x) as [x'|] eqn:Ex;
    [|reflexivity].
  cbn [orElse]. eapply layers_change_visible; [|exact Ex].
  intros y. rewrite layers_with_props, (layers_head y) at 1.
  rewrite (layers_head y) at 2. destruct (props y); reflexivity.
Qed.

Lemma accent_change (c : RGB) (x : Node) :
  (if NodeType_eqb (type (props x)) TEXT
   then with_props (set_fills [SOLID c]) x else x)
  = with_props (accentProps c) x.
Proof.
  destruct x as [p cs]. unfold accentProps. cbn [props with_props].
  destruct (NodeType_eqb (type p) TEXT); reflexivity.
Qed.

Lemma changeLayerByName_ext (f g : Node -> Node) (layerName : jsstring)
  (n : Node) :
  (forall x, f x = g x) ->
  changeLayerByName f layerName n = changeLayerByName g layerName n.
Proof.
  intros Hfg.
  induction n as [p|p cs IH] using Node_induction;
    cbn [changeLayerByName]; rewrite Hfg; [reflexivity|].
  destruct (eqb (name p) layerName); [reflexivity|]. f_equal.
  induction IH as [|c l Hc Hl IHl]; [reflexivity|].
  rewrite Hc, IHl. reflexivity.
Qed.

Lemma firstCta_change (g : Props -> Props) (n : Node) :
  (forall p, name (g p) = name p) ->
  match changeLayerByName (with_props g) LAYER_NAMES.cta n with
  | Some n' => exists p, firstCta (layers n) = Some p
                         /\ firstCta (layers n') = Some (g p)
  | None => firstCta (layers n) = None
  end.
Proof.
  intros Hg. unfold firstCta.
  induction n as [p|p cs IH] using Node_induction.
  - cbn [changeLayerByName]. rewrite layers_leaf. cbn [find].
    destruct (eqb (name p) LAYER_NAMES.cta) eqn:En; [|reflexivity].
    exists p. split; auto. cbn [with_props]. rewrite layers_leaf.
    cbn [find]. rewrite Hg, En. reflexivity.
  - cbn [changeLayerByName]. rewrite layers_inner. cbn [find].
    destruct (eqb (name p) LAYER_NAMES.cta) eqn:En.
    + exists p. split; auto. cbn [with_props]. rewrite layers_inner.
      cbn [find]. rewrite Hg, En. reflexivity.
    + induction IH as [|c l Hc Hl IHl]; [reflexivity|].
      cbn [flat_map]. rewrite find_app_first.
      destruct (changeLayerByName (with_props g) LAYER_NAMES.cta c)
        as [c'|] eqn:Ec.
      * destruct Hc as (q & Hq & Hq'). rewrite Hq.
        cbn [option_map]. exists q. split; auto.
        rewrite layers_inner. cbn [find]. rewrite En.
        cbn [flat_map]. rewrite find_app_first, Hq'. reflexivity.
      * rewrite Hc.
        match goal with
        | |- context [option_map (cons c) ?e] => destruct e as [t'|] eqn:Et
        end; cbn [option_map] in IHl |- *.
        -- destruct IHl as (q & Hq & Hq'). exists q. split; auto.
           rewrite layers_inner in Hq' |- *. cbn [find] in Hq' |- *.
           rewrite En in Hq' |- *. cbn [flat_map].
           rewrite find_app_first, Hc. exact Hq'.
        -- exact IHl.
Qed.

Lemma find_map_visible (q : Props -> bool) (l l' : list Props) (p' : Props) :
  (forall p, q (set_visible true p) = q p) ->
  map (set_visible true) l' = map (set_visible true) l ->
  find q l' = Some p' ->
  exists p, find q l = Some p /\ set_visible true p = set_visible true p'.
Proof.
  intros Hq. revert l'.
  induction l as [|x l IH]; intros [|x' l'] Hmap; try discriminate.
  pose proof (f_equal (hd (set_visible true x)) Hmap) as Hx.
  pose proof (f_equal (@tl _) Hmap) as Hl.
  cbn [map hd tl] in Hx, Hl. cbn [find].
  rewrite <- (Hq x), <- (Hq x'), Hx.
  destruct (q (set_visible true x)).
  - intros [= <-]. exists x. split; auto.
  - apply IH, Hl.
Qed.

(** X22.  Applying a theme that [THEMES] reaches paints every text layer
    that is not named cta with the text colour of the theme, wherever it
    is in the tree.  The first layer named cta, when it is a text, has
    the accent colour.  The fills of a frame at the root are those the
    background step gave it: no later step touches them. *)
Theorem apply_paints (brandConfig : option Brand.BrandConfig)
  (frame : Node) (themeName : jsstring) :
  Obj.get Defaults.THEMES themeName <> Obj.Undefined ->
  let theme := Obj.get Defaults.THEMES themeName in
  let textColor := getColor brandConfig (field Defaults.text theme) in
  let accentColor := getColor brandConfig (field Defaults.accent theme) in
  let themed := apply brandConfig frame themeName in
  Forall (fun p => plainText p = true -> fills p = [SOLID textColor])
         (layers themed)
  /\ (forall cta, firstCta (layers themed) = Some cta ->
                  type cta = TEXT -> fills cta = [SOLID accentColor])
  /\ (type (props frame) = FRAME ->
      fills (props themed)
      = fills (props (applyBackgroundColor brandConfig frame theme))).
Proof.
  intros Htheme. cbv zeta.
  set (theme := Obj.get Defaults.THEMES themeName) in *.
  set (textColor := getColor brandConfig (field Defaults.text theme)).
  set (accentColor := getColor brandConfig (field Defaults.accent theme)).
  set (background := applyBackgroundColor brandConfig frame theme).
  set (texts := applyTextColors brandConfig background theme).
  set (accents := applyAccentColors brandConfig texts theme).
  assert (Happly : apply brandConfig frame themeName
                   = applyGlowEffect accents theme).
  { unfold apply. fold theme. destruct theme; try reflexivity.
    contradiction Htheme. reflexivity. }
  rewrite Happly. clear Happly.
  pose proof (layers_applyGlowEffect accents theme) as Hglow.
  assert (Htexts : layers texts = map (paintProps textColor) (layers background))
    by apply layers_paintText.
  assert (Haccent :
            accents
            = orElse (changeLayerByName (with_props (accentProps accentColor))
                        LAYER_NAMES.cta texts) texts).
  { unfold accents, applyAccentColors. fold accentColor. f_equal.
    apply changeLayerByName_ext. intros x. apply accent_change. }
  split; [|split].
  - (* the text colour *)
    assert (H1 : Forall (fun p => plainText p = true ->
                                  fills p = [SOLID textColor])
                        (layers texts)).
    { rewrite Htexts. apply Forall_forall. intros p Hp.
      apply in_map_iff in Hp. destruct Hp as (q & <- & _).
      unfold paintProps. destruct (plainText q) eqn:Eq; [reflexivity|].
      congruence. }
    assert (H2 : Forall (fun p => plainText p = true ->
                                  fills p = [SOLID textColor])
                        (layers accents)).
    { rewrite Haccent.
      destruct (changeLayerByName _ _ texts) as [n'|] eqn:E; [|exact H1].
      cbn [orElse]. eapply Forall_layers_change; [|exact E|exact H1].
      intros x Hname HQ. rewrite layers_with_props.
      rewrite (layers_head x) in HQ. inversion HQ as [|? ? _ Hrest]; subst.
      constructor; [|exact Hrest].
      unfold plainText, accentProps.
      destruct (NodeType_eqb (type (props x)) TEXT);
        cbn [set_fills name type]; rewrite Hname;
        intros Hp; rewrite eqb_refl in Hp; cbn [negb] in Hp;
        rewrite Bool.andb_false_r in Hp; discriminate Hp. }
    clear - H2 Hglow.
    revert Hglow H2.
    generalize (layers (applyGlowEffect accents theme)) as l'.
    generalize (layers accents) as l.
    induction l as [|x l IH]; intros [|x' l'] Hmap HQ; try discriminate;
      constructor.
    + pose proof (f_equal (hd (set_visible true x)) Hmap) as Hx.
      cbn [map hd] in Hx.
      inversion HQ as [|? ? Hhead _]; subst.
      assert (Hp : plainText x' = plainText x).
      { unfold plainText.
        change (type x') with (type (set_visible true x')).
        change (name x') with (name (set_visible true x')).
        rewrite Hx. reflexivity. }
      change (fills x') with (fills (set_visible true x')).
      rewrite Hx, Hp. exact Hhead.
    + pose proof (f_equal (@tl _) Hmap) as Hl. cbn [map tl] in Hl.
      inversion HQ; subst. apply IH; auto.
  - (* the accent colour *)
    intros cta Hfirst Htype.
    destruct (find_map_visible
                (fun p => eqb (name p) LAYER_NAMES.cta) _ _ cta
                (fun p => eq_refl) Hglow Hfirst)
      as (q & Hq & Hv).
    assert (Hfills : fills cta = fills q).
    { change (fills cta) with (fills (set_visible true cta)).
      rewrite <- Hv. reflexivity. }
    assert (Hkind : type q = TEXT).
    { change (type q) with (type (set_visible true q)).
      rewrite Hv. exact Htype. }
    rewrite Hfills. clear Hfills Hv Hfirst Htype cta Hglow.
    rewrite Haccent in Hq.
    pose proof (firstCta_change (accentProps accentColor) texts) as Hc.
    destruct (changeLayerByName _ _ texts) as [n'|] eqn:E.
    + cbn [orElse] in Hq.
      destruct Hc as (q0 & _ & Hq0);
        [intros p; unfold accentProps; destruct (NodeType_eqb _ TEXT);
         reflexivity|].
      unfold firstCta in Hq0. rewrite Hq in Hq0. injection Hq0 as ->.
      unfold accentProps in Hkind |- *.
      destruct (NodeType_eqb (type q0) TEXT) eqn:Et; [reflexivity|].
      rewrite Hkind in Et. discriminate.
    + cbn [orElse] in Hq.
      unfold firstCta in Hc.
      rewrite Hc in Hq;
        [discriminate
        |intros p; unfold accentProps; destruct (NodeType_eqb _ TEXT);
         reflexivity].
  - (* the background *)
    intros Hframe.
    assert (Hroot : forall n m : Node,
               map (set_visible true) (layers n)
               = map (set_visible true) (layers m) ->
               fills (props n) = fills (props m)).
    { intros n m H. rewrite (layers_head n), (layers_head m) in H.
      apply (f_equal (hd (props n))) in H. cbn [map hd] in H.
      change (fills (props n)) with (fills (set_visible true (props n))).
      rewrite H. reflexivity. }
    rewrite (Hroot _ _ Hglow). clear Hroot Hglow.
    assert (Hkind : type (props background) = FRAME).
    { unfold background, applyBackgroundColor, applyGradientBackground.
      destruct frame as [p cs]. cbn [props] in Hframe.
      destruct (field Defaults.background theme) as [key|];
        [destruct (eqb key (lit "gradient"))|]; exact Hframe. }
    assert (Hprops : props texts = props background).
    { unfold texts, applyTextColors.
      destruct background as [p cs]. cbn [props] in Hkind.
      cbn [paintText props]. rewrite Hkind. reflexivity. }
    rewrite <- Hprops. rewrite Haccent.
    destruct texts as [p cs]. cbn [props] in *.
    cbn [changeLayerByName].
    destruct (eqb (name p) LAYER_NAMES.cta).
    + cbn [orElse with_props props]. unfold accentProps.
      rewrite Hprops, Hkind. reflexivity.
    + destruct cs as [l|]; [|reflexivity].
      match goal with
      | |- context [option_map _ ?e] => destruct e
      end; reflexivity.
Qed.

Lemma apply_paints_witness :
  Forall (fun p => plainText p = true ->
                   fills p
                   = [SOLID (getColor None
                               (field Defaults.text
                                  (Obj.get Defaults.THEMES (lit "dark"))))])
         (layers (apply None sample_frame (lit "dark"))).
Proof.
  apply (apply_paints None sample_frame (lit "dark")).
  vm_compute. discriminate.
Defined.

End ThemePaint.

(* ================================================================= *)
(** ** AssetEngine and ThemeEngine: two readings of a colour *)

Section TwoEngines.
Import Figma ThemeEngine.

Lemma hexDigit_cases (c : N) :
  hexDigit c = true ->
  In c [ 48; 49; 50; 51; 52; 53; 54; 55; 56; 57; 65; 66; 67; 68; 69; 70;
         97; 98; 99; 100; 101; 102 ]%N.
Proof.
  unfold hexDigit, digit.
  rewrite !orb_true_iff, !andb_true_iff, !N.leb_le. simpl. lia.
Qed.

Lemma asset_channel (hi lo : N) :
  hexDigit hi = true -> hexDigit lo = true ->
  AssetEngine.overMax (AssetEngine.parseInt16 [hi; lo]) = channel hi lo.
Proof.
  intros Hhi Hlo. apply hexDigit_cases in Hhi, Hlo.
  cbn [In] in Hhi.
  repeat (destruct Hhi as [<-|Hhi];
          [cbn [In] in Hlo;
           repeat (destruct Hlo as [<-|Hlo]; [vm_compute; reflexivity|]);
           contradiction|]).
  contradiction.
Qed.

Lemma asset_single (c : N) :
  hexDigit c = true ->
  AssetEngine.overMax (AssetEngine.parseInt16 [c])
  = PrimFloat.div (of_Z (hexValue c)) 255%float.
Proof.
  intros Hc. apply hexDigit_cases in Hc. cbn [In] in Hc.
  repeat (destruct Hc as [<-|Hc]; [vm_compute; reflexivity|]).
  contradiction.
Qed.

Lemma removeHash_digits (s : jsstring) :
  forallb hexDigit s = true -> AssetEngine.removeHash s = s.
Proof.
  induction s as [|c s IH]; [reflexivity|].
  cbn [forallb AssetEngine.removeHash]. intros H.
  apply andb_true_iff in H. destruct H as [Hc Hs].
  pose proof (hexDigit_not_hash c Hc) as Hne.
  apply N.eqb_neq in Hne. rewrite Hne, IH; auto.
Qed.

Lemma asset_hexToRgb_six (r1 r2 g1 g2 b1 b2 : N) :
  forallb hexDigit [r1; r2; g1; g2; b1; b2] = true ->
  let colour := {| r := channel r1 r2; g := channel g1 g2;
                   b := channel b1 b2 |} in
  AssetEngine.hexToRgb [r1; r2; g1; g2; b1; b2] = colour
  /\ AssetEngine.hexToRgb (35%N :: [r1; r2; g1; g2; b1; b2]) = colour.
Proof.
  intros Hd. cbv zeta.
  assert (Hclean : AssetEngine.removeHash [r1; r2; g1; g2; b1; b2]
                   = [r1; r2; g1; g2; b1; b2])
    by (apply removeHash_digits, Hd).
  cbn [forallb] in Hd. rewrite !andb_true_iff in Hd.
  destruct Hd as (H1 & H2 & H3 & H4 & H5 & H6 & _).
  assert (Hshape : forall cleanHex,
             cleanHex = [r1; r2; g1; g2; b1; b2] ->
             {| r := AssetEngine.overMax
                       (AssetEngine.parseInt16
                          (AssetEngine.substring cleanHex 0 2));
                g := AssetEngine.overMax
                       (AssetEngine.parseInt16
                          (AssetEngine.substring cleanHex 2 4));
                b := AssetEngine.overMax
                       (AssetEngine.parseInt16
                          (AssetEngine.substring cleanHex 4 6)) |}
             = {| r := channel r1 r2; g := channel g1 g2;
                  b := channel b1 b2 |}).
  { intros cleanHex ->. unfold AssetEngine.substring.
    cbn [Nat.sub skipn firstn].
    rewrite !asset_channel; auto. }
  split; unfold AssetEngine.hexToRgb; cbv zeta; apply Hshape.
  - exact Hclean.
  - reflexivity.
Qed.

Lemma theme_hexToRgb_six (r1 r2 g1 g2 b1 b2 : N) :
  forallb hexDigit [r1; r2; g1; g2; b1; b2] = true ->
  let colour := {| r := channel r1 r2; g := channel g1 g2;
                   b := channel b1 b2 |} in
  hexToRgb [r1; r2; g1; g2; b1; b2] = colour
  /\ hexToRgb (35%N :: [r1; r2; g1; g2; b1; b2]) = colour.
Proof.
  intros Hd. cbv zeta.
  assert (Hsix : sixHexDigits [r1; r2; g1; g2; b1; b2]).
  { exists r1, r2, g1, g2, b1, b2. split; auto. }
  assert (Hplain : test HEX [r1; r2; g1; g2; b1; b2] = true)
    by (apply test_HEX; left; exact Hsix).
  assert (Hhash : test HEX (35%N :: [r1; r2; g1; g2; b1; b2]) = true)
    by (apply test_HEX; right; eauto).
  cbn [forallb] in Hd. rewrite !andb_true_iff in Hd.
  destruct Hd as (H1 & _).
  pose proof (hexDigit_not_hash r1 H1) as Hne.
  split; unfold hexToRgb.
  - rewrite Hplain.
    destruct r1 as [|p]; [reflexivity|].
    destruct (Pos.eq_dec p 35) as [->|Hp];
      [contradiction Hne; reflexivity|].
    do 6 (try (destruct p as [p|p|]; try reflexivity)).
    contradiction Hp; reflexivity.
  - rewrite Hhash. reflexivity.
Qed.

Lemma engines_agree_six (hex : jsstring) :
  sixDigitColour hex -> AssetEngine.hexToRgb hex = hexToRgb hex.
Proof.
  intros (digits & (r1 & r2 & g1 & g2 & b1 & b2 & -> & Hd) & Hform).
  destruct (asset_hexToRgb_six _ _ _ _ _ _ Hd) as [Ha Ha'].
  destruct (theme_hexToRgb_six _ _ _ _ _ _ Hd) as [Ht Ht'].
  destruct Hform as [->| ->]; congruence.
Qed.

(** X23.  The two engines read a colour of six hexadecimal digits, with
    or without a hash sign in front, into the same channels.  They part
    on the three-digit form, which the validation of a brand file
    accepts: ThemeEngine gives black, AssetEngine reads the first two
    digits as red, the third one alone as green, and nothing as blue. *)
Theorem hexToRgb_engines :
  (forall hex, sixDigitColour hex ->
               AssetEngine.hexToRgb hex = hexToRgb hex)
  /\ (forall x y z,
        forallb hexDigit [x; y; z] = true ->
        BrandConfigLoader.isValidColor (35%N :: [x; y; z]) = true
        /\ hexToRgb (35%N :: [x; y; z]) = black
        /\ AssetEngine.hexToRgb (35%N :: [x; y; z])
           = {| r := channel x y;
                g := PrimFloat.div (of_Z (hexValue z)) 255%float;
                b := 0%float |}).
Proof.
  split.
  - exact engines_agree_six.
  - intros x y z Hd. split; [|split].
    + unfold BrandConfigLoader.isValidColor.
      apply orb_true_iff. left. apply test_HEX_COLOR.
      exists [x; y; z]. split; [reflexivity|]. split; [exact Hd|].
      left. reflexivity.
    + unfold hexToRgb.
      destruct (test HEX (35%N :: [x; y; z])); reflexivity.
    + cbn [forallb] in Hd. rewrite !andb_true_iff in Hd.
      destruct Hd as (Hx & Hy & Hz & _).
      unfold AssetEngine.hexToRgb. cbv zeta.
      cbn [AssetEngine.removeHash N.eqb Pos.eqb].
      unfold AssetEngine.substring. cbn [Nat.sub skipn firstn].
      rewrite asset_channel, asset_single by assumption. reflexivity.
Qed.

Lemma default_keys_plain (key : string) :
  In key ["background_dark"; "background_light"; "primary"] ->
  existsb (fun m => eqb m (lit key)) Obj.prototype_members = false
  /\ exists hex, Obj.own Defaults.DEFAULT_COLORS (lit key) = Some hex
                 /\ eqb hex [] = false
                 /\ AssetEngine.hexToRgb hex = hexToRgb hex.
Proof.
  intros [<-|[<-|[<-|[]]]];
    (split; [reflexivity|]); eexists;
    (split; [reflexivity|]); split; vm_compute; reflexivity.
Qed.

(** Both engines choose the same colour for a key of the palette, and
    read it alike when the palette is in the six-digit form. *)
Lemma colour_agrees (brandConfig : option Brand.BrandConfig) (key : string) :
  sixDigitPalette brandConfig ->
  In key ["background_dark"; "background_light"; "primary"] ->
  AssetEngine.hexToRgb (AssetEngine.brandOrDefault brandConfig key)
  = getColor brandConfig (Some (lit key)).
Proof.
  intros Hpalette Hkey.
  destruct (default_keys_plain key Hkey) as (Hproto & d & Hd & Hne & Hsame).
  assert (Hdefault :
            match read Defaults.DEFAULT_COLORS (lit key) with
            | Text hex => hexToRgb hex
            | NotText => black
            | Falsy => hexToRgb (lit "#000000")
            end = AssetEngine.hexToRgb (AssetEngine.defaults key)).
  { unfold read, Obj.get, AssetEngine.defaults. rewrite Hd, Hne.
    symmetry. exact Hsame. }
  unfold getColor, AssetEngine.brandOrDefault, propertyKey.
  unfold sixDigitPalette in Hpalette.
  unfold AssetEngine.brandColors in *.
  destruct brandConfig as [[[palette|] typography]|]; cbn [Brand.colors] in *.
  - unfold read at 1. unfold Obj.get.
    destruct (Obj.own palette (lit key)) as [hex|] eqn:Eown.
    + pose proof (Hpalette _ _ Eown) as Hsix.
      assert (Hfull : eqb hex [] = false).
      { destruct Hsix as (digits & (? & ? & ? & ? & ? & ? & -> & _) & [->| ->]);
          reflexivity. }
      rewrite Hfull.
      apply engines_agree_six, Hsix.
    + rewrite Hproto. symmetry. exact Hdefault.
  - cbn [Obj.own]. rewrite <- Hdefault.
    unfold read, Obj.get. rewrite Hd, Hne. reflexivity.
  - cbn [Obj.own]. rewrite <- Hdefault.
    unfold read, Obj.get. rewrite Hd, Hne. reflexivity.
Qed.

Lemma background_steps (brandConfig : option Brand.BrandConfig)
  (frame : Node) (name key : string) :
  In (name, key) backgroundKeys ->
  AssetEngine.createBackground brandConfig frame (Some (lit name))
  = with_props
      (set_fills
         [SOLID (AssetEngine.hexToRgb
                   (AssetEngine.brandOrDefault brandConfig key))])
      frame
  /\ applyBackgroundColor brandConfig frame
       (Obj.get Defaults.THEMES (lit name))
     = with_props
         (set_fills [SOLID (getColor brandConfig (Some (lit key)))]) frame.
Proof.
  unfold backgroundKeys. cbn [In].
  intros [[= <- <-]|[[= <- <-]|[[= <- <-]|[[= <- <-]|[]]]]];
    split; reflexivity.
Qed.

(** X24.  For the themes dark, light, bold and minimal, and a palette in
    the six-digit form (or none), the background that [createBackground]
    gives a new frame is the one [applyBackgroundColor] of the theme
    engine gives it afterwards.  For the gradient theme the two differ,
    whatever the palette and the frame are: the transforms of the
    gradients are not the same. *)
Theorem createBackground_agrees (brandConfig : option Brand.BrandConfig)
  (frame : Node) :
  (forall themeName,
     sixDigitPalette brandConfig ->
     In themeName (map lit ["dark"; "light"; "bold"; "minimal"]) ->
     AssetEngine.createBackground brandConfig frame (Some themeName)
     = applyBackgroundColor brandConfig frame
         (Obj.get Defaults.THEMES themeName))
  /\ AssetEngine.createBackground brandConfig frame (Some (lit "gradient"))
     <> applyBackgroundColor brandConfig frame
          (Obj.get Defaults.THEMES (lit "gradient")).
Proof.
  split.
  - intros themeName Hpalette Hname. cbn [map In] in Hname.
    assert (Hkey : exists name key,
               themeName = lit name
               /\ In (name, key) backgroundKeys).
    { destruct Hname as [<-|[<-|[<-|[<-|[]]]]];
        [ exists "dark", "background_dark"
        | exists "light", "background_light"
        | exists "bold", "primary"
        | exists "minimal", "background_light" ];
        (split; [reflexivity|]); simpl; tauto. }
    destruct Hkey as (name & key & -> & Hin).
    destruct (background_steps brandConfig frame name key Hin)
      as (Hasset & Htheme).
    rewrite Hasset, Htheme, colour_agrees; auto.
    unfold backgroundKeys in Hin. cbn [In] in Hin.
    destruct Hin as [[= <- <-]|[[= <- <-]|[[= <- <-]|[[= <- <-]|[]]]]];
      simpl; tauto.
  - intros H.
    apply (f_equal
             (fun n => match fills (props n) with
                       | [GRADIENT_LINEAR ((x :: _) :: _) _] =>
                           PrimFloat.eqb x 0.7%float
                       | _ => false
                       end)) in H.
    destruct frame as [p cs]. vm_compute in H. discriminate H.
Qed.

Lemma createBackground_agrees_witness :
  AssetEngine.createBackground None sample_frame (Some (lit "dark"))
  = applyBackgroundColor None sample_frame
      (Obj.get Defaults.THEMES (lit "dark")).
Proof.
  apply (proj1 (createBackground_agrees None sample_frame) (lit "dark")).
  - intros key hex H. discriminate H.
  - left. reflexivity.
Defined.

End TwoEngines.

(* ================================================================= *)
(** ** TestRunner: the results of a run *)

Section RunnerFacts.
Import TestRunner.
Variable World : Type.
Variable Date_now : World -> Z * World.

Lemma filter_all_length {A : Type} (p : A -> bool) (l : list A) :
  Nat.eqb (List.length (filter p l)) (List.length l) = true
  <-> Forall (fun x => p x = true) l.
Proof.
  rewrite Nat.eqb_eq. induction l as [|x l IH]; simpl.
  - split; auto.
  - pose proof (filter_length_le p l) as Hle.
    destruct (p x) eqn:E; simpl; split.
    + intros H. constructor; auto. apply IH. lia.
    + intros H. inversion H; subst. f_equal. apply IH. assumption.
    + intros H. lia.
    + intros H. inversion H; subst. congruence.
Qed.

Lemma runTest_result (name : jsstring) (fn : TestFunction World) (w : World) :
  let result := fst (runTest World Date_now name fn w) in
  TestResult.name result = name
  /\ (TestResult.passed result = true <-> TestResult.error result = None).
Proof.
  cbv zeta. unfold runTest.
  destruct (Date_now w) as [startTime w1].
  destruct (fn w1) as [[thrown|] w2];
    destruct (Date_now w2) as [finish w3]; cbn; split; auto;
    split; discriminate || reflexivity.
Qed.

Lemma runTests_names (suiteTests : Tests World) (w : World) :
  map TestResult.name (fst (runTests World Date_now suiteTests w))
  = map fst suiteTests.
Proof.
  revert w. induction suiteTests as [|[testName testFn] rest IH]; intros w;
    [reflexivity|].
  cbn [runTests].
  pose proof (runTest_result testName testFn w) as [Hname _].
  destruct (runTest World Date_now testName testFn w) as [result w1].
  specialize (IH w1).
  destruct (runTests World Date_now rest w1) as [results w2].
  cbn [fst map] in *. congruence.
Qed.

Lemma runSuite_given (registered : list (jsstring * Tests World))
  (suiteName : jsstring) (tests : Tests World) (w : World) :
  let suite := fst (runSuite World Date_now registered suiteName
                      (Some tests) w) in
  TestSuiteResult.name suite = suiteName
  /\ map TestResult.name (TestSuiteResult.tests suite) = map fst tests
  /\ TestSuiteResult.totalCount suite
     = List.length (TestSuiteResult.tests suite)
  /\ TestSuiteResult.passedCount suite
     = List.length (filter TestResult.passed (TestSuiteResult.tests suite))
  /\ (TestSuiteResult.passed suite = true
      <-> allPassed (TestSuiteResult.tests suite)).
Proof.
  cbv zeta. unfold runSuite.
  pose proof (runTests_names tests w) as Hnames.
  destruct (runTests World Date_now tests w) as [results w1].
  cbn [fst TestSuiteResult.name TestSuiteResult.tests
         TestSuiteResult.totalCount TestSuiteResult.passedCount
         TestSuiteResult.passed] in *.
  repeat split; auto; apply filter_all_length.
Qed.

Lemma runTests_errors (suiteTests : Tests World) (w : World) :
  Forall (fun r => TestResult.passed r = true <-> TestResult.error r = None)
         (fst (runTests World Date_now suiteTests w)).
Proof.
  revert w. induction suiteTests as [|[testName testFn] rest IH]; intros w;
    [constructor|].
  cbn [runTests].
  pose proof (runTest_result testName testFn w) as [_ Herror].
  destruct (runTest World Date_now testName testFn w) as [result w1].
  specialize (IH w1).
  destruct (runTests World Date_now rest w1) as [results w2].
  cbn [fst] in *. constructor; auto.
Qed.

Lemma runSuites_errors (registered remaining : list (jsstring * Tests World))
  (w : World) :
  Forall (fun r => TestResult.passed r = true <-> TestResult.error r = None)
         (flat_map TestSuiteResult.tests
            (fst (runSuites World Date_now registered remaining w))).
Proof.
  revert w.
  induction remaining as [|[suiteName tests] rest IH]; intros w;
    [constructor|].
  cbn [runSuites]. unfold runSuite.
  pose proof (runTests_errors tests w) as Htests.
  destruct (runTests World Date_now tests w) as [results w1].
  specialize (IH w1).
  destruct (runSuites World Date_now registered rest w1) as [suites w2].
  cbn [fst flat_map TestSuiteResult.tests] in *.
  apply Forall_app. split; auto.
Qed.

Lemma fold_left_add {A : Type} (f : A -> nat) (l : list A) (start : nat) :
  fold_left (fun sum x => (sum + f x)%nat) l start
  = (start + list_sum (map f l))%nat.
Proof.
  revert start. induction l as [|x l IH]; intros start; simpl; [lia|].
  rewrite IH. lia.
Qed.

Lemma runSuites_results (registered remaining : list (jsstring * Tests World))
  (w : World) :
  let suiteResults := fst (runSuites World Date_now registered remaining w) in
  let results := flat_map TestSuiteResult.tests suiteResults in
  map TestSuiteResult.name suiteResults = map fst remaining
  /\ map (fun s => map TestResult.name (TestSuiteResult.tests s)) suiteResults
     = map (fun s => map fst (snd s)) remaining
  /\ list_sum (map TestSuiteResult.totalCount suiteResults)
     = List.length results
  /\ list_sum (map TestSuiteResult.passedCount suiteResults)
     = List.length (filter TestResult.passed results)
  /\ Forall (fun s => TestSuiteResult.passed s = true
                      <-> allPassed (TestSuiteResult.tests s))
            suiteResults.
Proof.
  cbv zeta. revert w.
  induction remaining as [|[suiteName tests] rest IH]; intros w.
  - cbn. repeat split; constructor.
  - cbn [runSuites].
    pose proof (runSuite_given registered suiteName tests w)
      as (Hname & Htests & Htotal & Hpassed & Hall).
    destruct (runSuite World Date_now registered suiteName (Some tests) w)
      as [suite w1].
    specialize (IH w1).
    destruct (runSuites World Date_now registered rest w1)
      as [suites w2].
    cbn [fst snd map flat_map list_sum fold_right] in *.
    destruct IH as (IH1 & IH2 & IH3 & IH4 & IH5).
    rewrite filter_app, !length_app.
    split; [congruence|]. split; [congruence|].
    split; [lia|]. split; [lia|].
    constructor; auto.
Qed.

(** X25.  [runAll] gives one result for each registered suite and one for
    each of its tests, under the same names and in the same order.  Its
    total is the number of tests, its passed count the number of tests
    that threw nothing, and it has passed exactly when every test has; the
    same holds within each suite, so that a suite without tests has
    passed.  A test has passed exactly when no error is recorded for
    it. *)
Theorem runAll_aggregates (registered : list (jsstring * Tests World))
  (w : World) :
  let run := fst (runAll World Date_now registered w) in
  map TestSuiteResult.name (TestRunResult.suites run) = map fst registered
  /\ map (fun s => map TestResult.name (TestSuiteResult.tests s))
         (TestRunResult.suites run)
     = map (fun s => map fst (snd s)) registered
  /\ TestRunResult.totalCount run = List.length (allResults run)
  /\ TestRunResult.passedCount run
     = List.length (filter TestResult.passed (allResults run))
  /\ (TestRunResult.passed run = true <-> allPassed (allResults run))
  /\ Forall (fun s => TestSuiteResult.passed s = true
                      <-> allPassed (TestSuiteResult.tests s))
            (TestRunResult.suites run)
  /\ Forall (fun r => TestResult.passed r = true
                      <-> TestResult.error r = None)
            (allResults run).
Proof.
  cbv zeta. unfold runAll, allResults.
  destruct (Date_now w) as [startTime w1].
  pose proof (runSuites_errors registered registered w1) as H6.
  pose proof (runSuites_results registered registered w1)
    as (H1 & H2 & H3 & H4 & H5).
  destruct (runSuites World Date_now registered registered w1)
    as [suiteResults w2].
  destruct (Date_now w2) as [finish w3].
  destruct (Date_now w3) as [timestamp w4].
  cbn [fst TestRunResult.suites TestRunResult.totalCount
         TestRunResult.passedCount TestRunResult.passed] in *.
  rewrite !fold_left_add. cbn [Nat.add].
  rewrite H3, H4.
  repeat split; auto; apply filter_all_length.
Qed.

(** [runSuite] without tests looks the suite up by its name.  For a
    name that is not registered it reports a failure with no test at
    all, where a registered suite without tests is reported as passed;
    whatever tests are handed over are run in place of the registered
    ones.  In each case the state of the host is that after the tests
    that ran. *)
Lemma runSuite_lookup (registered : list (jsstring * Tests World))
  (suiteName : jsstring) (w : World) :
  (Map_get registered suiteName = None ->
   runSuite World Date_now registered suiteName None w
   = ({| TestSuiteResult.name := suiteName; TestSuiteResult.tests := [];
         TestSuiteResult.passed := false;
         TestSuiteResult.passedCount := 0;
         TestSuiteResult.totalCount := 0 |}, w))
  /\ (Map_get registered suiteName = Some [] ->
      runSuite World Date_now registered suiteName None w
      = ({| TestSuiteResult.name := suiteName; TestSuiteResult.tests := [];
            TestSuiteResult.passed := true;
            TestSuiteResult.passedCount := 0;
            TestSuiteResult.totalCount := 0 |}, w))
  /\ (forall tests,
        Map_get registered suiteName = Some tests ->
        runSuite World Date_now registered suiteName None w
        = runSuite World Date_now registered suiteName (Some tests) w)
  /\ (forall tests other,
        runSuite World Date_now registered suiteName (Some tests) w
        = runSuite World Date_now other suiteName (Some tests) w).
Proof.
  unfold runSuite. repeat split.
  - intros ->. reflexivity.
  - intros ->. reflexivity.
  - intros tests ->. reflexivity.
Qed.

End RunnerFacts.
